(** * Symphonize AI Chat: streaming relay, context assembly, attachment
      normalisation and title trigger

    A shallow embedding of the backend functions documented in the
    repository (README.md: [generate_response_stream], [prepare_context],
    [convert_image_to_base64], [extract_text_from_pdf]) and of the SQL
    trigger [auto_generate_conversation_title] (database/functions.sql),
    followed by the properties the specification states about them.

    Conventions.  A Python [str] or an SQL [text] is a [string]; its elements
    are the characters of the text (for text beyond ASCII: the bytes of its
    UTF-8 encoding, so that a character takes up to four elements; where the
    code counts or classifies characters, the model does so by character:
    [Db.LENGTH], [Db.SUBSTRING], [Files.space_width]).  Python integers are
    [Z].  A Python exception is an explicit error value. *)

From Stdlib Require Import ZArith Lia Bool Ascii String List.
From Stdlib Require Import Numbers.DecimalString Numbers.DecimalNat QArith Qround Qabs.
From stdpp Require Import base option list gmap strings.

Local Open Scope string_scope.
Local Open Scope Z_scope.

(** ** Python values, as [json.loads] produces them *)

Module Py.

(** A [float] is kept as the exact decimal [m * 10^e] of its literal.  A
    [dict] is the list of its items in insertion order, keys unique. *)
#[warnings="-register-all"]
Inductive pyval : Type :=
| PNone
| PBool (b : bool)
| PInt (z : Z)
| PFloat (m e : Z)
| PNaN
| PInf (negative : bool)
| PStr (s : string)
| PList (l : list pyval)
| PDict (d : list (string * pyval)).

(** [d[k] = v]: replaces the value of an existing key in place, otherwise
    appends the item. *)
Fixpoint dict_set (k : string) (v : pyval) (d : list (string * pyval))
  : list (string * pyval) :=
  match d with
  | [] => [(k, v)]
  | (k', v') :: d' =>
      if String.eqb k k' then (k, v) :: d' else (k', v') :: dict_set k v d'
  end.

Fixpoint dict_lookup (k : string) (d : list (string * pyval)) : option pyval :=
  match d with
  | [] => None
  | (k', v') :: d' => if String.eqb k k' then Some v' else dict_lookup k d'
  end.

(** [o.get(k, default)]; [None] is the [AttributeError] raised when [o] is not
    a [dict] (no other JSON value has a [get] attribute). *)
Definition get (o : pyval) (k : string) (default : pyval) : option pyval :=
  match o with
  | PDict d => Some (match dict_lookup k d with Some v => v | None => default end)
  | _ => None
  end.

(** [o[k]]; [None] is the [KeyError] (or [TypeError]) raised. *)
Definition getitem (o : pyval) (k : string) : option pyval :=
  match o with
  | PDict d => dict_lookup k d
  | _ => None
  end.

(** The smallest positive binary64 number is [2^-1074]; a decimal literal
    rounds to zero exactly when its magnitude is at most [2^-1075]. *)
Definition float_nonzero (m e : Z) : bool :=
  negb (m =? 0) &&
  ((0 <=? e) || (10 ^ (- e) <? Z.abs m * 2 ^ 1075)).

(** Truth value testing ([if v:]). *)
Definition truthy (v : pyval) : bool :=
  match v with
  | PNone => false
  | PBool b => b
  | PInt z => negb (z =? 0)
  | PFloat m e => float_nonzero m e
  | PNaN => true
  | PInf _ => true
  | PStr s => negb (String.eqb s "")
  | PList l => match l with [] => false | _ => true end
  | PDict d => match d with [] => false | _ => true end
  end.

(** [c.isspace()] for an ASCII character [c], a byte below 128.  The white
    space beyond ASCII takes two or three bytes: see [Files.space_width]. *)
Definition isspace (c : ascii) : bool :=
  let n := N_of_ascii c in
  (((9 <=? n) && (n <=? 13)) || ((28 <=? n) && (n <=? 32)))%N.

(** [s.startswith(p)] *)
Fixpoint startswith (p s : string) : bool :=
  match p, s with
  | EmptyString, _ => true
  | String a p', String b s' => (a =? b)%char && startswith p' s'
  | String _ _, EmptyString => false
  end.

(** The number of positions of [s] at which [p] occurs. *)
Fixpoint occurrences (p s : string) : nat :=
  match s with
  | EmptyString => 0
  | String c r => ((if startswith p s then 1 else 0) + occurrences p r)%nat
  end.

Fixpoint has_newline (text : string) : bool :=
  match text with
  | EmptyString => false
  | String c r => (c =? "010")%char || has_newline r
  end.

(** Empty, or ASCII white space only. *)
Fixpoint is_blank (s : string) : bool :=
  match s with
  | EmptyString => true
  | String c r => isspace c && is_blank r
  end.

Fixpoint all_digits (s : string) : bool :=
  match s with
  | EmptyString => true
  | String c r => (let n := N_of_ascii c in (48 <=? n) && (n <=? 57))%N && all_digits r
  end.

End Py.

Export Py.

(** ** [json.loads] *)

Module Json.

(** Outcome of a scanning step: a value and the rest of the input, a
    [JSONDecodeError], or recursion budget exhausted (which [loads] never
    reaches, see [scan_once_budget]). *)
Inductive res (A : Type) : Type :=
| Ok (a : A) (rest : string)
| Fail
| OutOfFuel.
Arguments Ok {A} a rest.
Arguments Fail {A}.
Arguments OutOfFuel {A}.

(** The double quote character. *)
Definition dquote : ascii := "034"%char.

Definition is_ws (c : ascii) : bool :=
  (c =? " ")%char || (c =? "009")%char || (c =? "010")%char || (c =? "013")%char.

Fixpoint skip_ws (s : string) : string :=
  match s with
  | String c r => if is_ws c then skip_ws r else s
  | EmptyString => s
  end.

Definition is_digit (c : ascii) : bool :=
  let n := N_of_ascii c in ((48 <=? n) && (n <=? 57))%N.

Definition digit_val (c : ascii) : Z := Z.of_N (N_of_ascii c) - 48.

Definition hex_val (c : ascii) : option Z :=
  let n := Z.of_N (N_of_ascii c) in
  if (48 <=? n) && (n <=? 57) then Some (n - 48)
  else if (65 <=? n) && (n <=? 70) then Some (n - 55)
  else if (97 <=? n) && (n <=? 102) then Some (n - 87)
  else None.

Definition hex4 (a b c d : ascii) : option Z :=
  match hex_val a, hex_val b, hex_val c, hex_val d with
  | Some x, Some y, Some z, Some w => Some (((x * 16 + y) * 16 + z) * 16 + w)
  | _, _, _, _ => None
  end.

Definition byte (z : Z) : ascii := ascii_of_N (Z.to_N z).

(** [chr(u)], as UTF-8. *)
Definition chr (u : Z) : string :=
  if u <? 128 then String (byte u) ""
  else if u <? 2048 then
    String (byte (Z.lor 192 (Z.shiftr u 6)))
      (String (byte (Z.lor 128 (Z.land u 63))) "")
  else if u <? 65536 then
    String (byte (Z.lor 224 (Z.shiftr u 12)))
      (String (byte (Z.lor 128 (Z.land (Z.shiftr u 6) 63)))
         (String (byte (Z.lor 128 (Z.land u 63))) ""))
  else
    String (byte (Z.lor 240 (Z.shiftr u 18)))
      (String (byte (Z.lor 128 (Z.land (Z.shiftr u 12) 63)))
         (String (byte (Z.lor 128 (Z.land (Z.shiftr u 6) 63)))
            (String (byte (Z.lor 128 (Z.land u 63))) ""))).

Definition simple_escape (c : ascii) : option ascii :=
  if (c =? dquote)%char then Some dquote
  else if (c =? "\")%char then Some "\"%char
  else if (c =? "/")%char then Some "/"%char
  else if (c =? "b")%char then Some "008"%char
  else if (c =? "f")%char then Some "012"%char
  else if (c =? "n")%char then Some "010"%char
  else if (c =? "r")%char then Some "013"%char
  else if (c =? "t")%char then Some "009"%char
  else None.

Definition is_high_surrogate (u : Z) : bool := (55296 <=? u) && (u <=? 56319).
Definition is_low_surrogate (u : Z) : bool := (56320 <=? u) && (u <=? 57343).

Definition push (p : string) (r : option (string * string)) : option (string * string) :=
  match r with
  | Some (t, rest) => Some (p ++ t, rest)
  | None => None
  end.

(** [scanstring], strict: the input starts just after the opening quote; the
    result is the decoded string and the input after the closing quote.  A
    high surrogate followed by another unicode escape is joined with it when
    that one is a low surrogate. *)
Fixpoint scanstring (s : string) : option (string * string) :=
  match s with
  | EmptyString => None
  | String c r =>
      if (c =? dquote)%char then Some ("", r)
      else if (N_of_ascii c <? 32)%N then None
      else if (c =? "\")%char then
        match r with
        | EmptyString => None
        | String esc r1 =>
            match simple_escape esc with
            | Some ch => push (String ch "") (scanstring r1)
            | None =>
                if (esc =? "u")%char then
                  match r1 with
                  | String h1 (String h2 (String h3 (String h4 r2))) =>
                      match hex4 h1 h2 h3 h4 with
                      | None => None
                      | Some uni =>
                          match r2 with
                          | String b (String u r3) =>
                              if is_high_surrogate uni && (b =? "\")%char && (u =? "u")%char
                              then
                                match r3 with
                                | String l1 (String l2 (String l3 (String l4 r4))) =>
                                    match hex4 l1 l2 l3 l4 with
                                    | None => None
                                    | Some uni2 =>
                                        if is_low_surrogate uni2 then
                                          push (chr (65536 +
                                                 Z.lor (Z.shiftl (uni - 55296) 10)
                                                       (uni2 - 56320)))
                                               (scanstring r4)
                                        else push (chr uni) (scanstring r2)
                                    end
                                | _ => None
                                end
                              else push (chr uni) (scanstring r2)
                          | _ => push (chr uni) (scanstring r2)
                          end
                      end
                  | _ => None
                  end
                else None
            end
        end
      else push (String c "") (scanstring r)
  end.

(** The longest run of decimal digits at the front of the input. *)
Fixpoint span_digits (s : string) : string * string :=
  match s with
  | String c r =>
      if is_digit c then let '(ds, rest) := span_digits r in (String c ds, rest)
      else ("", s)
  | EmptyString => ("", s)
  end.

Fixpoint digits_val (acc : Z) (ds : string) : Z :=
  match ds with
  | String c r => digits_val (acc * 10 + digit_val c) r
  | EmptyString => acc
  end.

(** The integer part: a single zero, or a digit run not starting with zero. *)
Definition match_integer (s : string) : option (string * string) :=
  match s with
  | String c r =>
      if (c =? "0")%char then Some ("0", r)
      else if is_digit c then Some (span_digits s)
      else None
  | EmptyString => None
  end.

(** The optional fraction: a dot and at least one digit. *)
Definition match_frac (s : string) : option string * string :=
  match s with
  | String c r =>
      if (c =? ".")%char then
        match span_digits r with
        | (EmptyString, _) => (None, s)
        | (ds, rest) => (Some ds, rest)
        end
      else (None, s)
  | EmptyString => (None, s)
  end.

(** The optional exponent: e or E, an optional sign, at least one digit. *)
Definition match_exp (s : string) : option Z * string :=
  match s with
  | String c r =>
      if (c =? "e")%char || (c =? "E")%char then
        let '(neg, r1) :=
          match r with
          | String sign r' =>
              if (sign =? "-")%char then (true, r')
              else if (sign =? "+")%char then (false, r')
              else (false, r)
          | EmptyString => (false, r)
          end in
        match span_digits r1 with
        | (EmptyString, _) => (None, s)
        | (ds, rest) =>
            (Some (if neg then - digits_val 0 ds else digits_val 0 ds), rest)
        end
      else (None, s)
  | EmptyString => (None, s)
  end.

(** The number pattern of the decoder: optional minus sign, integer part,
    optional fraction, optional exponent.  The value is an [int] when there
    is neither fraction nor exponent, a [float] otherwise. *)
Definition match_number (s : string) : option (pyval * string) :=
  let '(neg, s1) :=
    match s with
    | String c r => if (c =? "-")%char then (true, r) else (false, s)
    | EmptyString => (false, s)
    end in
  match match_integer s1 with
  | None => None
  | Some (ip, s2) =>
      let '(frac, s3) := match_frac s2 in
      let '(ex, s4) := match_exp s3 in
      let sign (z : Z) := if neg then - z else z in
      match frac, ex with
      | None, None => Some (PInt (sign (digits_val 0 ip)), s4)
      | _, _ =>
          let fd := match frac with Some ds => ds | None => "" end in
          let e := match ex with Some e => e | None => 0 end in
          Some (PFloat (sign (digits_val 0 (ip ++ fd)))
                       (e - Z.of_nat (String.length fd)), s4)
      end
  end.

Fixpoint strip_prefix (p s : string) : option string :=
  match p with
  | EmptyString => Some s
  | String c p' =>
      match s with
      | String d s' => if (c =? d)%char then strip_prefix p' s' else None
      | EmptyString => None
      end
  end.

(** Named constants, then numbers: the tail of [scan_once]. *)
Definition scan_atom (s : string) : option (pyval * string) :=
  match strip_prefix "null" s with
  | Some r => Some (PNone, r)
  | None =>
  match strip_prefix "true" s with
  | Some r => Some (PBool true, r)
  | None =>
  match strip_prefix "false" s with
  | Some r => Some (PBool false, r)
  | None =>
  match match_number s with
  | Some vr => Some vr
  | None =>
  match strip_prefix "NaN" s with
  | Some r => Some (PNaN, r)
  | None =>
  match strip_prefix "Infinity" s with
  | Some r => Some (PInf false, r)
  | None =>
  match strip_prefix "-Infinity" s with
  | Some r => Some (PInf true, r)
  | None => None
  end end end end end end end.

(** [scan_once], with [JSONArray] and [JSONObject] as its two loops.  The
    loops start at the first element (resp. just after the opening quote of
    the first key) and end after the closing bracket. *)
Fixpoint scan_once (fuel : nat) (s : string) : res pyval :=
  match fuel with
  | O => OutOfFuel
  | S fuel' =>
      match s with
      | EmptyString => Fail
      | String c r =>
          if (c =? dquote)%char then
            match scanstring r with
            | Some (t, rest) => Ok (PStr t) rest
            | None => Fail
            end
          else if (c =? "{")%char then
            match skip_ws r with
            | String c1 rest =>
                if (c1 =? "}")%char then Ok (PDict []) rest
                else if (c1 =? dquote)%char then JSONObject fuel' rest []
                else Fail
            | EmptyString => Fail
            end
          else if (c =? "[")%char then
            match skip_ws r with
            | String c1 rest =>
                if (c1 =? "]")%char then Ok (PList []) rest
                else JSONArray fuel' (String c1 rest) []
            | EmptyString => Fail
            end
          else
            match scan_atom s with
            | Some (v, rest) => Ok v rest
            | None => Fail
            end
      end
  end
with JSONArray (fuel : nat) (s : string) (acc : list pyval) : res pyval :=
  match fuel with
  | O => OutOfFuel
  | S fuel' =>
      match scan_once fuel' s with
      | Ok v r =>
          match skip_ws r with
          | String c1 rest =>
              if (c1 =? "]")%char then Ok (PList (acc ++ [v])) rest
              else if (c1 =? ",")%char then JSONArray fuel' (skip_ws rest) (acc ++ [v])
              else Fail
          | EmptyString => Fail
          end
      | Fail => Fail
      | OutOfFuel => OutOfFuel
      end
  end
with JSONObject (fuel : nat) (s : string) (acc : list (string * pyval)) : res pyval :=
  match fuel with
  | O => OutOfFuel
  | S fuel' =>
      match scanstring s with
      | None => Fail
      | Some (key, r) =>
          match skip_ws r with
          | String c1 r1 =>
              if (c1 =? ":")%char then
                match scan_once fuel' (skip_ws r1) with
                | Ok v r2 =>
                    match skip_ws r2 with
                    | String c2 r3 =>
                        if (c2 =? "}")%char then Ok (PDict (dict_set key v acc)) r3
                        else if (c2 =? ",")%char then
                          match skip_ws r3 with
                          | String c3 r4 =>
                              if (c3 =? dquote)%char
                              then JSONObject fuel' r4 (dict_set key v acc)
                              else Fail
                          | EmptyString => Fail
                          end
                        else Fail
                    | EmptyString => Fail
                    end
                | Fail => Fail
                | OutOfFuel => OutOfFuel
                end
              else Fail
          | EmptyString => Fail
          end
      end
  end.

Definition budget (s : string) : nat := S (S (2 * String.length s)).

(** [json.loads(s)]: leading whitespace, one value, trailing whitespace, end
    of input.  [None] is the [JSONDecodeError] raised.  The limits of the
    interpreter (recursion depth, digits of an integer) are not modelled. *)
Definition loads (s : string) : option pyval :=
  match scan_once (budget s) (skip_ws s) with
  | Ok v rest =>
      match skip_ws rest with
      | EmptyString => Some v
      | _ => None
      end
  | _ => None
  end.

End Json.

(** ** The model relay: [generate_response_stream] (ollama_service.py) *)

Module Relay.

(** Modelled from the spec: the line iterator of the HTTP client,
    [response.aiter_lines()], is library code.  The server's response arrives
    as a sequence of network reads; the iterator keeps the unfinished tail of
    the text in a buffer and delivers a line once its newline has arrived; at
    the end of the response a non-empty buffer is delivered as the last
    line. *)
Fixpoint decode (buffer text : string) : list string * string :=
  match text with
  | EmptyString => ([], buffer)
  | String c r =>
      if (c =? "010")%char then
        let '(lines, buffer') := decode "" r in (buffer :: lines, buffer')
      else decode (buffer ++ String c "") r
  end.

(** Modelled from the spec: the end of the response delivers what is left in
    the buffer. *)
Definition flush (buffer : string) : list string :=
  match buffer with
  | EmptyString => []
  | _ => [buffer]
  end.

(** Modelled from the spec: the lines the iterator delivers over a sequence
    of reads, starting with a given buffer. *)
Fixpoint aiter_lines_from (buffer : string) (reads : list string) : list string :=
  match reads with
  | [] => flush buffer
  | text :: reads' =>
      let '(lines, buffer') := decode buffer text in
      lines ++ aiter_lines_from buffer' reads'
  end.

(** Modelled from the spec: [response.aiter_lines()]. *)
Definition aiter_lines (reads : list string) : list string :=
  aiter_lines_from "" reads.

Inductive exn : Type := JSONDecodeError | AttributeError.

(** What one iteration of the loop body does with a line. *)
Inductive step : Type :=
| Yield (content : pyval)
| Continue
| Break
| Raise (e : exn).

(** The body of [async for line in response.aiter_lines()]:
    [chunk = json.loads(line)]; [if chunk.get("done"): break];
    [content = chunk.get("message", {}).get("content", "")];
    [if content: yield content]. *)
Definition loop_body (line : string) : step :=
  match Json.loads line with
  | None => Raise JSONDecodeError
  | Some chunk =>
      match get chunk "done" PNone with
      | None => Raise AttributeError
      | Some done =>
          if truthy done then Break
          else
            match get chunk "message" (PDict []) with
            | None => Raise AttributeError
            | Some message =>
                match get message "content" (PStr "") with
                | None => Raise AttributeError
                | Some content => if truthy content then Yield content else Continue
                end
            end
      end
  end.

(** How the generator ends: the server's lines are exhausted, the loop is
    left by [break] at a done chunk, or an exception propagates to the
    consumer. *)
Inductive ending : Type :=
| Exhausted
| Done
| Raised (e : exn).

(** The values the generator yields, in order, and how it ends.  The request
    to the server (payload, images of the last message) is built before the
    loop and does not influence it. *)
Fixpoint generate_response_stream (lines : list string) : list pyval * ending :=
  match lines with
  | [] => ([], Exhausted)
  | line :: lines' =>
      match loop_body line with
      | Raise e => ([], Raised e)
      | Break => ([], Done)
      | Continue => generate_response_stream lines'
      | Yield content =>
          let '(ys, e) := generate_response_stream lines' in (content :: ys, e)
      end
  end.

End Relay.

(** ** The context assembler: [prepare_context] (context_manager.py) *)

Module Context.

(** [{"role": msg["role"], "content": msg["content"]}]; [None] is the
    [KeyError] of a message without one of the two keys. *)
Definition entry_of (msg : pyval) : option pyval :=
  match getitem msg "role" with
  | None => None
  | Some r =>
      match getitem msg "content" with
      | None => None
      | Some c => Some (PDict [("role", r); ("content", c)])
      end
  end.

Fixpoint append_all (context : list pyval) (messages : list pyval) : option (list pyval) :=
  match messages with
  | [] => Some context
  | msg :: messages' =>
      match entry_of msg with
      | None => None
      | Some e => append_all (context ++ [e]) messages'
      end
  end.

Definition prepare_context (messages : list pyval) (system_prompt : string)
  : option (list pyval) :=
  append_all [PDict [("role", PStr "system"); ("content", PStr system_prompt)]] messages.

End Context.

(** ** The attachment normaliser (file_service.py) *)

Module Files.

(** Pillow image modes ([mode_1] is the mode named 1, and so on). *)
Inductive mode : Type :=
| mode_1 | mode_L | mode_P | RGB | RGBA | CMYK | YCbCr | LAB | HSV | mode_I | mode_F
| LA | PA | RGBX | RGBa | La | mode_I16.

#[global] Instance mode_eq_dec : EqDecision mode.
Proof. solve_decision. Defined.

(** A decoded image: what [Image.open] returns, as far as the normaliser
    looks at it. *)
Record image : Type := { width : Z; height : Z; img_mode : mode }.

(** The imaging library.  [thumbnail img size] is the image after
    [img.thumbnail(size)]; its documented contract: the mode is kept, an
    image that already fits is left alone, and otherwise the result fits the
    requested box, is no larger than the original, and keeps the aspect ratio
    up to the rounding of the computed side to whole pixels. *)
Class Pillow : Type := {
  thumbnail : image -> Z * Z -> image;
  thumbnail_mode : forall img size, img_mode (thumbnail img size) = img_mode img;
  thumbnail_fits_already : forall img x y,
    width img <= x -> height img <= y -> thumbnail img (x, y) = img;
  thumbnail_within : forall img x y,
    1 <= width img -> 1 <= height img -> 1 <= x -> 1 <= y ->
    1 <= width (thumbnail img (x, y)) <= x /\
    1 <= height (thumbnail img (x, y)) <= y;
  thumbnail_no_upscale : forall img x y,
    1 <= width img -> 1 <= height img -> 1 <= x -> 1 <= y ->
    width (thumbnail img (x, y)) <= width img /\
    height (thumbnail img (x, y)) <= height img;
  thumbnail_aspect : forall img x y,
    1 <= width img -> 1 <= height img -> 1 <= x -> 1 <= y ->
    Z.abs (width (thumbnail img (x, y)) * height img -
           height (thumbnail img (x, y)) * width img)
    < Z.max (width img) (height img)
}.

(** The size computation of [Image.thumbnail] in exact rational arithmetic
    (the library computes it in binary floating point): the side that does
    not take the requested length is the scaled length rounded down or up,
    whichever gives the aspect ratio closer to the original (down on a tie),
    and at least one pixel. *)
Definition round_aspect (number : Q) (key : Z -> Q) : Z :=
  let lo := Qfloor number in
  let hi := Qceiling number in
  Z.max (if Qle_bool (key lo) (key hi) then lo else hi) 1.

Definition thumbnail_size (w h x y : Z) : Z * Z :=
  if (w <=? x) && (h <=? y) then (w, h)
  else
    let aspect := (inject_Z w / inject_Z h)%Q in
    if Qle_bool aspect (inject_Z x / inject_Z y) then
      (round_aspect (inject_Z y * aspect)
         (fun n => Qabs (aspect - inject_Z n / inject_Z y)), y)
    else
      (x, round_aspect (inject_Z x / aspect)
            (fun n => if n =? 0 then 0%Q
                      else Qabs (aspect - inject_Z x / inject_Z n))).

Definition thumbnail_exact (img : image) (size : Z * Z) : image :=
  let '(a, b) := thumbnail_size (width img) (height img) (fst size) (snd size) in
  {| width := a; height := b; img_mode := img_mode img |}.

(** The modes the imaging library's JPEG encoder writes; for any other,
    [img.save(..., format='JPEG')] raises [OSError: cannot write mode ... as
    JPEG]. *)
Definition jpeg_writable (m : mode) : bool :=
  match m with
  | mode_1 | mode_L | RGB | RGBX | CMYK | YCbCr => true
  | _ => false
  end.

(** [img.convert(m)]: the same picture in mode [m]. *)
Definition convert (img : image) (m : mode) : image :=
  {| width := width img; height := height img; img_mode := m |}.

(** The result's [data]: the base64 text of the JPEG file of an image at a
    quality, kept symbolic. *)
Inductive encoded : Type :=
| b64encode_jpeg (img : image) (quality : Z).

Record payload : Type := { type_ : string; media_type : string; data : encoded }.

Inductive error : Type :=
| ImageTooSmall
| CannotWriteMode (m : mode).

(** [convert_image_to_base64], from the decoded image on. *)
Definition convert_image_to_base64 `{Pillow} (img : image) : error + payload :=
  (* 2. Check size constraints *)
  if (width img <? 50) || (height img <? 50) then inl ImageTooSmall
  else
    (* 3. Resize if needed *)
    let img1 :=
      if (4000 <? width img) || (4000 <? height img)
      then thumbnail img (4000, 4000) else img in
    (* 4. Convert to RGB *)
    let img2 :=
      match img_mode img1 with
      | RGB | RGBA => img1
      | _ => convert img1 RGB
      end in
    (* 5. Encode to JPEG, 6. Convert to base64 *)
    if jpeg_writable (img_mode img2) then
      inr {| type_ := "image"; media_type := "image/jpeg";
             data := b64encode_jpeg img2 95 |}
    else inl (CannotWriteMode (img_mode img2)).

(** The image after step 3. *)
Definition resized `{Pillow} (img : image) : image :=
  if (4000 <? width img) || (4000 <? height img)
  then thumbnail img (4000, 4000) else img.

(** The image that was handed to the encoder for a payload (not what
    decoding the payload returns: the encoder is lossy). *)
Definition output_image (p : payload) : image :=
  match data p with b64encode_jpeg img _ => img end.

(** *** [extract_text_from_pdf] *)

(** White space, as [str.strip] and [str.isspace] take it: the ASCII
    characters of [isspace] and the characters U+0085, U+00A0, U+1680,
    U+2000 to U+200A, U+2028, U+2029, U+202F, U+205F and U+3000, which the
    text holds as the two or three bytes of their encoding. *)

(** A byte that is a character of its own. *)
Definition is_ascii (c : ascii) : bool := (N_of_ascii c <? 128)%N.

(** U+0085 and U+00A0. *)
Definition space2 (c1 c2 : ascii) : bool :=
  let b1 := N_of_ascii c1 in
  let b2 := N_of_ascii c2 in
  ((b1 =? 194) && ((b2 =? 133) || (b2 =? 160)))%N.

(** U+1680; U+2000 to U+200A, U+2028, U+2029, U+202F; U+205F; U+3000. *)
Definition space3 (c1 c2 c3 : ascii) : bool :=
  let b1 := N_of_ascii c1 in
  let b2 := N_of_ascii c2 in
  let b3 := N_of_ascii c3 in
  (((b1 =? 225) && (b2 =? 154) && (b3 =? 128))
   || ((b1 =? 226) && (b2 =? 128)
       && (((128 <=? b3) && (b3 <=? 138)) || (b3 =? 168) || (b3 =? 169) || (b3 =? 175)))
   || ((b1 =? 226) && (b2 =? 129) && (b3 =? 159))
   || ((b1 =? 227) && (b2 =? 128) && (b3 =? 128)))%N.

(** The number of bytes of the white-space character a text begins with; 0
    when it does not begin with white space. *)
Definition space_width (s : string) : nat :=
  match s with
  | String c1 r1 =>
      if isspace c1 then 1%nat
      else match r1 with
           | String c2 r2 =>
               if space2 c1 c2 then 2%nat
               else match r2 with
                    | String c3 _ => if space3 c1 c2 c3 then 3%nat else 0%nat
                    | EmptyString => 0%nat
                    end
           | EmptyString => 0%nat
           end
  | EmptyString => 0%nat
  end.

(** [s.lstrip()] *)
Fixpoint lstrip (s : string) : string :=
  match s with
  | String _ r1 =>
      match space_width s with
      | 1%nat => lstrip r1
      | 2%nat => match r1 with
                 | String _ r2 => lstrip r2
                 | EmptyString => s
                 end
      | 3%nat => match r1 with
                 | String _ (String _ r3) => lstrip r3
                 | _ => s
                 end
      | _ => s
      end
  | EmptyString => s
  end.

(** The text is empty or consists of white space only. *)
Fixpoint whitespace_only (s : string) : bool :=
  match s with
  | String _ r1 =>
      match space_width s with
      | 1%nat => whitespace_only r1
      | 2%nat => match r1 with
                 | String _ r2 => whitespace_only r2
                 | EmptyString => false
                 end
      | 3%nat => match r1 with
                 | String _ (String _ r3) => whitespace_only r3
                 | _ => false
                 end
      | _ => false
      end
  | EmptyString => true
  end.

(** [s.rstrip()]: the text without its longest ending of white space.  (In
    valid text such an ending begins at a character: the first byte of a
    white-space character is no continuation byte.) *)
Fixpoint rstrip (s : string) : string :=
  match s with
  | String c r => if whitespace_only s then "" else String c (rstrip r)
  | EmptyString => s
  end.

Definition strip (s : string) : string := rstrip (lstrip s).

Definition newline : string := String "010"%char "".

(** [f"{n}"] for a natural number. *)
Definition str_of_nat (n : nat) : string := NilEmpty.string_of_uint (Nat.to_uint n).

Definition marker_text (number : string) : string := "--- Page " ++ number ++ " ---".

(** [--- Page n ---] *)
Definition page_marker (n : nat) : string := marker_text (str_of_nat n).

(** The loop over [range(len(pdf_reader.pages))], from index [page_num] on;
    [pages] holds what [extract_text()] returns for each remaining page. *)
Fixpoint pages_loop (page_num : nat) (pages : list string) (text : string) : string :=
  match pages with
  | [] => text
  | page :: pages' =>
      let text1 := text ++ (newline ++ page_marker (page_num + 1) ++ newline) in
      let text2 := text1 ++ page in
      pages_loop (S page_num) pages' text2
  end.

Definition extract_text_from_pdf (pages : list string) : string :=
  strip (pages_loop 0 pages "").

(** What the loop appends for the pages from index [page_num] on. *)
Fixpoint pages_text (page_num : nat) (pages : list string) : string :=
  match pages with
  | [] => ""
  | page :: pages' =>
      newline ++ page_marker (page_num + 1) ++ newline ++ page
      ++ pages_text (S page_num) pages'
  end.

End Files.

(** ** The datastore: tables and the title trigger (database/*.sql) *)

Module Db.

(** [role VARCHAR(20) NOT NULL CHECK (role IN ('user', 'assistant', 'system'))] *)
Inductive role : Type := user | assistant | system.

#[global] Instance role_eq_dec : EqDecision role.
Proof. solve_decision. Defined.

Definition role_name (r : role) : string :=
  match r with
  | user => "user"
  | assistant => "assistant"
  | system => "system"
  end.

(** A row of [messages]; identifiers are numbers standing for UUIDs, and rows
    are kept in insertion order, which is the order of [created_at]. *)
Record message : Type := {
  id : N;
  conversation_id : N;
  msg_role : role;
  content : string;
  model : option string
}.

(** A row of [conversations], stored under its [id]; [title] is nullable. *)
Record conversation : Type := {
  user_id : N;
  title : option string
}.

Record db : Type := {
  conversations : gmap N conversation;
  messages : list message
}.

(** [title VARCHAR(500) DEFAULT 'New Conversation'] *)
Definition default_title : string := "New Conversation".

(** Text in the database is valid in its encoding, UTF-8, and its length is
    counted in characters, not in bytes.  A character is counted at its
    first byte: every byte of valid text is the first byte of a character
    or one of the continuation bytes [10xxxxxx] that follow it. *)
Definition continuation (c : ascii) : bool :=
  let n := N_of_ascii c in ((128 <=? n) && (n <? 192))%N.

(** [LENGTH(s)]: the number of characters of [s]. *)
Fixpoint LENGTH (s : string) : nat :=
  match s with
  | EmptyString => 0%nat
  | String c r => if continuation c then LENGTH r else S (LENGTH r)
  end.

(** [SUBSTRING(s FROM 1 FOR n)]: the first [n] characters of [s], that is
    the text before the first byte of character [n + 1]. *)
Fixpoint SUBSTRING (s : string) (n : nat) : string :=
  match s with
  | EmptyString => EmptyString
  | String c r =>
      if continuation c then String c (SUBSTRING r n)
      else match n with
           | O => EmptyString
           | S n' => String c (SUBSTRING r n')
           end
  end.

(** [UPDATE conversations SET title = t WHERE id = c AND title = 'New
    Conversation'] *)
Definition update_default_title (c : N) (t : string) (convs : gmap N conversation)
  : gmap N conversation :=
  match convs !! c with
  | Some row =>
      match title row with
      | Some old =>
          if String.eqb old default_title
          then <[c := {| user_id := user_id row; title := Some t |}]> convs
          else convs
      | None => convs
      end
  | None => convs
  end.

(** [EXISTS (SELECT 1 FROM messages WHERE conversation_id =
    NEW.conversation_id AND id != NEW.id)] *)
Definition other_message_exists (d : db) (NEW : message) : bool :=
  existsb (fun m => (conversation_id m =? conversation_id NEW)%N
                    && negb (id m =? id NEW)%N) (messages d).

(** The trigger function, run on the database that already holds [NEW]. *)
Definition auto_generate_conversation_title (d : db) (NEW : message) : db :=
  if negb (other_message_exists d NEW) then
    match msg_role NEW with
    | user =>
        let first_message := SUBSTRING (content NEW) 50 in
        let generated_title :=
          if (50 <? LENGTH (content NEW))%nat
          then first_message ++ "..."
          else first_message in
        {| conversations :=
             update_default_title (conversation_id NEW) generated_title
               (conversations d);
           messages := messages d |}
    | _ => d
    end
  else d.

(** [INSERT INTO messages] of a row, with the primary key, the foreign key to
    [conversations] and the length of [model VARCHAR(100)], in characters,
    checked, and the [AFTER INSERT] trigger run; [None] is the statement
    failing.  (A value longer than its column is refused; that the database
    instead cuts it when the excess consists of spaces only is left out.) *)
Definition insert_message (d : db) (NEW : message) : option db :=
  if existsb (fun m => (id m =? id NEW)%N) (messages d) then None
  else if negb (bool_decide (is_Some (conversations d !! conversation_id NEW))) then None
  else if match model NEW with
          | Some m => (100 <? LENGTH m)%nat
          | None => false
          end then None
  else Some (auto_generate_conversation_title
               {| conversations := conversations d;
                  messages := messages d ++ [NEW] |} NEW).

Definition title_of (d : db) (c : N) : option (option string) :=
  title <$> conversations d !! c.

End Db.

(** ** The chat turn (api/chat.py) *)

Module Chat.

Import Db.
Local Open Scope list_scope.

(** The fields of a [POST /chat/stream] request the turn depends on. *)
Record request : Type := {
  req_conversation : N;
  req_message : string;
  req_model : string
}.

Inductive event : Type :=
| EContent (c : string)
| EDone
| EError (reason : string).

(** What the handler does, in order. *)
Inductive action : Type :=
| SaveUserMessage (ok : bool)
| GetHistory
| CallModelServer (context : list pyval) (model_name : string)
| Emit (e : event)
| SaveAssistantMessage (content : string) (ok : bool).

Record outcome : Type := {
  store : db;
  stream_opened : bool;
  trace : list action
}.

(** Modelled from the spec: the identifier the server assigns to a new
    message, one that no stored message has. *)
Definition next_id (d : db) : N :=
  N.succ (foldr N.max 0%N (map id (messages d))).

(** Modelled from the spec: [appendMessage(conversationId, role, content,
    model?)], with a server-assigned identifier. *)
Definition save_message (d : db) (c : N) (r : role) (text : string)
    (m : option string) : option db :=
  insert_message d
    {| id := next_id d; conversation_id := c; msg_role := r;
       content := text; model := m |}.

(** Modelled from the spec: a stored message as the dictionary the accessor
    returns, one key per column. *)
Definition row_dict (m : message) : pyval :=
  PDict [("id", PInt (Z.of_N (id m)));
         ("conversation_id", PInt (Z.of_N (conversation_id m)));
         ("role", PStr (role_name (msg_role m)));
         ("content", PStr (content m));
         ("model", match model m with Some x => PStr x | None => PNone end)].

(** Modelled from the spec: [getMessages(conversationId)], oldest first. *)
Definition get_conversation_messages (d : db) (c : N) : list pyval :=
  map row_dict (filter (fun m => conversation_id m = c) (messages d)).

(** Modelled from the spec: the fragments forwarded to the client, up to the
    first yielded value that is not a string, and whether every yielded
    value was one (fragments are text; their concatenation is undefined for
    any other value). *)
Fixpoint forward (ys : list pyval) : list string * bool :=
  match ys with
  | [] => ([], true)
  | PStr c :: ys' => let '(cs, ok) := forward ys' in (c :: cs, ok)
  | _ :: _ => ([], false)
  end.

(** Modelled from the spec: the request handler of [POST /chat/stream]
    (api/chat.py) is not part of the documented sources.  It follows sections
    4.3 and 7 of the specification and the chat message flow of the README:
    save the user message; on failure reject the request without opening a
    stream; read the history; assemble the context; call the model server;
    forward each fragment as one event; when the stream ends without
    failure, save the assistant message with the concatenation of the
    forwarded fragments and the model identifier and emit the done event; on
    a failure emit an error event and save nothing for the assistant.  The
    stream of the generator ends in one way, by the end of its iteration,
    whether it stopped at a completion line or the server's lines ran out:
    the handler cannot tell the two apart, and both are the end of the
    stream without failure; a failure is an exception of the generator. *)
Definition chat_stream (system_prompt : string) (d : db) (req : request)
    (server_lines : list string) : outcome :=
  match save_message d (req_conversation req) user (req_message req) None with
  | None => {| store := d; stream_opened := false; trace := [SaveUserMessage false] |}
  | Some d1 =>
      let history := get_conversation_messages d1 (req_conversation req) in
      match Context.prepare_context history system_prompt with
      | None =>
          {| store := d1; stream_opened := true;
             trace := [SaveUserMessage true; GetHistory;
                       Emit (EError "context")] |}
      | Some context =>
          let '(ys, ending) := Relay.generate_response_stream server_lines in
          let '(fragments, strings) := forward ys in
          let before :=
            [SaveUserMessage true; GetHistory;
             CallModelServer context (req_model req)]
            ++ map (fun c => Emit (EContent c)) fragments in
          let full_response := String.concat "" fragments in
          match strings, ending with
          | true, Relay.Exhausted | true, Relay.Done =>
              match save_message d1 (req_conversation req) assistant
                      full_response (Some (req_model req)) with
              | Some d2 =>
                  {| store := d2; stream_opened := true;
                     trace := before ++
                       [SaveAssistantMessage full_response true; Emit EDone] |}
              | None =>
                  {| store := d1; stream_opened := true;
                     trace := before ++
                       [SaveAssistantMessage full_response false;
                        Emit (EError "persistence")] |}
              end
          | _, _ =>
              {| store := d1; stream_opened := true;
                 trace := before ++ [Emit (EError "upstream")] |}
          end
      end
  end.

Definition events (o : outcome) : list event :=
  omap (fun a => match a with Emit e => Some e | _ => None end) (trace o).

Definition forwarded (o : outcome) : list string :=
  omap (fun e => match e with EContent c => Some c | _ => None end) (events o).

End Chat.

(** ** Maintenance functions of the datastore (database/functions.sql) *)

Module Admin.

Import Db.

(** A row of [users], stored under its [id]. *)
Record account : Type := { email : string; password_hash : string }.

(** The three tables.  [conversations] and [messages] are the tables of
    [Db.db]; the [created_at] column of [conversations] is kept beside them,
    by conversation identifier, as a time in microseconds; it is nullable,
    and a conversation without an entry has a null [created_at]. *)
Record database : Type := {
  users : gmap N account;
  tables : db;
  created_at : gmap N Z
}.

(** [DELETE FROM conversations WHERE doomed RETURNING id], with [ON DELETE
    CASCADE] of [messages.conversation_id]: the rows deleted, and the
    database without them and without the messages that reference them. *)
Definition deleted_conversations (doomed : N -> conversation -> Prop)
    `{!forall c row, Decision (doomed c row)} (D : database) : gmap N conversation :=
  filter (fun kv => doomed kv.1 kv.2) (conversations (tables D)).

Definition delete_conversations (doomed : N -> conversation -> Prop)
    `{!forall c row, Decision (doomed c row)} (D : database) : database :=
  let gone := deleted_conversations doomed D in
  {| users := users D;
     tables :=
       {| conversations := filter (fun kv => ~ doomed kv.1 kv.2) (conversations (tables D));
          messages := filter (fun m => gone !! conversation_id m = None)
                        (messages (tables D)) |};
     created_at := filter (fun kt => gone !! kt.1 = None) (created_at D) |}.

(** [created_at < cutoff_date]; a comparison with a null is not true. *)
Definition older_than (D : database) (cutoff_date : Z) (c : N) (row : conversation) : Prop :=
  match created_at D !! c with
  | Some t => t < cutoff_date
  | None => False
  end.

#[global] Instance older_than_dec D cutoff_date c row : Decision (older_than D cutoff_date c row).
Proof. unfold older_than. destruct (created_at D !! c); apply _. Defined.

(** [delete_old_conversations], from the [DELETE] on: [cutoff_date] is the
    time the function has computed from the clock and the retention period.
    The result is the database and [deleted_count]. *)
Definition delete_old_conversations (cutoff_date : Z) (D : database) : database * nat :=
  (delete_conversations (older_than D cutoff_date) D,
   size (deleted_conversations (older_than D cutoff_date) D)).

(** [conversation_id NOT IN (SELECT id FROM conversations)] *)
Definition orphaned (d : db) (m : message) : Prop :=
  conversations d !! conversation_id m = None.

(** [delete_orphaned_messages]: the database and [deleted_count]. *)
Definition delete_orphaned_messages (D : database) : database * nat :=
  let kept := filter (fun m => ~ orphaned (tables D) m) (messages (tables D)) in
  ({| users := users D;
      tables := {| conversations := conversations (tables D); messages := kept |};
      created_at := created_at D |},
   length (filter (orphaned (tables D)) (messages (tables D)))).

(** The rows of [conversations c LEFT JOIN messages m ON m.conversation_id =
    c.id WHERE c.user_id = user_uuid]: the conversation's identifier and
    [created_at], and the message's identifier, null for a conversation
    without messages. *)
Definition joined_rows (D : database) (user_uuid : N) : list (N * option Z * option N) :=
  flat_map
    (fun kv : N * conversation =>
       let '(c, row) := kv in
       if decide (user_id row = user_uuid) then
         match filter (fun m => conversation_id m = c) (messages (tables D)) with
         | [] => [(c, created_at D !! c, None)]
         | ms => map (fun m => (c, created_at D !! c, Some (id m))) ms
         end
       else [])
    (map_to_list (conversations (tables D))).

(** [MIN] and [MAX] over a column: nulls are skipped, and the result is null
    when nothing is left. *)
Definition agg (f : Z -> Z -> Z) (column : list (option Z)) : option Z :=
  foldr (fun v acc =>
           match v, acc with
           | Some x, Some y => Some (f x y)
           | Some x, None => Some x
           | None, _ => acc
           end) None column.

Record stats : Type := {
  total_conversations : nat;
  total_messages : nat;
  oldest_conversation_date : option Z;
  newest_conversation_date : option Z
}.

(** [get_user_stats]: the rows of the query.  With [GROUP BY c.user_id] there
    is one row for the one group of the joined rows, and none when there are
    no joined rows. *)
Definition get_user_stats (D : database) (user_uuid : N) : list stats :=
  match joined_rows D user_uuid with
  | [] => []
  | rows =>
      [{| total_conversations := length (remove_dups (map (fun r => r.1.1) rows));
          total_messages := length (omap (fun r => r.2) rows);
          oldest_conversation_date := agg Z.min (map (fun r => r.1.2) rows);
          newest_conversation_date := agg Z.max (map (fun r => r.1.2) rows) |}]
  end.

(** [user_id = user_uuid] *)
Definition owned_by (user_uuid : N) (c : N) (row : conversation) : Prop :=
  user_id row = user_uuid.

#[global] Instance owned_by_dec u c row : Decision (owned_by u c row).
Proof. unfold owned_by. apply _. Defined.

(** [DELETE FROM users WHERE id = user_uuid], with [ON DELETE CASCADE] of
    [conversations.user_id]. *)
Definition delete_user (user_uuid : N) (D : database) : database :=
  let D' := delete_conversations (owned_by user_uuid) D in
  {| users := delete user_uuid (users D'); tables := tables D'; created_at := created_at D' |}.

(** [delete_user_data]: the database and the returned boolean.  Neither
    statement can fail on these tables, so the exception handler is not
    entered. *)
Definition delete_user_data (user_uuid : N) (D : database) : database * bool :=
  (delete_user user_uuid (delete_conversations (owned_by user_uuid) D), true).

(** Every message references an existing conversation, and no two messages
    share an identifier: the foreign key and the primary key of
    [messages]. *)
Definition consistent (d : db) : Prop :=
  Forall (fun m => is_Some (conversations d !! conversation_id m)) (messages d)
  /\ NoDup (map id (messages d)).

(** A sequence of [INSERT INTO messages] statements, stopped by the first one
    that fails. *)
Fixpoint insert_messages (d : db) (rows : list message) : option db :=
  match rows with
  | [] => Some d
  | NEW :: rows' =>
      match insert_message d NEW with
      | Some d' => insert_messages d' rows'
      | None => None
      end
  end.

End Admin.

(** ** A sample database *)

Module AdminSamples.

Import Db Admin.

Definition msg (i c : N) (r : role) (text : string) : message :=
  {| id := i; conversation_id := c; msg_role := r; content := text; model := None |}.

(** Two accounts; the first owns conversations 7 and 8, the second
    conversation 9; message 5 references a conversation that does not
    exist. *)
Definition sample_database : database :=
  {| users := {[ 1%N := {| email := "ada@example.com"; password_hash := "x" |};
                2%N := {| email := "bob@example.com"; password_hash := "y" |} ]};
     tables :=
       {| conversations :=
            {[ 7%N := {| user_id := 1%N; title := Some default_title |};
               8%N := {| user_id := 1%N; title := Some "Old chat" |};
               9%N := {| user_id := 2%N; title := None |} ]};
          messages := [msg 1 8 user "Hi"; msg 2 8 assistant "Hello"; msg 3 9 user "Hey";
                       msg 4 7 user "New"; msg 5 6 user "Lost"] |};
     created_at := {[ 7%N := 100; 8%N := 3; 9%N := 50 ]} |}.

End AdminSamples.

(** ** Text extraction from a DOCX document: [extract_text_from_docx] *)

Module Docx.
Import Py Files.

(** The loop over [doc.paragraphs]; [paragraphs] holds [para.text] of each
    remaining paragraph.  [if para.text.strip():] is the truth value of a
    string: it is not empty. *)
Fixpoint paragraphs_loop (paragraphs : list string) (text : string) : string :=
  match paragraphs with
  | [] => text
  | para :: paragraphs' =>
      match strip para with
      | EmptyString => paragraphs_loop paragraphs' text
      | String _ _ => paragraphs_loop paragraphs' (text ++ (para ++ newline))
      end
  end.

Definition extract_text_from_docx (paragraphs : list string) : string :=
  strip (paragraphs_loop paragraphs "").

End Docx.

(** ** The request to the model server: the payload of
    [generate_response_stream] (ollama_service.py) *)

Module Request.
Import Py.

(** [l[i]] for a list: the position of the item, a negative index counting
    from the end; [None] is the [IndexError]. *)
Definition list_index (l : list pyval) (i : Z) : option nat :=
  let j := if i <? 0 then i + Z.of_nat (length l) else i in
  if (0 <=? j) && (j <? Z.of_nat (length l)) then Some (Z.to_nat j) else None.

(** [[img["data"] for img in images]]; [None] is the [KeyError] (or
    [TypeError]) of the first image without that key. *)
Fixpoint image_data (images : list pyval) : option (list pyval) :=
  match images with
  | [] => Some []
  | img :: images' =>
      match getitem img "data" with
      | None => None
      | Some data =>
          match image_data images' with
          | None => None
          | Some rest => Some (data :: rest)
          end
      end
  end.

(** [message["images"] = data]; [None] is the [TypeError] of a message that
    is no dictionary. *)
Definition set_images (message : pyval) (data : list pyval) : option pyval :=
  match message with
  | PDict d => Some (PDict (dict_set "images" (PList data) d))
  | _ => None
  end.

Definition payload_of (model_name : string) (messages : list pyval) : pyval :=
  PDict [("model", PStr model_name); ("messages", PList messages); ("stream", PBool true)].

(** The payload sent to the server, from the formatted messages and the
    images found in them, keyed by the index of their message.
    [payload["messages"]] is the list [formatted_messages] itself, so the
    assignment changes the one list; the right-hand side of the assignment
    is evaluated before its target.  [None] is an exception raised. *)
Definition payload (formatted_messages : list pyval)
    (images_by_message : gmap Z (list pyval)) (model_name : string) : option pyval :=
  if decide (images_by_message = ∅) then Some (payload_of model_name formatted_messages)
  else
    let last_idx := Z.of_nat (length formatted_messages) - 1 in
    match images_by_message !! last_idx with
    | None => Some (payload_of model_name formatted_messages)
    | Some images =>
        match image_data images with
        | None => None
        | Some data =>
            match list_index formatted_messages last_idx with
            | None => None
            | Some i =>
                match formatted_messages !! i with
                | None => None
                | Some message =>
                    match set_images message data with
                    | None => None
                    | Some message' =>
                        Some (payload_of model_name (<[i := message']> formatted_messages))
                    end
                end
            end
        end
    end.

End Request.

(** ** The browser client of the chat stream: [sendMessageStream]
    (frontend/lib/api.js) *)

Module Client.
Import Py.

(** The calls of the three callbacks, as the caller sees them.  The
    callbacks are taken to return normally. *)
Inductive call : Type :=
| onChunk (content : string)
| onError (error : pyval)
| onComplete.

(** How the response body ends: the reader reports [done], or a read is
    rejected with an error of the given message. *)
Inductive body_end : Type :=
| Closed
| Failed (message : string).

(** What [await fetch(...)] gives: a rejection, or a response with its
    status and, read as needed, its text or its decoded chunks. *)
Record response : Type := {
  ok : bool;
  status : nat;
  text : string;
  chunks : list string;
  ending : body_end
}.

Inductive fetched : Type :=
| Rejected (message : string)
| Resolved (r : response).

(** Truth value of a JavaScript value; [None] is [undefined]. *)
Definition js_truthy (v : option pyval) : bool :=
  match v with
  | None => false
  | Some PNone => false
  | Some (PBool b) => b
  | Some (PInt z) => negb (z =? 0)
  | Some (PFloat m e) => float_nonzero m e
  | Some PNaN => false
  | Some (PInf _) => true
  | Some (PStr s) => negb (String.eqb s "")
  | Some (PList _) => true
  | Some (PDict _) => true
  end.

(** [data.k] for a parsed document other than [null]: the property of an
    object, [undefined] for a missing property and on any other value. *)
Definition field (data : pyval) (k : string) : option pyval :=
  match data with
  | PDict d => dict_lookup k d
  | _ => None
  end.

(** [chunk.split('\n')], the piece under way first. *)
Fixpoint split_from (piece chunk : string) : list string :=
  match chunk with
  | EmptyString => [piece]
  | String c r =>
      if (c =? "010")%char then piece :: split_from "" r
      else split_from (piece ++ String c "") r
  end.

Definition split_newline (chunk : string) : list string := split_from "" chunk.

(** [line.slice(n)] *)
Fixpoint slice (n : nat) (line : string) : string :=
  match n, line with
  | S n', String _ r => slice n' r
  | _, _ => line
  end.

Section WithParser.

(** [JSON.parse] is the engine's; [None] is the [SyntaxError] it throws.  A
    parsed document is kept in the representation of module [Py], [PNone]
    for [null]. *)
Variable JSON_parse : string -> option pyval.

(** The body of [for (const line of lines)]: the calls made and whether the
    function has returned.  Inside the [try], reading a property of [null]
    and calling [substring] on a content that is no string throw a
    [TypeError]; the [catch] logs it and the loop goes on. *)
Definition handle_line (line : string) : list call * bool :=
  if startswith "data: " line then
    match JSON_parse (slice 6 line) with
    | None => ([], false)
    | Some PNone => ([], false)
    | Some data =>
        let finish (calls : list call) : list call * bool :=
          if js_truthy (field data "done") then (calls ++ [onComplete], true)%list
          else (calls, false) in
        match field data "error", js_truthy (field data "error") with
        | Some error, true => finish [onError error]
        | _, _ =>
            match field data "content", js_truthy (field data "content") with
            | _, false => finish []
            | Some (PStr content), true => finish [onChunk content]
            | _, true => ([], false)
            end
        end
    end
  else ([], false).

Fixpoint handle_lines (lines : list string) : list call * bool :=
  match lines with
  | [] => ([], false)
  | line :: lines' =>
      let '(calls, returned) := handle_line line in
      if returned then (calls, true)
      else let '(calls', returned') := handle_lines lines' in
           ((calls ++ calls')%list, returned')
  end.

(** The [while (true)] loop over the reads, and the outer [catch] for a
    rejected read. *)
Fixpoint read_loop (chunks : list string) (ending : body_end) : list call :=
  match chunks with
  | [] =>
      match ending with
      | Closed => []
      | Failed message => [onError (PStr message)]
      end
  | chunk :: chunks' =>
      let '(calls, returned) := handle_lines (split_newline chunk) in
      if returned then calls else (calls ++ read_loop chunks' ending)%list
  end.

(** [sendMessageStream], from the result of [fetch] on. *)
Definition sendMessageStream (f : fetched) : list call :=
  match f with
  | Rejected message => [onError (PStr message)]
  | Resolved r =>
      if ok r then read_loop (chunks r) (ending r)
      else [onError (PStr ("API error: " ++ Files.str_of_nat (status r) ++ " - " ++ text r))]
  end.

End WithParser.

End Client.

(** ** Vocabulary of the client properties *)

Module ClientSpec.
Import Client.

(** The call hands data to the caller: a chunk or an error. *)
Definition delivers (c : call) : bool :=
  match c with
  | onComplete => false
  | _ => true
  end.

(** What a call may carry: a chunk is not empty, an error is a value with
    truth value true. *)
Definition well_formed (c : call) : Prop :=
  match c with
  | onChunk content => content <> ""
  | onError error => js_truthy (Some error) = true
  | onComplete => True
  end.

(** The call made when the body ends before a completion event. *)
Definition at_end (e : body_end) : list call :=
  match e with
  | Closed => []
  | Failed message => [onError (PStr message)]
  end.

(** The lines of all chunks, each chunk split on its own. *)
Definition lines_of (chunks : list string) : list string :=
  flat_map split_newline chunks.

End ClientSpec.

(** ** Vocabulary of the statistics properties *)

Module AdminSpec.
Import Db Admin.

(** The conversations a user owns. *)
Definition conversations_of (D : database) (user_uuid : N) : gmap N conversation :=
  filter (fun kv => user_id kv.2 = user_uuid) (conversations (tables D)).

(** The message belongs to a conversation the user owns. *)
Definition in_conversation_of (D : database) (user_uuid : N) (m : message) : Prop :=
  match conversations (tables D) !! conversation_id m with
  | Some row => user_id row = user_uuid
  | None => False
  end.

#[global] Instance in_conversation_of_dec D user_uuid m :
  Decision (in_conversation_of D user_uuid m).
Proof.
  unfold in_conversation_of.
  destruct (conversations (tables D) !! conversation_id m); apply _.
Defined.

Definition messages_of (D : database) (user_uuid : N) : list message :=
  filter (in_conversation_of D user_uuid) (messages (tables D)).

End AdminSpec.

(** ** Vocabulary of the relay properties *)

Module RelaySpec.

Import Relay.

(** The completion flag of a line: [None] when the line is not a JSON
    object. *)
Definition done_flag (line : string) : option bool :=
  match Json.loads line with
  | Some chunk => truthy <$> get chunk "done" PNone
  | None => None
  end.

(** The content field of a line's message ([""] when the object has no
    message or the message no content); [None] when the line is not a JSON
    object or its message is not one. *)
Definition content_field (line : string) : option pyval :=
  match Json.loads line with
  | Some chunk =>
      match get chunk "message" (PDict []) with
      | Some message => get message "content" (PStr "")
      | None => None
      end
  | None => None
  end.

(** A line the relay reads past: an object whose completion flag is not set
    and whose content field can be read. *)
Definition live (line : string) : bool :=
  match done_flag line, content_field line with
  | Some false, Some _ => true
  | _, _ => false
  end.

(** The lines before the first one that is not live. *)
Fixpoint streamed (lines : list string) : list string :=
  match lines with
  | [] => []
  | line :: lines' => if live line then line :: streamed lines' else []
  end.

(** The lines the relay parses successfully: the streamed ones and, when the
    next line carries a set completion flag, that line. *)
Fixpoint parsed_lines (lines : list string) : list string :=
  match lines with
  | [] => []
  | line :: lines' =>
      if live line then line :: parsed_lines lines'
      else match done_flag line with
           | Some true => [line]
           | _ => []
           end
  end.

Definition nonempty_contents (lines : list string) : list pyval :=
  filter (fun c => truthy c = true) (omap content_field lines).

(** The ending the first line that is not live causes. *)
Definition ending_at (rest : list string) : ending :=
  match rest with
  | [] => Exhausted
  | line :: _ =>
      match Json.loads line with
      | None => Raised JSONDecodeError
      | Some _ =>
          match done_flag line with
          | Some true => Done
          | _ => Raised AttributeError
          end
      end
  end.

(** The text received over a sequence of network reads. *)
Definition received (reads : list string) : string := foldr String.append "" reads.

(** The claim C1 as it is worded: the relay forwards the non-empty content
    field of every line it parsed successfully. *)
Definition forwards_all_parsed_contents (lines : list string) : Prop :=
  fst (generate_response_stream lines) = nonempty_contents (parsed_lines lines).

End RelaySpec.

(** ** Vocabulary of the file, datastore and chat properties *)

Module FilesSpec.

Import Files.

(** The claim C8 as it is worded: exactly one marker for every page. *)
Definition exactly_one_marker_per_page (pages : list string) : Prop :=
  forall k, (1 <= k <= length pages)%nat ->
    occurrences (page_marker k) (extract_text_from_pdf pages) = 1%nat.

(** The page markers of an [n]-page document, joined by blank lines. *)
Definition markers_only (first n : nat) : string :=
  String.concat (newline ++ newline) (map page_marker (seq first n)).

End FilesSpec.

Module DbSpec.

Import Db.

(** The text goes on in the middle of a character: it begins with a
    continuation byte. *)
Definition continues (s : string) : bool :=
  match s with
  | EmptyString => false
  | String c _ => continuation c
  end.

(** The characters of a text, each as the bytes of its encoding: a byte
    forms one character with the continuation bytes that follow it. *)
Fixpoint characters (s : string) : list string :=
  match s with
  | EmptyString => []
  | String c r =>
      match characters r with
      | x :: xs => if continues r then String c x :: xs else String c "" :: x :: xs
      | [] => [String c ""]
      end
  end.

(** The text is cut at a character: it does not begin with a continuation
    byte, as no valid text does. *)
Definition begins_with_character (s : string) : bool := negb (continues s).

(** The first [n] characters of a text. *)
Definition first_chars (n : nat) (s : string) : string :=
  foldr String.append "" (take n (characters s)).

(** The title the specification derives from a message content. *)
Definition derived_title (text : string) : string :=
  first_chars 50 text ++ (if (50 <? length (characters text))%nat then "..." else "").

(** No message of the conversation of [NEW] is stored yet. *)
Definition is_first_message (d : db) (NEW : message) : bool :=
  forallb (fun m => negb (conversation_id m =? conversation_id NEW)%N) (messages d).

End DbSpec.

Module ChatSpec.

Import Db Chat.

(** The row the handler stores for the user's message of a request. *)
Definition user_row (d : db) (req : request) : message :=
  {| id := next_id d; conversation_id := req_conversation req; msg_role := user;
     content := req_message req; model := None |}.

End ChatSpec.

(** ** Sample inputs *)

Module Samples.

Import Files Db Chat.

(** Server lines are written with ['] in the place of the double quote. *)
Fixpoint quoted (s : string) : string :=
  match s with
  | EmptyString => EmptyString
  | String c r => String (if (c =? "'")%char then Json.dquote else c) (quoted r)
  end.

Definition the_line : string := quoted "{'message':{'content':'The'},'done':false}".

Definition end_line : string := quoted "{'message':{'content':' end.'},'done':false}".

Definition done_line : string := quoted "{'done':true}".

Definition done_line_with_content : string :=
  quoted "{'message':{'content':'x'},'done':true}".

Definition newline_char : string := String "010"%char "".

(** A response with a blank line between its two objects. *)
Definition server_text_with_blank_line : string :=
  the_line ++ newline_char ++ newline_char ++ done_line ++ newline_char.

Definition stored_user_message : pyval :=
  PDict [("id", PInt 1); ("role", PStr "user"); ("content", PStr "Hi");
         ("model", PNone)].

Definition stored_assistant_message : pyval :=
  PDict [("id", PInt 2); ("role", PStr "assistant"); ("content", PStr "Hello!");
         ("model", PStr "qwen3-vl:8b")].

Definition large_photo : image := {| width := 8000; height := 6000; img_mode := RGB |}.

Definition long_question : string :=
  "Please summarise the attached quarterly report in three bullet points".

Definition one_new_conversation : db :=
  {| conversations := {[ 7%N := {| user_id := 1%N; title := Some default_title |} ]};
     messages := [] |}.

Definition first_question : message :=
  {| id := 1%N; conversation_id := 7%N; msg_role := user;
     content := long_question; model := None |}.

Definition empty_store : db := {| conversations := ∅; messages := [] |}.

Definition hello_request : request :=
  {| req_conversation := 7%N; req_message := "Hello"; req_model := "qwen3-vl:8b" |}.

End Samples.

(** ** Further sample inputs *)

Module MoreSamples.

Import Samples.

(** What the model server sends instead of a reply when it cannot serve the
    request. *)
Definition error_line : string := quoted "{'error':'model not found'}".

(** Events of the chat stream as the browser receives them; on these lines
    the JSON parsers of the two languages agree. *)
Definition hi_event : string := quoted "data: {'content':'Hi'}".

Definition done_event : string := quoted "data: {'done':true}".

Definition hi_event_head : string := quoted "data: {'cont".

Definition hi_event_tail : string := quoted "ent':'Hi'}".

(** The no-break space U+00A0, as Word documents and PDF text hold it. *)
Definition nbsp : string := String "194"%char (String "160"%char "").

(** A question of sixty accented letters, each of two bytes. *)
Definition e_acute : string := String "195"%char (String "169"%char "").

Fixpoint copies (n : nat) (s : string) : string :=
  match n with
  | O => ""
  | S n' => s ++ copies n' s
  end.

Definition accented_question : Db.message :=
  {| Db.id := 1%N; Db.conversation_id := 7%N; Db.msg_role := Db.user;
     Db.content := copies 60 e_acute; Db.model := None |}.

End MoreSamples.

(** * Properties *)

Import Relay RelaySpec FilesSpec DbSpec ChatSpec Samples.

(** ** The relay *)

Lemma loop_body_live line :
  live line = true ->
  exists c, content_field line = Some c /\
    loop_body line = if truthy c then Yield c else Continue.
Proof.
  unfold live, done_flag, content_field, loop_body.
  destruct (Json.loads line) as [chunk|]; [|discriminate].
  destruct (get chunk "done" PNone) as [d|]; simpl; [|discriminate].
  destruct (truthy d); [discriminate|].
  destruct (get chunk "message" (PDict [])) as [m|]; [|discriminate].
  destruct (get m "content" (PStr "")) as [c|]; [|discriminate].
  intros _. exists c. split; [reflexivity|]. reflexivity.
Qed.

Lemma loop_body_not_live line :
  live line = false ->
  loop_body line =
    match ending_at [line] with
    | Done => Break
    | Raised e => Raise e
    | Exhausted => Continue
    end.
Proof.
  unfold live, ending_at, done_flag, content_field, loop_body.
  destruct (Json.loads line) as [chunk|]; [|reflexivity].
  destruct (get chunk "done" PNone) as [d|] eqn:Hd; simpl; [|reflexivity].
  destruct (truthy d); [reflexivity|].
  destruct (get chunk "message" (PDict [])) as [m|]; [|reflexivity].
  destruct (get m "content" (PStr "")) as [c|]; [discriminate|reflexivity].
Qed.

Lemma ending_at_not_live line rest :
  live line = false -> ending_at (line :: rest) <> Exhausted.
Proof.
  unfold ending_at. destruct (Json.loads line); [|discriminate].
  destruct (done_flag line) as [[]|]; discriminate.
Qed.

Lemma generate_response_stream_streamed lines :
  generate_response_stream lines =
    (nonempty_contents (streamed lines),
     ending_at (drop (length (streamed lines)) lines)).
Proof.
  induction lines as [|line lines IH]; [reflexivity|].
  cbn [generate_response_stream streamed].
  destruct (live line) eqn:Hl.
  - destruct (loop_body_live line Hl) as (c & Hc & Hb).
    rewrite Hb, IH. unfold nonempty_contents. cbn [omap list_omap length drop].
    rewrite Hc. cbn [filter list_filter].
    destruct (truthy c) eqn:Ht.
    + rewrite decide_True by reflexivity. reflexivity.
    + rewrite decide_False by discriminate. reflexivity.
  - rewrite (loop_body_not_live line Hl).
    pose proof (ending_at_not_live line [] Hl) as Hne.
    pose proof (ending_at_not_live line lines Hl) as Hne'.
    cbn [length drop].
    assert (ending_at [line] = ending_at (line :: lines)) as Heq by reflexivity.
    rewrite <- Heq.
    destruct (ending_at [line]); [congruence|reflexivity|reflexivity].
Qed.


(** Whatever follows a line with a set completion flag is never read. *)
Lemma generate_response_stream_done pre line post :
  done_flag line = Some true ->
  generate_response_stream (pre ++ line :: post)%list =
  generate_response_stream (pre ++ [line])%list.
Proof.
  intros Hd. induction pre as [|l pre IH]; cbn [app generate_response_stream].
  - assert (live line = false) as Hl by (unfold live; rewrite Hd; reflexivity).
    rewrite (loop_body_not_live line Hl).
    destruct (ending_at [line]) eqn:He; try reflexivity.
    exfalso. exact (ending_at_not_live line [] Hl He).
  - rewrite IH. reflexivity.
Qed.

Lemma parsed_lines_streamed lines :
  parsed_lines lines = streamed lines \/
  exists line, done_flag line = Some true /\
    parsed_lines lines = (streamed lines ++ [line])%list.
Proof.
  induction lines as [|l lines IH]; cbn [parsed_lines streamed]; [left; reflexivity|].
  destruct (live l).
  - destruct IH as [->|(x & Hx & ->)]; [left; reflexivity|].
    right. exists x. split; [exact Hx|reflexivity].
  - destruct (done_flag l) as [[]|] eqn:Hd; [|left; reflexivity..].
    right. exists l. split; [exact Hd|reflexivity].
Qed.

(** C1 (as amended).  For every sequence of lines received from the model
    server, the values the relay yields are exactly the non-empty content
    fields of the lines that precede the first line that is not an object
    with an unset completion flag and a readable content, one value per such
    line and in arrival order; the way the generator ends is decided by that
    first line alone (end of input, completion flag, or malformed line); and
    nothing that follows a line whose completion flag is set has any
    influence on the result: the relay stops reading there.  The content
    carried by the completion line itself is not forwarded. *)
Theorem relay_forwards_contents_before_done :
  (forall lines,
     generate_response_stream lines =
       (nonempty_contents (streamed lines),
        ending_at (drop (length (streamed lines)) lines))) /\
  (forall pre line post,
     done_flag line = Some true ->
     generate_response_stream (pre ++ line :: post)%list =
     generate_response_stream (pre ++ [line])%list) /\
  (forall lines line,
     parsed_lines lines = (streamed lines ++ [line])%list ->
     done_flag line = Some true /\
     snd (generate_response_stream lines) = Done).
Proof.
  split; [exact generate_response_stream_streamed|].
  split; [exact generate_response_stream_done|].
  intros lines line. rewrite generate_response_stream_streamed. cbn [snd].
  induction lines as [|l lines IH]; cbn [parsed_lines streamed length drop].
  - intros H. destruct (app_cons_not_nil _ _ _ H).
  - destruct (live l) eqn:Hl.
    + intros H. injection H as H. exact (IH H).
    + destruct (done_flag l) as [[]|] eqn:Hd.
      * intros H. simpl in H. injection H as Hll. subst line.
        split; [exact Hd|].
        simpl. rewrite Hd.
        destruct (Json.loads l) eqn:E; [reflexivity|].
        unfold done_flag in Hd. rewrite E in Hd. discriminate.
      * intros H. discriminate.
      * intros H. discriminate.
Qed.

Lemma relay_forwards_contents_before_done_witness :
  generate_response_stream [the_line; end_line; done_line; the_line] =
  generate_response_stream [the_line; end_line; done_line]
  /\ generate_response_stream [the_line; end_line; done_line] =
     ([PStr "The"; PStr " end."], Done).
Proof.
  split.
  - apply (proj1 (proj2 relay_forwards_contents_before_done)
             [the_line; end_line] done_line [the_line]).
    vm_compute. reflexivity.
  - vm_compute. reflexivity.
Defined.

(** A completion line that itself carries content: the line is parsed, its
    content is not forwarded. *)
Lemma done_line_content_is_dropped :
  ~ forwards_all_parsed_contents [done_line_with_content].
Proof. vm_compute. discriminate. Qed.

(** ** Strings *)

Lemma str_app_nil_l (s : string) : "" ++ s = s.
Proof. reflexivity. Qed.

Lemma str_app_cons (c : ascii) (s t : string) : String c s ++ t = String c (s ++ t).
Proof. reflexivity. Qed.

Lemma str_app_nil_r (s : string) : s ++ "" = s.
Proof.
  induction s as [|c s IH]; [reflexivity|]. rewrite str_app_cons, IH. reflexivity.
Qed.

Lemma str_app_assoc (s t u : string) : (s ++ t) ++ u = s ++ (t ++ u).
Proof.
  induction s as [|c s IH]; [reflexivity|]. rewrite !str_app_cons, IH. reflexivity.
Qed.

(** ** The decoder's recursion budget *)

Section JsonBudget.

Import Json.

Local Abbreviation len := String.length.

Lemma skip_ws_length s : (len (skip_ws s) <= len s)%nat.
Proof.
  induction s as [|c s IH]; [reflexivity|].
  cbn [skip_ws]. destruct (is_ws c); cbn [String.length]; lia.
Qed.

Lemma push_some p x t rest :
  push p x = Some (t, rest) -> exists t', x = Some (t', rest).
Proof.
  destruct x as [[t' r']|]; [|discriminate]. cbn. intros [= _ <-]. eexists; reflexivity.
Qed.

Lemma scanstring_length s t rest :
  scanstring s = Some (t, rest) -> (len rest < len s)%nat.
Proof.
  remember (len s) as n eqn:Hn. revert s t rest Hn.
  induction n as [n IH] using lt_wf_ind. intros s t rest Hn.
  assert (forall s' p t' rest', (len s' < n)%nat ->
            push p (scanstring s') = Some (t', rest') -> (len rest' < len s')%nat) as Hpush.
  { intros s' p t' rest' Hlt H. apply push_some in H as [t'' H].
    exact (IH (len s') Hlt s' t'' rest' eq_refl H). }
  destruct s as [|c r]; [discriminate|]. cbn [scanstring String.length] in *.
  destruct (c =? dquote)%char; [intros [= _ <-]; lia|].
  destruct (N_of_ascii c <? 32)%N; [discriminate|].
  destruct (c =? "\")%char.
  2:{ intros H. apply Hpush in H; lia. }
  destruct r as [|esc r1]; [discriminate|]. cbn [String.length] in *.
  destruct (simple_escape esc).
  { intros H. apply Hpush in H; lia. }
  destruct (esc =? "u")%char; [|discriminate].
  destruct r1 as [|h1 [|h2 [|h3 [|h4 r2]]]]; try discriminate.
  cbn [String.length] in *.
  destruct (hex4 h1 h2 h3 h4) as [uni|]; [|discriminate].
  destruct r2 as [|b [|u r3]]; cbn [String.length] in *.
  - intros H. apply Hpush in H; cbn [String.length] in *; lia.
  - intros H. apply Hpush in H; cbn [String.length] in *; lia.
  - destruct (is_high_surrogate uni && (b =? "\")%char && (u =? "u")%char).
    2:{ intros H. apply Hpush in H; cbn [String.length] in *; lia. }
    destruct r3 as [|l1 [|l2 [|l3 [|l4 r4]]]]; try discriminate.
    cbn [String.length] in *.
    destruct (hex4 l1 l2 l3 l4) as [uni2|]; [|discriminate].
    destruct (is_low_surrogate uni2); intros H; apply Hpush in H;
      cbn [String.length] in *; lia.
Qed.

Lemma span_digits_length s :
  len s = (len (fst (span_digits s)) + len (snd (span_digits s)))%nat.
Proof.
  induction s as [|c s IH]; [reflexivity|].
  cbn [span_digits]. destruct (is_digit c); [|reflexivity].
  destruct (span_digits s) as [ds rest]. cbn [fst snd String.length] in *. lia.
Qed.

Lemma strip_prefix_length p s r :
  strip_prefix p s = Some r -> len s = (len p + len r)%nat.
Proof.
  revert s. induction p as [|c p IH]; intros s; cbn [strip_prefix].
  - intros [= <-]. reflexivity.
  - destruct s as [|d s]; [discriminate|].
    destruct (c =? d)%char; [|discriminate].
    intros H. cbn [String.length]. rewrite (IH s H). reflexivity.
Qed.

Lemma match_integer_length s ip r :
  match_integer s = Some (ip, r) -> (len r < len s)%nat.
Proof.
  unfold match_integer. destruct s as [|c s]; [discriminate|].
  destruct (c =? "0")%char; [intros [= _ <-]; cbn; lia|].
  destruct (is_digit c) eqn:Hd; [|discriminate].
  pose proof (span_digits_length (String c s)) as Hl.
  cbn [span_digits] in *. rewrite Hd in *.
  destruct (span_digits s) as [ds rest]. intros [= _ <-].
  cbn [fst snd String.length] in *. lia.
Qed.

Lemma match_frac_length s : (len (snd (match_frac s)) <= len s)%nat.
Proof.
  unfold match_frac. destruct s as [|c s]; [reflexivity|].
  destruct (c =? ".")%char; [|reflexivity].
  pose proof (span_digits_length s) as Hl.
  destruct (span_digits s) as [[|d ds] rest]; cbn [fst snd String.length] in *; lia.
Qed.

Lemma match_exp_length s : (len (snd (match_exp s)) <= len s)%nat.
Proof.
  unfold match_exp. destruct s as [|c s]; [reflexivity|].
  destruct ((c =? "e")%char || (c =? "E")%char); [|reflexivity].
  assert (forall neg r1, (len r1 <= len s)%nat ->
            (len (snd (let '(neg0, r2) := (neg, r1) in
                       match span_digits r2 with
                       | (EmptyString, _) => (@None Z, String c s)
                       | (String _ _ as ds, rest) =>
                           (Some (if (neg0 : bool) then - digits_val 0 ds
                                  else digits_val 0 ds), rest)
                       end)) <= len (String c s))%nat) as Hk.
  { intros neg r1 Hr. pose proof (span_digits_length r1) as Hl.
    destruct (span_digits r1) as [[|d ds] rest]; cbn [fst snd String.length] in *; lia. }
  destruct s as [|sign r']; [exact (Hk false "" ltac:(reflexivity))|].
  destruct (sign =? "-")%char; [exact (Hk true r' ltac:(cbn; lia))|].
  destruct (sign =? "+")%char;
    [exact (Hk false r' ltac:(cbn; lia))|exact (Hk false (String sign r') ltac:(cbn; lia))].
Qed.

Lemma match_number_length s v r :
  match_number s = Some (v, r) -> (len r < len s)%nat.
Proof.
  unfold match_number.
  assert (forall neg s1, (len s1 <= len s)%nat ->
            (let '(neg0, s2) := (neg : bool, s1) in
             match match_integer s2 with
             | None => None
             | Some (ip, s3) =>
                 let '(frac, s4) := match_frac s3 in
                 let '(ex, s5) := match_exp s4 in
                 let sign (z : Z) := if neg0 then - z else z in
                 match frac, ex with
                 | None, None => Some (PInt (sign (digits_val 0 ip)), s5)
                 | _, _ =>
                     let fd := match frac with Some ds => ds | None => "" end in
                     let e := match ex with Some e => e | None => 0 end in
                     Some (PFloat (sign (digits_val 0 (ip ++ fd)))
                             (e - Z.of_nat (len fd)), s5)
                 end
             end) = Some (v, r) -> (len r < len s)%nat) as Hk.
  { intros neg s1 Hs1. cbv beta iota.
    destruct (match_integer s1) as [[ip s3]|] eqn:Hi; [|discriminate].
    apply match_integer_length in Hi.
    pose proof (match_frac_length s3) as Hf.
    destruct (match_frac s3) as [frac s4].
    pose proof (match_exp_length s4) as He.
    destruct (match_exp s4) as [ex s5]. cbn [snd] in *.
    destruct frac, ex; intros [= _ <-]; lia. }
  destruct s as [|c s']; [exact (Hk false "" ltac:(reflexivity))|].
  destruct (c =? "-")%char;
    [exact (Hk true s' ltac:(cbn; lia))|exact (Hk false (String c s') ltac:(cbn; lia))].
Qed.

Lemma scan_atom_length s v r :
  scan_atom s = Some (v, r) -> (len r < len s)%nat.
Proof.
  unfold scan_atom.
  repeat match goal with
  | |- context [strip_prefix ?p s] =>
      let E := fresh "E" in
      destruct (strip_prefix p s) eqn:E;
      [apply strip_prefix_length in E; intros [= _ <-]; cbn in E; lia|clear E]
  | |- context [match_number s] =>
      let E := fresh "E" in
      destruct (match_number s) as [[v' r']|] eqn:E;
      [apply match_number_length in E; intros [= _ <-]; exact E|clear E]
  end.
  discriminate.
Qed.

(** With a budget above twice the length of the input, scanning never runs
    out of budget, and a scanned value consumes input. *)
Lemma scan_budget fuel :
  (forall s, (2 * len s < fuel)%nat ->
     scan_once fuel s <> OutOfFuel /\
     forall v r, scan_once fuel s = Ok v r -> (len r < len s)%nat) /\
  (forall s acc, (2 * len s + 1 < fuel)%nat ->
     JSONArray fuel s acc <> OutOfFuel /\
     forall v r, JSONArray fuel s acc = Ok v r -> (len r < len s)%nat) /\
  (forall s acc, (2 * len s + 1 < fuel)%nat ->
     JSONObject fuel s acc <> OutOfFuel /\
     forall v r, JSONObject fuel s acc = Ok v r -> (len r < len s)%nat).
Proof.
  induction fuel as [|fuel (IHs & IHa & IHo)].
  { repeat split; intros; lia. }
  split; [|split].
  - intros s Hs. cbn [scan_once]. destruct s as [|c r]; [split; discriminate|].
    cbn [String.length] in Hs.
    destruct (c =? dquote)%char.
    { destruct (scanstring r) as [[t rest]|] eqn:E; [|split; discriminate].
      apply scanstring_length in E. split; [discriminate|].
      intros v r' [= _ <-]. cbn [String.length]. lia. }
    destruct (c =? "{")%char.
    { pose proof (skip_ws_length r) as Hw.
      destruct (skip_ws r) as [|c1 rest]; [split; discriminate|].
      cbn [String.length] in Hw.
      destruct (c1 =? "}")%char.
      { split; [discriminate|]. intros v r' [= _ <-]. cbn [String.length]. lia. }
      destruct (c1 =? dquote)%char; [|split; discriminate].
      destruct (IHo rest [] ltac:(lia)) as [Hne Hlen]. split; [exact Hne|].
      intros v r' H. apply Hlen in H. cbn [String.length]. lia. }
    destruct (c =? "[")%char.
    { pose proof (skip_ws_length r) as Hw.
      destruct (skip_ws r) as [|c1 rest]; [split; discriminate|].
      destruct (c1 =? "]")%char.
      { split; [discriminate|]. intros v r' [= _ <-].
        cbn [String.length] in *. lia. }
      destruct (IHa (String c1 rest) [] ltac:(lia)) as [Hne Hlen]. split; [exact Hne|].
      intros v r' H. apply Hlen in H. cbn [String.length] in *. lia. }
    destruct (scan_atom (String c r)) as [[v rest]|] eqn:E; [|split; discriminate].
    apply scan_atom_length in E. split; [discriminate|].
    intros v' r' [= _ <-]. exact E.
  - intros s acc Hs. cbn [JSONArray].
    destruct (IHs s ltac:(lia)) as [Hne Hlen].
    destruct (scan_once fuel s) as [v r| |]; [|split; discriminate|congruence].
    specialize (Hlen v r eq_refl).
    pose proof (skip_ws_length r) as Hw.
    destruct (skip_ws r) as [|c1 rest]; [split; discriminate|].
    cbn [String.length] in Hw.
    destruct (c1 =? "]")%char.
    { split; [discriminate|]. intros v' r' [= _ <-]. lia. }
    destruct (c1 =? ",")%char; [|split; discriminate].
    pose proof (skip_ws_length rest) as Hw'.
    destruct (IHa (skip_ws rest) (acc ++ [v])%list ltac:(lia)) as [Hne' Hlen'].
    split; [exact Hne'|]. intros v' r' H. apply Hlen' in H. lia.
  - intros s acc Hs. cbn [JSONObject].
    destruct (scanstring s) as [[key r]|] eqn:Ekey; [|split; discriminate].
    apply scanstring_length in Ekey.
    pose proof (skip_ws_length r) as Hw.
    destruct (skip_ws r) as [|c1 r1]; [split; discriminate|].
    cbn [String.length] in Hw.
    destruct (c1 =? ":")%char; [|split; discriminate].
    pose proof (skip_ws_length r1) as Hw1.
    destruct (IHs (skip_ws r1) ltac:(lia)) as [Hne Hlen].
    destruct (scan_once fuel (skip_ws r1)) as [v r2| |]; [|split; discriminate|congruence].
    specialize (Hlen v r2 eq_refl).
    pose proof (skip_ws_length r2) as Hw2.
    destruct (skip_ws r2) as [|c2 r3]; [split; discriminate|].
    cbn [String.length] in Hw2.
    destruct (c2 =? "}")%char.
    { split; [discriminate|]. intros v' r' [= _ <-]. lia. }
    destruct (c2 =? ",")%char; [|split; discriminate].
    pose proof (skip_ws_length r3) as Hw3.
    destruct (skip_ws r3) as [|c3 r4]; [split; discriminate|].
    cbn [String.length] in Hw3.
    destruct (c3 =? dquote)%char; [|split; discriminate].
    destruct (IHo r4 (dict_set key v acc) ltac:(lia)) as [Hne' Hlen'].
    split; [exact Hne'|]. intros v' r' H. apply Hlen' in H. lia.
Qed.

(** [loads] never runs out of budget: [None] is always a decoding error. *)
Lemma loads_budget s : scan_once (budget s) (skip_ws s) <> OutOfFuel.
Proof.
  apply scan_budget. pose proof (skip_ws_length s). unfold budget. lia.
Qed.

End JsonBudget.

(** ** Line framing and blank lines *)

Lemma decode_app buffer t1 t2 :
  decode buffer (t1 ++ t2) =
    let '(l1, b1) := decode buffer t1 in
    let '(l2, b2) := decode b1 t2 in
    ((l1 ++ l2)%list, b2).
Proof.
  revert buffer. induction t1 as [|c t1 IH]; intros buffer.
  - rewrite str_app_nil_l. cbn [decode]. destruct (decode buffer t2); reflexivity.
  - rewrite str_app_cons. cbn [decode]. destruct (c =? "010")%char.
    + rewrite IH. destruct (decode "" t1) as [l1 b1].
      destruct (decode b1 t2) as [l2 b2]. reflexivity.
    + apply IH.
Qed.

Lemma decode_no_newline buffer text :
  has_newline text = false -> decode buffer text = ([], buffer ++ text).
Proof.
  revert buffer. induction text as [|c text IH]; intros buffer; cbn [has_newline decode].
  - intros _. rewrite str_app_nil_r. reflexivity.
  - destruct (c =? "010")%char; [discriminate|]. cbn [orb]. intros H.
    rewrite (IH _ H), str_app_assoc. reflexivity.
Qed.

Lemma aiter_lines_from_received buffer reads :
  aiter_lines_from buffer reads = aiter_lines_from buffer [received reads].
Proof.
  revert buffer. induction reads as [|t reads IH]; intros buffer.
  - reflexivity.
  - cbn [aiter_lines_from received foldr]. fold (received reads).
    rewrite decode_app. destruct (decode buffer t) as [l1 b1].
    rewrite IH. cbn [aiter_lines_from].
    destruct (decode b1 (received reads)) as [l2 b2].
    rewrite <- app_assoc. reflexivity.
Qed.

Lemma skip_ws_blank s :
  is_blank s = true ->
  Json.skip_ws s = "" \/ exists c r, Json.skip_ws s = String c r /\ isspace c = true.
Proof.
  induction s as [|c s IH]; cbn [is_blank Json.skip_ws]; [left; reflexivity|].
  intros H. apply andb_prop in H as [Hc Hs].
  destruct (Json.is_ws c); [exact (IH Hs)|].
  right. exists c, s. split; [reflexivity|exact Hc].
Qed.

Lemma scan_once_space n c r :
  isspace c = true -> Json.scan_once (S n) (String c r) = Json.Fail.
Proof.
  destruct c as [[] [] [] [] [] [] [] []]; intros H; vm_compute in H;
    try discriminate H; reflexivity.
Qed.

Lemma loads_blank line : is_blank line = true -> Json.loads line = None.
Proof.
  intros H. unfold Json.loads, Json.budget.
  destruct (skip_ws_blank line H) as [->|(c & r & -> & Hc)].
  - reflexivity.
  - rewrite (scan_once_space _ c r Hc). reflexivity.
Qed.

Lemma generate_response_stream_app_exhausted pre post ys :
  generate_response_stream pre = (ys, Exhausted) ->
  generate_response_stream (pre ++ post)%list =
    ((ys ++ fst (generate_response_stream post))%list,
     snd (generate_response_stream post)).
Proof.
  revert ys. induction pre as [|l pre IH]; intros ys; cbn [app generate_response_stream].
  - intros [= <-]. destruct (generate_response_stream post); reflexivity.
  - destruct (loop_body l); try discriminate.
    + destruct (generate_response_stream pre) as [ys' e'] eqn:E.
      intros [= <- ->]. rewrite (IH ys' eq_refl). reflexivity.
    + intros H. exact (IH ys H).
Qed.

(** C4 (as amended).  A line is handed to the relay only once it is complete:
    text without a newline stays in the buffer of the line iterator, and the
    lines delivered, hence the relay's result, do not depend on how the
    server's text is cut into network reads.  A blank or whitespace-only
    line is not skipped: it is not a JSON document, so when the relay reaches
    it the generator raises the decoding error, after the fragments of the
    lines before it have been forwarded. *)
Theorem relay_buffers_lines_and_raises_on_blank_line :
  (forall buffer text,
     has_newline text = false -> decode buffer text = ([], buffer ++ text)) /\
  (forall reads,
     generate_response_stream (aiter_lines reads) =
     generate_response_stream (aiter_lines [received reads])) /\
  (forall pre blank post ys,
     is_blank blank = true ->
     generate_response_stream pre = (ys, Exhausted) ->
     generate_response_stream (pre ++ blank :: post)%list =
       (ys, Raised JSONDecodeError)).
Proof.
  split; [exact decode_no_newline|]. split.
  - intros reads. unfold aiter_lines. rewrite aiter_lines_from_received. reflexivity.
  - intros pre blank post ys Hb Hpre.
    rewrite (generate_response_stream_app_exhausted _ _ _ Hpre).
    cbn [generate_response_stream]. unfold loop_body.
    rewrite (loads_blank blank Hb). cbn [fst snd]. rewrite app_nil_r. reflexivity.
Qed.

Lemma relay_buffers_lines_and_raises_on_blank_line_witness :
  decode (quoted "{'done'") ":true}" = ([], quoted "{'done':true}")
  /\ generate_response_stream ([the_line] ++ "  " :: [done_line])%list =
       ([PStr "The"], Raised JSONDecodeError).
Proof.
  split.
  - apply (proj1 relay_buffers_lines_and_raises_on_blank_line
             (quoted "{'done'") ":true}").
    vm_compute. reflexivity.
  - apply (proj2 (proj2 relay_buffers_lines_and_raises_on_blank_line)
             [the_line] "  " [done_line] [PStr "The"]).
    + vm_compute. reflexivity.
    + vm_compute. reflexivity.
Defined.

(** The claim C4 as it is worded, on one response: were the blank line between
    the two objects skipped, the stream would complete like the one without
    the blank line.  It ends in the decoding error instead. *)
Lemma blank_line_is_not_skipped :
  aiter_lines [server_text_with_blank_line] = [the_line; ""; done_line]
  /\ generate_response_stream (aiter_lines [server_text_with_blank_line]) =
       ([PStr "The"], Raised JSONDecodeError)
  /\ generate_response_stream (aiter_lines [server_text_with_blank_line]) <>
       generate_response_stream [the_line; done_line].
Proof. vm_compute. repeat split. discriminate. Qed.

(** ** The context assembler *)

Import Context.

Lemma append_all_entries context messages :
  Forall (fun m => is_Some (entry_of m)) messages ->
  exists entries,
    append_all context messages = Some (context ++ entries)%list /\
    Forall2 (fun m e => entry_of m = Some e) messages entries.
Proof.
  intros H. revert context. induction H as [|m messages [e He] _ IH]; intros context.
  - exists []. rewrite app_nil_r. split; [reflexivity|constructor].
  - cbn [append_all]. rewrite He.
    destruct (IH (context ++ [e])%list) as (entries & Happ & Hall).
    exists (e :: entries). rewrite Happ, <- app_assoc. split; [reflexivity|].
    constructor; [exact He|exact Hall].
Qed.

Lemma entry_of_fields m e :
  entry_of m = Some e ->
  getitem e "role" = getitem m "role" /\ getitem e "content" = getitem m "content"
  /\ exists r c, e = PDict [("role", r); ("content", c)].
Proof.
  unfold entry_of. destruct (getitem m "role") as [r|]; [|discriminate].
  destruct (getitem m "content") as [c|]; [|discriminate].
  intros [= <-]. repeat split. exists r, c. reflexivity.
Qed.

(** C5.  For every message history whose messages have a role and a content
    (as every stored message has) and every system prompt, the assembler
    returns one system-role entry holding the system prompt, followed by one
    entry per historical message, in the original order, with that message's
    role and content unchanged and nothing else: the output is one entry
    longer than the history.  The assembler is a function of its two
    arguments: equal inputs give equal outputs. *)
Theorem prepare_context_system_then_history (messages : list pyval) (system_prompt : string) :
  Forall (fun m => is_Some (getitem m "role") /\ is_Some (getitem m "content")) messages ->
  (exists entries,
     prepare_context messages system_prompt =
       Some (PDict [("role", PStr "system"); ("content", PStr system_prompt)] :: entries)
     /\ length entries = length messages
     /\ Forall2 (fun m e =>
          getitem e "role" = getitem m "role" /\
          getitem e "content" = getitem m "content" /\
          exists r c, e = PDict [("role", r); ("content", c)]) messages entries)
  /\ (forall context, prepare_context messages system_prompt = Some context ->
        length context = S (length messages))
  /\ (forall messages' system_prompt',
        messages' = messages -> system_prompt' = system_prompt ->
        prepare_context messages' system_prompt' = prepare_context messages system_prompt).
Proof.
  intros H.
  assert (Forall (fun m => is_Some (entry_of m)) messages) as H'.
  { eapply Forall_impl; [exact H|]. intros m [[r Hr] [c Hc]].
    unfold entry_of. rewrite Hr, Hc. eexists; reflexivity. }
  destruct (append_all_entries
              [PDict [("role", PStr "system"); ("content", PStr system_prompt)]]
              messages H') as (entries & Happ & Hall).
  assert (length entries = length messages) as Hlen.
  { symmetry. eapply Forall2_length. exact Hall. }
  split; [|split].
  - exists entries. split; [exact Happ|]. split; [exact Hlen|].
    eapply Forall2_impl; [exact Hall|]. intros m e He. exact (entry_of_fields m e He).
  - intros context Hc. unfold prepare_context in Hc. rewrite Happ in Hc.
    injection Hc as <-. cbn [app length]. rewrite Hlen. reflexivity.
  - intros messages' system_prompt' -> ->. reflexivity.
Qed.

Lemma prepare_context_system_then_history_witness :
  prepare_context [stored_user_message; stored_assistant_message] "You are an AI assistant" =
    Some [PDict [("role", PStr "system"); ("content", PStr "You are an AI assistant")];
          PDict [("role", PStr "user"); ("content", PStr "Hi")];
          PDict [("role", PStr "assistant"); ("content", PStr "Hello!")]]
  /\ forall context,
       prepare_context [stored_user_message; stored_assistant_message]
         "You are an AI assistant" = Some context ->
       length context = 3%nat.
Proof.
  split; [vm_compute; reflexivity|].
  apply (prepare_context_system_then_history
           [stored_user_message; stored_assistant_message] "You are an AI assistant").
  repeat constructor; vm_compute; eexists; reflexivity.
Defined.

(** ** The imaging library in exact arithmetic *)

Import Files.

Lemma Qfloor_div (n d : Z) : 0 < d -> Qfloor (inject_Z n / inject_Z d) = n / d.
Proof.
  intros Hd. destruct d as [|p|p]; try lia.
  unfold Qdiv, Qinv, Qmult, inject_Z, Qfloor. cbn [Qnum Qden].
  rewrite Z.mul_1_r, Pos.mul_1_l. reflexivity.
Qed.

Lemma Qceiling_div (n d : Z) : 0 < d -> Qceiling (inject_Z n / inject_Z d) = - ((- n) / d).
Proof.
  intros Hd. unfold Qceiling. f_equal.
  rewrite <- (Qfloor_div (- n) d Hd). apply Qfloor_comp.
  rewrite inject_Z_opp. unfold Qdiv. ring.
Qed.

Lemma floor_div_bounds (n d : Z) : 0 < d -> d * (n / d) <= n < d * (n / d + 1).
Proof.
  intros Hd. pose proof (Z.div_mod n d). pose proof (Z.mod_pos_bound n d Hd). lia.
Qed.

Lemma ceiling_div_bounds (n d : Z) :
  0 < d -> d * (- ((- n) / d) - 1) < n <= d * (- ((- n) / d)).
Proof.
  intros Hd. pose proof (floor_div_bounds (- n) d Hd). lia.
Qed.

(** The rounded side is within one pixel of the exact quotient [n / d]. *)
Lemma round_aspect_near (number : Q) (key : Z -> Q) (n d : Z) :
  0 < d -> 0 < n -> (number == inject_Z n / inject_Z d)%Q ->
  let a := round_aspect number key in
  1 <= a /\ d * (a - 1) < n < d * (a + 1).
Proof.
  intros Hd Hn Heq a. subst a. unfold round_aspect.
  rewrite (Qfloor_comp _ _ Heq), (Qceiling_comp _ _ Heq).
  rewrite (Qfloor_div n d Hd), (Qceiling_div n d Hd).
  pose proof (floor_div_bounds n d Hd) as Hf.
  pose proof (ceiling_div_bounds n d Hd) as Hc.
  set (lo := n / d) in *. set (hi := - (- n / d)) in *.
  assert (0 <= lo) by nia. assert (lo <= hi) by nia. assert (hi <= lo + 1) by nia.
  destruct (Qle_bool _ _); nia.
Qed.

Lemma thumbnail_size_spec (w h x y : Z) :
  1 <= w -> 1 <= h -> 1 <= x -> 1 <= y ->
  let '(a, b) := thumbnail_size w h x y in
  1 <= a <= x /\ 1 <= b <= y /\ a <= w /\ b <= h /\
  Z.abs (a * h - b * w) < Z.max w h.
Proof.
  intros Hw Hh Hx Hy. unfold thumbnail_size.
  destruct ((w <=? x) && (h <=? y)) eqn:Hfit.
  - apply andb_prop in Hfit as [H1 H2]. lia.
  - assert (x < w \/ y < h) as Hnot.
    { apply andb_false_iff in Hfit as [H|H]; lia. }
    destruct (Qle_bool (inject_Z w / inject_Z h) (inject_Z x / inject_Z y)) eqn:Hcmp.
    + assert (w * y <= x * h) as Hle.
      { apply Qle_bool_iff in Hcmp.
        destruct h as [|ph|ph]; try lia. destruct y as [|py|py]; try lia.
        unfold Qle, Qdiv, Qinv, Qmult, inject_Z in Hcmp. cbn [Qnum Qden] in Hcmp.
        lia. }
      match goal with |- context [round_aspect ?q ?k] =>
        pose proof (round_aspect_near q k (y * w) h ltac:(lia) ltac:(nia)) as Hr;
        set (a := round_aspect q k) in * end.
      destruct Hr as (H1 & H2 & H3).
      { rewrite inject_Z_mult. unfold Qdiv. ring. }
      clearbody a.
      assert (y < h) by nia.
      assert (a <= x) by nia. assert (a <= w) by nia.
      repeat split; lia.
    + assert (x * h < w * y) as Hlt.
      { destruct (Z_lt_le_dec (x * h) (w * y)) as [?|Hge]; [assumption|exfalso].
        assert (Qle_bool (inject_Z w / inject_Z h) (inject_Z x / inject_Z y) = true) as HT;
          [|rewrite HT in Hcmp; discriminate].
        apply Qle_bool_iff.
        destruct h as [|ph|ph]; try lia. destruct y as [|py|py]; try lia.
        unfold Qle, Qdiv, Qinv, Qmult, inject_Z. cbn [Qnum Qden]. lia. }
      match goal with |- context [round_aspect ?q ?k] =>
        pose proof (round_aspect_near q k (x * h) w ltac:(lia) ltac:(nia)) as Hr;
        set (b := round_aspect q k) in * end.
      destruct Hr as (H1 & H2 & H3).
      { rewrite inject_Z_mult. field.
        split; intros E; [apply (inject_Z_injective w 0) in E
                         |apply (inject_Z_injective h 0) in E]; lia. }
      clearbody b.
      assert (x < w) by nia.
      assert (b <= y) by nia. assert (b <= h) by nia.
      repeat split; lia.
Qed.

#[export] Instance exact_pillow : Pillow.
Proof.
  refine {| thumbnail := thumbnail_exact |}.
  - intros img [x y]. unfold thumbnail_exact.
    destruct (thumbnail_size _ _ _ _). reflexivity.
  - intros [w h m] x y Hw Hh. cbn [width height] in *.
    unfold thumbnail_exact, thumbnail_size. cbn [fst snd width height img_mode].
    replace (w <=? x) with true by (symmetry; apply Z.leb_le; lia).
    replace (h <=? y) with true by (symmetry; apply Z.leb_le; lia).
    reflexivity.
  - intros [w h m] x y Hw Hh Hx Hy. cbn [width height] in *.
    pose proof (thumbnail_size_spec w h x y Hw Hh Hx Hy) as Hs.
    unfold thumbnail_exact. cbn [fst snd width height img_mode].
    destruct (thumbnail_size w h x y) as [a b]. cbn [width height]. lia.
  - intros [w h m] x y Hw Hh Hx Hy. cbn [width height] in *.
    pose proof (thumbnail_size_spec w h x y Hw Hh Hx Hy) as Hs.
    unfold thumbnail_exact. cbn [fst snd width height img_mode].
    destruct (thumbnail_size w h x y) as [a b]. cbn [width height]. lia.
  - intros [w h m] x y Hw Hh Hx Hy. cbn [width height] in *.
    pose proof (thumbnail_size_spec w h x y Hw Hh Hx Hy) as Hs.
    unfold thumbnail_exact. cbn [fst snd width height img_mode].
    destruct (thumbnail_size w h x y) as [a b]. cbn [width height]. lia.
Defined.

(** ** The image normaliser *)

Section Normaliser.

Context `{Pillow}.

Lemma convert_image_to_base64_cases (img : image) :
  convert_image_to_base64 img =
    if (width img <? 50) || (height img <? 50) then inl ImageTooSmall
    else match img_mode img with
         | RGBA => inl (CannotWriteMode RGBA)
         | _ => inr {| type_ := "image"; media_type := "image/jpeg";
                       data := b64encode_jpeg (convert (resized img) RGB) 95 |}
         end.
Proof.
  unfold convert_image_to_base64. fold (resized img).
  destruct ((width img <? 50) || (height img <? 50)); [reflexivity|].
  assert (img_mode (resized img) = img_mode img) as Hm.
  { unfold resized. destruct (_ || _); [apply thumbnail_mode|reflexivity]. }
  rewrite Hm. destruct (img_mode img) eqn:E; cbn; try reflexivity.
  - rewrite Hm. cbn. unfold convert. destruct (resized img) as [w h m].
    cbn in Hm. subst m. reflexivity.
  - rewrite Hm. reflexivity.
Qed.

Lemma resized_bounds (img : image) :
  50 <= width img -> 50 <= height img ->
  Z.max (width (resized img)) (height (resized img)) <= 4000 /\
  width (resized img) <= width img /\ height (resized img) <= height img /\
  Z.abs (width (resized img) * height img - height (resized img) * width img)
    < Z.max (width img) (height img) /\
  (width img <= 4000 -> height img <= 4000 -> resized img = img).
Proof.
  intros Hw Hh. unfold resized.
  destruct ((4000 <? width img) || (4000 <? height img)) eqn:Hbig.
  - pose proof (thumbnail_within img 4000 4000 ltac:(lia) ltac:(lia) ltac:(lia) ltac:(lia)).
    pose proof (thumbnail_no_upscale img 4000 4000 ltac:(lia) ltac:(lia) ltac:(lia) ltac:(lia)).
    pose proof (thumbnail_aspect img 4000 4000 ltac:(lia) ltac:(lia) ltac:(lia) ltac:(lia)).
    repeat split; lia.
  - apply orb_false_elim in Hbig as [H1 H2].
    apply Z.ltb_ge in H1. apply Z.ltb_ge in H2.
    replace (width img * height img - height img * width img) with 0 by ring.
    repeat split; lia.
Qed.

(** C6.  An image with a side below 50 pixels always fails the size check;
    an image with both sides at least 50 pixels is never rejected by it, and
    is encoded unless its mode is RGBA.  Whenever an image is encoded, the
    encoded image has no side above 4000 pixels, no side larger than the
    original's, the original's aspect ratio up to the rounding of one side
    to whole pixels, and the original's size when that was within 4000
    pixels. *)
Theorem image_size_is_validated_and_bounded (img : image) :
  ((width img < 50 \/ height img < 50) ->
     convert_image_to_base64 img = inl ImageTooSmall) /\
  (50 <= width img -> 50 <= height img ->
     convert_image_to_base64 img <> inl ImageTooSmall /\
     (img_mode img <> RGBA -> exists p, convert_image_to_base64 img = inr p)) /\
  (forall p, convert_image_to_base64 img = inr p ->
     Z.max (width (output_image p)) (height (output_image p)) <= 4000 /\
     width (output_image p) <= width img /\
     height (output_image p) <= height img /\
     Z.abs (width (output_image p) * height img - height (output_image p) * width img)
       < Z.max (width img) (height img) /\
     (width img <= 4000 -> height img <= 4000 ->
        width (output_image p) = width img /\ height (output_image p) = height img)).
Proof.
  rewrite convert_image_to_base64_cases. split; [|split].
  - intros Hsmall.
    replace ((width img <? 50) || (height img <? 50)) with true; [reflexivity|].
    symmetry. apply orb_true_iff. destruct Hsmall; [left|right]; apply Z.ltb_lt; lia.
  - intros Hw Hh.
    replace ((width img <? 50) || (height img <? 50)) with false.
    2:{ symmetry. apply orb_false_iff. split; apply Z.ltb_ge; lia. }
    split.
    + destruct (img_mode img); discriminate.
    + intros Hm. destruct (img_mode img); try (eexists; reflexivity). congruence.
  - intros p. destruct ((width img <? 50) || (height img <? 50)) eqn:Hsmall; [discriminate|].
    apply orb_false_elim in Hsmall as [H1 H2].
    apply Z.ltb_ge in H1. apply Z.ltb_ge in H2.
    pose proof (resized_bounds img H1 H2) as (Hmax & Hw & Hh & Hasp & Hsame).
    intros Hp.
    assert (output_image p = convert (resized img) RGB) as ->.
    { destruct (img_mode img); try discriminate; injection Hp as <-; reflexivity. }
    cbn [convert width height].
    split; [exact Hmax|]. split; [exact Hw|]. split; [exact Hh|]. split; [exact Hasp|].
    intros Ha Hb. rewrite (Hsame Ha Hb). split; reflexivity.
Qed.

(** C7 (the failing input).  An accepted RGBA image is left in mode RGBA by
    the conversion step and the JPEG encoder refuses it. *)
Theorem rgba_image_is_not_encoded :
  convert_image_to_base64 {| width := 100; height := 100; img_mode := RGBA |}
  = inl (CannotWriteMode RGBA).
Proof. rewrite convert_image_to_base64_cases. reflexivity. Qed.

(** Every accepted image in another mode is converted to RGB and encoded as a
    JPEG of quality 95, tagged [image/jpeg]. *)
Lemma other_modes_are_encoded_as_rgb_jpeg (img : image) :
  50 <= width img -> 50 <= height img -> img_mode img <> RGBA ->
  exists out,
    convert_image_to_base64 img =
      inr {| type_ := "image"; media_type := "image/jpeg";
             data := b64encode_jpeg out 95 |}
    /\ img_mode out = RGB.
Proof.
  intros Hw Hh Hm. rewrite convert_image_to_base64_cases.
  replace ((width img <? 50) || (height img <? 50)) with false.
  2:{ symmetry. apply orb_false_iff. split; apply Z.ltb_ge; lia. }
  exists (convert (resized img) RGB).
  destruct (img_mode img); try (split; reflexivity). congruence.
Qed.

End Normaliser.

Lemma image_size_is_validated_and_bounded_witness :
  (exists p, convert_image_to_base64 large_photo = inr p) /\
  convert_image_to_base64 {| width := 40; height := 40; img_mode := RGB |}
    = inl ImageTooSmall.
Proof.
  split.
  - apply (proj1 (proj2 (image_size_is_validated_and_bounded large_photo)));
      cbn; [lia|lia|discriminate].
  - apply (proj1 (image_size_is_validated_and_bounded
                    {| width := 40; height := 40; img_mode := RGB |})).
    cbn. lia.
Defined.

(** ** Occurrences of a pattern *)

Lemma startswith_app_newline p a b :
  has_newline p = false ->
  startswith p (a ++ String "010" b) = startswith p a.
Proof.
  revert a. induction p as [|x p IH]; intros a Hp; [destruct a; reflexivity|].
  cbn [has_newline] in Hp. apply orb_false_elim in Hp as [Hx Hp].
  destruct a as [|c a].
  - rewrite str_app_nil_l. cbn [startswith]. rewrite Hx. reflexivity.
  - rewrite str_app_cons. cbn [startswith]. rewrite (IH a Hp). reflexivity.
Qed.

Lemma occurrences_app_newline p a b :
  has_newline p = false -> p <> "" ->
  occurrences p (a ++ String "010" b) = (occurrences p a + occurrences p b)%nat.
Proof.
  intros Hp Hne. induction a as [|c a IH].
  - rewrite str_app_nil_l. cbn [occurrences].
    change (String "010" b) with ("" ++ String "010" b) at 1.
    rewrite (startswith_app_newline p "" b Hp).
    destruct p; [congruence|reflexivity].
  - rewrite str_app_cons. cbn [occurrences]. rewrite <- str_app_cons.
    rewrite (startswith_app_newline p (String c a) b Hp).
    rewrite IH. lia.
Qed.

Lemma occurrences_app_ge p a s : (occurrences p s <= occurrences p (a ++ s))%nat.
Proof.
  induction a as [|c a IH]; [rewrite str_app_nil_l; lia|].
  rewrite str_app_cons. cbn [occurrences]. lia.
Qed.

Lemma startswith_self_app p s : startswith p (p ++ s) = true.
Proof.
  induction p as [|c p IH]; [reflexivity|].
  rewrite str_app_cons. cbn [startswith]. rewrite Ascii.eqb_refl, IH. reflexivity.
Qed.

Lemma startswith_refl p : startswith p p = true.
Proof.
  induction p as [|c p IH]; [reflexivity|].
  cbn [startswith]. rewrite Ascii.eqb_refl, IH. reflexivity.
Qed.

Lemma occurrences_substring p a c :
  p <> "" -> (1 <= occurrences p (a ++ p ++ c))%nat.
Proof.
  intros Hp. etransitivity; [|apply occurrences_app_ge].
  destruct p as [|x p]; [congruence|].
  rewrite str_app_cons. cbn [occurrences]. rewrite <- str_app_cons.
  rewrite startswith_self_app. lia.
Qed.

(** ** Stripping *)

Lemma string_length_ind (P : string -> Prop) :
  (forall s, (forall t, (String.length t < String.length s)%nat -> P t) -> P s) ->
  forall s, P s.
Proof.
  intros H s. remember (String.length s) as n eqn:E. revert s E.
  induction n as [n IH] using lt_wf_ind. intros s ->.
  apply H. intros t Ht. exact (IH _ Ht t eq_refl).
Qed.

(** *** The bytes of white space *)

Lemma isspace_ascii c : isspace c = true -> is_ascii c = true.
Proof.
  unfold isspace, is_ascii. cbv zeta.
  rewrite !orb_true_iff, !andb_true_iff, !N.leb_le, !N.ltb_lt. lia.
Qed.

Lemma not_ascii_not_space c : is_ascii c = false -> isspace c = false.
Proof.
  intros H. destruct (isspace c) eqn:E; [|reflexivity].
  apply isspace_ascii in E. congruence.
Qed.

Lemma space2_bytes c1 c2 :
  space2 c1 c2 = true -> is_ascii c1 = false /\ is_ascii c2 = false.
Proof.
  unfold space2, is_ascii. cbv zeta.
  rewrite !andb_true_iff, !orb_true_iff, !N.eqb_eq, !N.ltb_ge. lia.
Qed.

Lemma space3_bytes c1 c2 c3 :
  space3 c1 c2 c3 = true ->
  is_ascii c1 = false /\ is_ascii c2 = false /\ is_ascii c3 = false.
Proof.
  unfold space3, is_ascii. cbv zeta.
  repeat rewrite ?orb_true_iff, ?andb_true_iff.
  rewrite ?N.eqb_eq, ?N.leb_le, ?N.ltb_ge. lia.
Qed.

Lemma space2_ascii c1 c2 : is_ascii c2 = true -> space2 c1 c2 = false.
Proof.
  intros H. destruct (space2 c1 c2) eqn:E; [|reflexivity].
  apply space2_bytes in E as [_ E]. congruence.
Qed.

Lemma space3_ascii_2 c1 c2 c3 : is_ascii c2 = true -> space3 c1 c2 c3 = false.
Proof.
  intros H. destruct (space3 c1 c2 c3) eqn:E; [|reflexivity].
  apply space3_bytes in E as (_ & E & _). congruence.
Qed.

Lemma space3_ascii_3 c1 c2 c3 : is_ascii c3 = true -> space3 c1 c2 c3 = false.
Proof.
  intros H. destruct (space3 c1 c2 c3) eqn:E; [|reflexivity].
  apply space3_bytes in E as (_ & _ & E). congruence.
Qed.

(** *** The white-space character a text begins with *)

Lemma space_width_cases s :
  space_width s = 0%nat \/
  (exists c r, s = String c r /\ isspace c = true /\ space_width s = 1%nat) \/
  (exists c1 c2 r,
     s = String c1 (String c2 r) /\ is_ascii c1 = false /\ is_ascii c2 = false /\
     space_width s = 2%nat) \/
  (exists c1 c2 c3 r,
     s = String c1 (String c2 (String c3 r)) /\
     is_ascii c1 = false /\ is_ascii c2 = false /\ is_ascii c3 = false /\
     space_width s = 3%nat).
Proof.
  destruct s as [|c1 r1]; [left; reflexivity|]. cbn [space_width].
  destruct (isspace c1) eqn:H1.
  { right; left. exists c1, r1. repeat split. exact H1. }
  destruct r1 as [|c2 r2]; [left; reflexivity|].
  destruct (space2 c1 c2) eqn:H2.
  { right; right; left. apply space2_bytes in H2 as [Ha Hb].
    exists c1, c2, r2. repeat split; assumption. }
  destruct r2 as [|c3 r3]; [left; reflexivity|].
  destruct (space3 c1 c2 c3) eqn:H3; [|left; reflexivity].
  right; right; right. apply space3_bytes in H3 as (Ha & Hb & Hc).
  exists c1, c2, c3, r3. repeat split; assumption.
Qed.

Lemma space_width_ascii c r :
  is_ascii c = true -> space_width (String c r) = if isspace c then 1%nat else 0%nat.
Proof.
  intros Hc. cbn [space_width]. destruct (isspace c); [reflexivity|].
  destruct r as [|c2 r2]; [reflexivity|].
  assert (space2 c c2 = false) as ->.
  { destruct (space2 c c2) eqn:E; [|reflexivity].
    apply space2_bytes in E as [E _]. congruence. }
  destruct r2 as [|c3 r3]; [reflexivity|].
  assert (space3 c c2 c3 = false) as ->; [|reflexivity].
  destruct (space3 c c2 c3) eqn:E; [|reflexivity].
  apply space3_bytes in E as (E & _). congruence.
Qed.

Lemma space_width_plain c r :
  is_ascii c = true -> isspace c = false -> space_width (String c r) = 0%nat.
Proof. intros Ha Hs. rewrite space_width_ascii, Hs by exact Ha. reflexivity. Qed.

Lemma space_width_space c r : isspace c = true -> space_width (String c r) = 1%nat.
Proof. intros Hs. cbn [space_width]. rewrite Hs. reflexivity. Qed.

Lemma space_width_app a x b :
  a <> "" -> is_ascii x = true -> space_width (a ++ String x b) = space_width a.
Proof.
  intros Ha Hx. destruct a as [|c1 [|c2 [|c3 a]]]; [congruence|..].
  - rewrite str_app_cons, str_app_nil_l. cbn [space_width].
    rewrite (space2_ascii c1 x Hx).
    destruct b as [|c3 b]; [reflexivity|]. rewrite (space3_ascii_2 c1 x c3 Hx). reflexivity.
  - rewrite !str_app_cons, str_app_nil_l. cbn [space_width].
    rewrite (space3_ascii_3 c1 c2 x Hx). reflexivity.
  - rewrite !str_app_cons. reflexivity.
Qed.

(** *** The equations of [lstrip] and [whitespace_only] *)

Lemma lstrip_0 s : space_width s = 0%nat -> lstrip s = s.
Proof. intros H. destruct s as [|c r]; [reflexivity|]. cbn [lstrip]. rewrite H. reflexivity. Qed.

Lemma lstrip_1 c r : space_width (String c r) = 1%nat -> lstrip (String c r) = lstrip r.
Proof. intros H. cbn [lstrip]. rewrite H. reflexivity. Qed.

Lemma lstrip_2 c1 c2 r :
  space_width (String c1 (String c2 r)) = 2%nat ->
  lstrip (String c1 (String c2 r)) = lstrip r.
Proof. intros H. cbn [lstrip]. rewrite H. reflexivity. Qed.

Lemma lstrip_3 c1 c2 c3 r :
  space_width (String c1 (String c2 (String c3 r))) = 3%nat ->
  lstrip (String c1 (String c2 (String c3 r))) = lstrip r.
Proof. intros H. cbn [lstrip]. rewrite H. reflexivity. Qed.

Lemma whitespace_only_0 s : s <> "" -> space_width s = 0%nat -> whitespace_only s = false.
Proof.
  intros Hs H. destruct s as [|c r]; [congruence|]. cbn [whitespace_only]. rewrite H.
  reflexivity.
Qed.

Lemma whitespace_only_1 c r :
  space_width (String c r) = 1%nat -> whitespace_only (String c r) = whitespace_only r.
Proof. intros H. cbn [whitespace_only]. rewrite H. reflexivity. Qed.

Lemma whitespace_only_2 c1 c2 r :
  space_width (String c1 (String c2 r)) = 2%nat ->
  whitespace_only (String c1 (String c2 r)) = whitespace_only r.
Proof. intros H. cbn [whitespace_only]. rewrite H. reflexivity. Qed.

Lemma whitespace_only_3 c1 c2 c3 r :
  space_width (String c1 (String c2 (String c3 r))) = 3%nat ->
  whitespace_only (String c1 (String c2 (String c3 r))) = whitespace_only r.
Proof. intros H. cbn [whitespace_only]. rewrite H. reflexivity. Qed.

(** A text is taken apart at the white-space character it begins with; the
    rest is shorter. *)
Ltac by_width a IH :=
  let c1 := fresh "c" in let c2 := fresh "c" in let c3 := fresh "c" in
  let r := fresh "r" in let Hw := fresh "Hw" in
  let H1 := fresh "Hb" in let H2 := fresh "Hb" in let H3 := fresh "Hb" in
  destruct (space_width_cases a)
    as [Hw | [(c1 & r & -> & H1 & Hw)
           | [(c1 & c2 & r & -> & H1 & H2 & Hw)
             | (c1 & c2 & c3 & r & -> & H1 & H2 & H3 & Hw)]]];
  [ | pose proof (IH r ltac:(cbn [String.length]; lia))
    | pose proof (IH r ltac:(cbn [String.length]; lia))
    | pose proof (IH r ltac:(cbn [String.length]; lia)) ].

(** *** White space only *)

Lemma whitespace_only_plain a x b :
  is_ascii x = true -> isspace x = false -> whitespace_only (a ++ String x b) = false.
Proof.
  intros Hx Hs. induction a as [a IH] using string_length_ind.
  destruct a as [|c0 a0] eqn:Ea.
  { rewrite str_app_nil_l. apply whitespace_only_0; [discriminate|].
    apply space_width_plain; assumption. }
  rewrite <- Ea in *. assert (Hne : a <> "") by (rewrite Ea; discriminate). clear Ea c0 a0.
  pose proof (space_width_app a x b Hne Hx) as Happ.
  by_width a IH.
  - apply whitespace_only_0; [|congruence].
    destruct a; [congruence|]. rewrite str_app_cons. discriminate.
  - rewrite str_app_cons in *. rewrite whitespace_only_1 by congruence. assumption.
  - rewrite !str_app_cons in *. rewrite whitespace_only_2 by congruence. assumption.
  - rewrite !str_app_cons in *. rewrite whitespace_only_3 by congruence. assumption.
Qed.

Lemma whitespace_only_app a x b :
  is_ascii x = true ->
  whitespace_only (a ++ String x b) = whitespace_only a && whitespace_only (String x b).
Proof.
  intros Hx. induction a as [a IH] using string_length_ind.
  destruct a as [|c0 a0] eqn:Ea; [reflexivity|].
  rewrite <- Ea in *. assert (Hne : a <> "") by (rewrite Ea; discriminate). clear Ea c0 a0.
  pose proof (space_width_app a x b Hne Hx) as Happ.
  by_width a IH.
  - rewrite (whitespace_only_0 a Hne Hw). apply whitespace_only_0; [|congruence].
    destruct a; [congruence|]. rewrite str_app_cons. discriminate.
  - rewrite str_app_cons in *. rewrite !whitespace_only_1 by congruence. assumption.
  - rewrite !str_app_cons in *. rewrite !whitespace_only_2 by congruence. assumption.
  - rewrite !str_app_cons in *. rewrite !whitespace_only_3 by congruence. assumption.
Qed.

Lemma whitespace_only_is_blank b : is_blank b = true -> whitespace_only b = true.
Proof.
  induction b as [|c b IH]; [reflexivity|]. cbn [is_blank]. intros H.
  apply andb_prop in H as [Hc Hb].
  rewrite whitespace_only_1 by (apply space_width_space; exact Hc). exact (IH Hb).
Qed.

Lemma whitespace_only_app_blank a b :
  is_blank b = true -> whitespace_only (a ++ b) = whitespace_only a.
Proof.
  intros Hb. destruct b as [|x b]; [rewrite str_app_nil_r; reflexivity|].
  assert (Hx : is_ascii x = true).
  { cbn [is_blank] in Hb. apply andb_prop in Hb as [Hb _]. exact (isspace_ascii x Hb). }
  rewrite (whitespace_only_app a x b Hx), (whitespace_only_is_blank _ Hb).
  apply andb_true_r.
Qed.

(** *** [lstrip] *)

Lemma lstrip_plain c r :
  is_ascii c = true -> isspace c = false -> lstrip (String c r) = String c r.
Proof. intros Ha Hs. apply lstrip_0, space_width_plain; assumption. Qed.

Lemma lstrip_space c r : isspace c = true -> lstrip (String c r) = lstrip r.
Proof. intros Hs. apply lstrip_1, space_width_space. exact Hs. Qed.

Lemma lstrip_blank s : whitespace_only s = true -> lstrip s = "".
Proof.
  induction s as [s IH] using string_length_ind.
  destruct s as [|c0 s0] eqn:Es; [reflexivity|].
  rewrite <- Es in *. assert (Hne : s <> "") by (rewrite Es; discriminate). clear Es c0 s0.
  by_width s IH.
  - rewrite (whitespace_only_0 s Hne Hw). discriminate.
  - rewrite whitespace_only_1, lstrip_1 by exact Hw. assumption.
  - rewrite whitespace_only_2, lstrip_2 by exact Hw. assumption.
  - rewrite whitespace_only_3, lstrip_3 by exact Hw. assumption.
Qed.

Lemma lstrip_nonblank s : whitespace_only s = false -> lstrip s <> "".
Proof.
  induction s as [s IH] using string_length_ind.
  destruct s as [|c0 s0] eqn:Es; [discriminate|].
  rewrite <- Es in *. assert (Hne : s <> "") by (rewrite Es; discriminate). clear Es c0 s0.
  by_width s IH.
  - intros _. rewrite (lstrip_0 s Hw). exact Hne.
  - rewrite whitespace_only_1, lstrip_1 by exact Hw. assumption.
  - rewrite whitespace_only_2, lstrip_2 by exact Hw. assumption.
  - rewrite whitespace_only_3, lstrip_3 by exact Hw. assumption.
Qed.

Lemma whitespace_only_lstrip s : whitespace_only (lstrip s) = whitespace_only s.
Proof.
  induction s as [s IH] using string_length_ind.
  by_width s IH.
  - rewrite (lstrip_0 s Hw). reflexivity.
  - rewrite whitespace_only_1, lstrip_1 by exact Hw. assumption.
  - rewrite whitespace_only_2, lstrip_2 by exact Hw. assumption.
  - rewrite whitespace_only_3, lstrip_3 by exact Hw. assumption.
Qed.

Lemma lstrip_app_ascii a x b :
  is_ascii x = true ->
  lstrip (a ++ String x b)
  = if whitespace_only a then lstrip (String x b) else lstrip a ++ String x b.
Proof.
  intros Hx. induction a as [a IH] using string_length_ind.
  destruct a as [|c0 a0] eqn:Ea; [reflexivity|].
  rewrite <- Ea in *. assert (Hne : a <> "") by (rewrite Ea; discriminate). clear Ea c0 a0.
  pose proof (space_width_app a x b Hne Hx) as Happ.
  by_width a IH.
  - rewrite (whitespace_only_0 a Hne Hw), (lstrip_0 a Hw). apply lstrip_0. congruence.
  - rewrite str_app_cons in *.
    rewrite whitespace_only_1, (lstrip_1 _ (r ++ String x b)), (lstrip_1 _ r) by congruence.
    assumption.
  - rewrite !str_app_cons in *.
    rewrite whitespace_only_2, (lstrip_2 _ _ (r ++ String x b)), (lstrip_2 _ _ r)
      by congruence.
    assumption.
  - rewrite !str_app_cons in *.
    rewrite whitespace_only_3, (lstrip_3 _ _ _ (r ++ String x b)), (lstrip_3 _ _ _ r)
      by congruence.
    assumption.
Qed.

Lemma lstrip_app a c r :
  is_ascii c = true -> isspace c = false ->
  lstrip (a ++ String c r) = lstrip a ++ String c r.
Proof.
  intros Ha Hs. rewrite (lstrip_app_ascii a c r Ha).
  destruct (whitespace_only a) eqn:Hb; [|reflexivity].
  rewrite (lstrip_blank a Hb), str_app_nil_l. apply lstrip_plain; assumption.
Qed.

Lemma lstrip_app_nonblank s x t :
  is_ascii x = true -> lstrip s <> "" ->
  lstrip (s ++ String x t) = lstrip s ++ String x t.
Proof.
  intros Hx Hne. rewrite (lstrip_app_ascii s x t Hx).
  destruct (whitespace_only s) eqn:Hb; [|reflexivity].
  destruct (Hne (lstrip_blank s Hb)).
Qed.

(** *** [rstrip] *)

Lemma rstrip_cons c s :
  rstrip (String c s) = if whitespace_only (String c s) then "" else String c (rstrip s).
Proof. reflexivity. Qed.

Lemma rstrip_blank s : whitespace_only s = true -> rstrip s = "".
Proof. intros H. destruct s as [|c s]; [reflexivity|]. rewrite rstrip_cons, H. reflexivity. Qed.

Lemma rstrip_nonblank s : whitespace_only s = false -> rstrip s <> "".
Proof.
  intros H. destruct s as [|c s]; [discriminate|]. rewrite rstrip_cons, H. discriminate.
Qed.

Lemma rstrip_app a x b :
  is_ascii x = true -> whitespace_only (String x b) = false ->
  rstrip (a ++ String x b) = a ++ rstrip (String x b).
Proof.
  intros Hx Hb. induction a as [|c a IH]; [reflexivity|].
  rewrite !str_app_cons, rstrip_cons, <- str_app_cons.
  rewrite (whitespace_only_app (String c a) x b Hx), Hb, andb_false_r, IH. reflexivity.
Qed.

Lemma rstrip_app_blank a b : is_blank b = true -> rstrip (a ++ b) = rstrip a.
Proof.
  intros Hb. induction a as [|c a IH].
  - rewrite str_app_nil_l. apply rstrip_blank, whitespace_only_is_blank. exact Hb.
  - rewrite str_app_cons, !rstrip_cons, <- str_app_cons.
    rewrite (whitespace_only_app_blank (String c a) b Hb), IH. reflexivity.
Qed.

Lemma rstrip_keeps a x b :
  is_ascii x = true -> isspace x = false ->
  exists b', rstrip (a ++ String x b) = a ++ String x b'.
Proof.
  intros Hx Hs. induction a as [|c a [b' IH]].
  - exists (rstrip b). rewrite str_app_nil_l, rstrip_cons.
    rewrite <- (str_app_nil_l (String x b)) at 1.
    rewrite (whitespace_only_plain "" x b Hx Hs). reflexivity.
  - exists b'. rewrite str_app_cons, rstrip_cons, <- str_app_cons.
    rewrite (whitespace_only_plain (String c a) x b Hx Hs), IH. reflexivity.
Qed.

Lemma rstrip_plain_end a x :
  is_ascii x = true -> isspace x = false -> rstrip (a ++ String x "") = a ++ String x "".
Proof.
  intros Hx Hs.
  assert (Hb : whitespace_only (String x "") = false).
  { apply whitespace_only_0; [discriminate|]. apply space_width_plain; assumption. }
  rewrite (rstrip_app a x "" Hx Hb), rstrip_cons, Hb. reflexivity.
Qed.

Lemma rstrip_split s : exists w, s = rstrip s ++ w /\ whitespace_only w = true.
Proof.
  induction s as [|c s (w & IH & Hw)]; [exists ""; split; reflexivity|].
  rewrite rstrip_cons. destruct (whitespace_only (String c s)) eqn:E.
  - exists (String c s). rewrite str_app_nil_l. split; [reflexivity|exact E].
  - exists w. rewrite str_app_cons, <- IH. split; [reflexivity|exact Hw].
Qed.

Lemma rstrip_prefix s : exists w, s = rstrip s ++ w.
Proof. destruct (rstrip_split s) as (w & H & _). exists w. exact H. Qed.

(** *** Occurrences of a text that begins and ends with a plain character *)

Lemma string_last (p : string) : p <> "" -> exists q x, p = q ++ String x "".
Proof.
  induction p as [|c p IH]; [congruence|]. intros _.
  destruct p as [|d p].
  - exists "", c. reflexivity.
  - destruct (IH ltac:(discriminate)) as (q & x & ->).
    exists (String c q), x. rewrite str_app_cons. reflexivity.
Qed.

Lemma startswith_inv p t : startswith p t = true -> exists rest, t = p ++ rest.
Proof.
  revert t. induction p as [|c p IH]; intros t; [exists t; reflexivity|].
  destruct t as [|d t]; [discriminate|]. cbn [startswith]. intros H.
  apply andb_prop in H as [Hc Hp]. apply Ascii.eqb_eq in Hc as ->.
  destruct (IH t Hp) as [rest ->]. exists rest. rewrite str_app_cons. reflexivity.
Qed.

Lemma startswith_blank p w :
  p <> "" ->
  (forall q x, p = q ++ String x "" -> is_ascii x = true /\ isspace x = false) ->
  whitespace_only w = true -> startswith p w = false.
Proof.
  intros Hne Hlast Hw. destruct (startswith p w) eqn:E; [|reflexivity].
  apply startswith_inv in E as [rest ->].
  destruct (string_last p Hne) as (q & x & Hp). destruct (Hlast q x Hp) as [Hx Hs].
  rewrite Hp, str_app_assoc, str_app_cons, str_app_nil_l in Hw.
  rewrite (whitespace_only_plain q x rest Hx Hs) in Hw. discriminate.
Qed.

Lemma startswith_app_blank p r w :
  (forall q x, p = q ++ String x "" -> is_ascii x = true /\ isspace x = false) ->
  whitespace_only w = true -> startswith p (r ++ w) = startswith p r.
Proof.
  intros Hlast Hw. revert p Hlast. induction r as [|c r IH]; intros p Hlast.
  - rewrite str_app_nil_l. destruct p as [|y p]; [destruct w; reflexivity|].
    rewrite (startswith_blank (String y p) w ltac:(discriminate) Hlast Hw). reflexivity.
  - rewrite str_app_cons. destruct p as [|y p]; [reflexivity|]. cbn [startswith].
    rewrite IH; [reflexivity|]. intros q x ->. apply (Hlast (String y q) x).
    rewrite str_app_cons. reflexivity.
Qed.

Lemma startswith_rstrip p s :
  (forall q x, p = q ++ String x "" -> is_ascii x = true /\ isspace x = false) ->
  startswith p (rstrip s) = startswith p s.
Proof.
  intros Hlast. destruct (rstrip_split s) as (w & Hs & Hw).
  transitivity (startswith p (rstrip s ++ w)).
  - symmetry. apply startswith_app_blank; assumption.
  - rewrite <- Hs. reflexivity.
Qed.

Lemma whitespace_only_no_plain w a x b :
  whitespace_only w = true -> w = a ++ String x b -> is_ascii x = true -> isspace x = true.
Proof.
  intros Hw -> Hx. destruct (isspace x) eqn:Hs; [reflexivity|].
  rewrite (whitespace_only_plain a x b Hx Hs) in Hw. discriminate.
Qed.

Lemma occurrences_no_plain p w :
  p <> "" ->
  (forall q x, p = q ++ String x "" -> is_ascii x = true /\ isspace x = false) ->
  (forall a x b, w = a ++ String x b -> is_ascii x = true -> isspace x = true) ->
  occurrences p w = 0%nat.
Proof.
  intros Hne Hlast. induction w as [|c w IH]; intros Hnp; [reflexivity|].
  cbn [occurrences]. rewrite IH.
  - destruct (startswith p (String c w)) eqn:E; [|reflexivity]. exfalso.
    apply startswith_inv in E as [rest E].
    destruct (string_last p Hne) as (q & x & Hp). destruct (Hlast q x Hp) as [Hx Hs].
    rewrite Hp, str_app_assoc, str_app_cons, str_app_nil_l in E.
    rewrite (Hnp q x rest E Hx) in Hs. discriminate.
  - intros a x b -> Hx. apply (Hnp (String c a) x b); [|exact Hx].
    rewrite str_app_cons. reflexivity.
Qed.

Lemma occurrences_app_blank p r w :
  p <> "" ->
  (forall q x, p = q ++ String x "" -> is_ascii x = true /\ isspace x = false) ->
  whitespace_only w = true -> occurrences p (r ++ w) = occurrences p r.
Proof.
  intros Hne Hlast Hw. induction r as [|c r IH].
  - rewrite str_app_nil_l. apply occurrences_no_plain; [assumption..|].
    intros a x b. apply whitespace_only_no_plain. exact Hw.
  - rewrite str_app_cons. cbn [occurrences]. rewrite IH, <- str_app_cons.
    rewrite (startswith_app_blank p (String c r) w Hlast Hw). reflexivity.
Qed.

Lemma occurrences_rstrip p s :
  p <> "" ->
  (forall q x, p = q ++ String x "" -> is_ascii x = true /\ isspace x = false) ->
  occurrences p (rstrip s) = occurrences p s.
Proof.
  intros Hne Hlast. destruct (rstrip_split s) as (w & Hs & Hw).
  transitivity (occurrences p (rstrip s ++ w)).
  - symmetry. apply occurrences_app_blank; assumption.
  - rewrite <- Hs. reflexivity.
Qed.

Lemma occurrences_skip p c r :
  p <> "" ->
  (forall x q, p = String x q -> is_ascii x = true /\ isspace x = false) ->
  isspace c = true \/ is_ascii c = false ->
  occurrences p (String c r) = occurrences p r.
Proof.
  intros Hne Hfirst Hc. cbn [occurrences].
  destruct p as [|x q]; [congruence|]. cbn [startswith].
  destruct (Hfirst x q eq_refl) as [Hx Hs].
  destruct (Ascii.eqb_spec x c) as [->|]; [|reflexivity].
  destruct Hc as [Hc|Hc]; congruence.
Qed.

Lemma occurrences_lstrip p s :
  (forall x q, p = String x q -> is_ascii x = true /\ isspace x = false) -> p <> "" ->
  occurrences p (lstrip s) = occurrences p s.
Proof.
  intros Hfirst Hne. induction s as [s IH] using string_length_ind.
  by_width s IH.
  - rewrite (lstrip_0 s Hw). reflexivity.
  - rewrite lstrip_1 by exact Hw.
    rewrite (occurrences_skip p c r Hne Hfirst) by (left; assumption).
    assumption.
  - rewrite lstrip_2 by exact Hw.
    rewrite !(occurrences_skip p _ _ Hne Hfirst) by (right; assumption). assumption.
  - rewrite lstrip_3 by exact Hw.
    rewrite !(occurrences_skip p _ _ Hne Hfirst) by (right; assumption). assumption.
Qed.

(** ** Page markers *)

Lemma marker_text_eq ds :
  marker_text ds =
  String "-" (String "-" (String "-" (String " " (String "P" (String "a"
    (String "g" (String "e" (String " " (ds ++ " ---"))))))))).
Proof. reflexivity. Qed.

Lemma all_digits_string_of_uint u : all_digits (NilEmpty.string_of_uint u) = true.
Proof. induction u; cbn [NilEmpty.string_of_uint all_digits]; try rewrite IHu; reflexivity. Qed.

Lemma all_digits_str_of_nat n : all_digits (str_of_nat n) = true.
Proof. apply all_digits_string_of_uint. Qed.

Lemma str_of_nat_inj j k : str_of_nat j = str_of_nat k -> j = k.
Proof.
  unfold str_of_nat. intros H.
  assert (Some (Nat.to_uint j) = Some (Nat.to_uint k)) as E.
  { rewrite <- !NilEmpty.usu, H. reflexivity. }
  injection E as E. rewrite <- (Unsigned.of_to j), <- (Unsigned.of_to k), E. reflexivity.
Qed.

Lemma digit_is_not c x :
  all_digits (String c "") = true -> all_digits (String x "") = false -> (x =? c)%char = false.
Proof.
  intros Hc Hx. destruct (Ascii.eqb_spec x c) as [->|]; [congruence|reflexivity].
Qed.

Lemma all_digits_cons c s :
  all_digits (String c s) = all_digits (String c "") && all_digits s.
Proof. cbn [all_digits]. rewrite andb_true_r. reflexivity. Qed.

Lemma startswith_number dk dj :
  all_digits dk = true -> all_digits dj = true ->
  startswith (dk ++ " ---") (dj ++ " ---") = true -> dk = dj.
Proof.
  revert dj. induction dk as [|a dk IH]; intros [|b dj] Hk Hj.
  - reflexivity.
  - rewrite all_digits_cons in Hj. apply andb_prop in Hj as [Hb _].
    rewrite str_app_nil_l, str_app_cons.
    change (startswith " ---" (String b (dj ++ " ---")))
      with ((" " =? b)%char && startswith "---" (dj ++ " ---")).
    rewrite (digit_is_not b " " Hb eq_refl). discriminate.
  - rewrite all_digits_cons in Hk. apply andb_prop in Hk as [Ha _].
    rewrite str_app_nil_l, str_app_cons.
    change (startswith (String a (dk ++ " ---")) " ---")
      with ((a =? " ")%char && startswith (dk ++ " ---") "---").
    rewrite Ascii.eqb_sym, (digit_is_not a " " Ha eq_refl). discriminate.
  - rewrite all_digits_cons in Hk, Hj.
    apply andb_prop in Hk as [_ Hk]. apply andb_prop in Hj as [_ Hj].
    rewrite !str_app_cons. cbn [startswith]. intros H.
    apply andb_prop in H as [Hab H]. apply Ascii.eqb_eq in Hab as ->.
    rewrite (IH dj Hk Hj H). reflexivity.
Qed.

Lemma occurrences_marker_in_tail dk ds :
  all_digits ds = true -> occurrences (marker_text dk) (ds ++ " ---") = 0%nat.
Proof.
  intros Hd. rewrite marker_text_eq. induction ds as [|d ds IH]; [reflexivity|].
  rewrite all_digits_cons in Hd. apply andb_prop in Hd as [Hd Hds].
  rewrite str_app_cons. cbn [occurrences startswith].
  rewrite (digit_is_not d "-" Hd eq_refl), (IH Hds). reflexivity.
Qed.

Lemma occurrences_marker_marker dk dj :
  all_digits dj = true ->
  occurrences (marker_text dk) (marker_text dj) =
    if startswith (dk ++ " ---") (dj ++ " ---") then 1%nat else 0%nat.
Proof.
  intros Hj.
  assert (occurrences (marker_text dk) (marker_text dj) =
          ((if startswith (dk ++ " ---") (dj ++ " ---") then 1 else 0)
           + occurrences (marker_text dk) (dj ++ " ---"))%nat) as ->
    by (rewrite !marker_text_eq; reflexivity).
  rewrite (occurrences_marker_in_tail dk dj Hj). lia.
Qed.

Lemma occurrences_page_marker k j :
  occurrences (page_marker k) (page_marker j) = if Nat.eqb k j then 1%nat else 0%nat.
Proof.
  unfold page_marker.
  rewrite (occurrences_marker_marker _ _ (all_digits_str_of_nat j)).
  destruct (Nat.eqb_spec k j) as [->|Hne].
  - rewrite startswith_refl. reflexivity.
  - destruct (startswith _ _) eqn:E; [|reflexivity].
    apply startswith_number in E; try apply all_digits_str_of_nat.
    apply str_of_nat_inj in E. congruence.
Qed.

Lemma has_newline_app a b : has_newline (a ++ b) = has_newline a || has_newline b.
Proof.
  induction a as [|c a IH]; [reflexivity|].
  rewrite str_app_cons. cbn [has_newline]. rewrite IH, orb_assoc. reflexivity.
Qed.

Lemma all_digits_no_newline ds : all_digits ds = true -> has_newline ds = false.
Proof.
  induction ds as [|d ds IH]; [reflexivity|]. intros H.
  rewrite all_digits_cons in H. apply andb_prop in H as [Hd Hds].
  cbn [has_newline]. rewrite (IH Hds), orb_false_r.
  rewrite Ascii.eqb_sym. exact (digit_is_not d "010" Hd eq_refl).
Qed.

Lemma page_marker_no_newline k : has_newline (page_marker k) = false.
Proof.
  unfold page_marker, marker_text. rewrite !has_newline_app.
  rewrite (all_digits_no_newline _ (all_digits_str_of_nat k)). reflexivity.
Qed.

Lemma page_marker_first k : exists r, page_marker k = String "-" r.
Proof. unfold page_marker. rewrite marker_text_eq. eexists; reflexivity. Qed.

Lemma page_marker_nonempty k : page_marker k <> "".
Proof. destruct (page_marker_first k) as [r ->]. discriminate. Qed.

Lemma app_last_inj (q a : string) (x y : ascii) :
  q ++ String x "" = a ++ String y "" -> q = a /\ x = y.
Proof.
  revert a. induction q as [|c q IH]; intros [|d a]; rewrite ?str_app_nil_l, ?str_app_cons.
  - intros [= ->]. split; reflexivity.
  - intros [= _ H]. destruct a; discriminate H.
  - intros [= _ H]. destruct q; discriminate H.
  - intros [= -> H]. destruct (IH a H) as [-> ->]. split; reflexivity.
Qed.

Lemma page_marker_end k : exists q, page_marker k = q ++ String "-" "".
Proof.
  exists ("--- Page " ++ str_of_nat k ++ " --"). unfold page_marker, marker_text.
  rewrite !str_app_assoc. reflexivity.
Qed.

Lemma page_marker_ends_plain k q x :
  page_marker k = q ++ String x "" -> is_ascii x = true /\ isspace x = false.
Proof.
  destruct (page_marker_end k) as [q' ->]. intros H.
  apply app_last_inj in H as [_ <-]. split; reflexivity.
Qed.

Lemma page_marker_begins_plain k x q :
  page_marker k = String x q -> is_ascii x = true /\ isspace x = false.
Proof.
  destruct (page_marker_first k) as [r ->]. intros [= <- _]. split; reflexivity.
Qed.

(** ** PDF text extraction *)

Lemma pages_loop_text n pages text :
  pages_loop n pages text = text ++ pages_text n pages.
Proof.
  revert n text. induction pages as [|page pages IH]; intros n text.
  - cbn [pages_loop pages_text]. rewrite str_app_nil_r. reflexivity.
  - cbn [pages_loop pages_text]. rewrite IH, !str_app_assoc. reflexivity.
Qed.

Lemma extract_text_from_pdf_eq pages :
  extract_text_from_pdf pages = strip (pages_text 0 pages).
Proof. unfold extract_text_from_pdf. rewrite pages_loop_text. reflexivity. Qed.

Lemma pages_text_cons n page pages :
  pages_text n (page :: pages) =
  String "010" (page_marker (S n) ++ String "010" (page ++ pages_text (S n) pages)).
Proof. cbn [pages_text]. rewrite Nat.add_1_r. reflexivity. Qed.

Lemma pages_text_head n pages :
  pages_text n pages = "" \/ exists r, pages_text n pages = String "010" r.
Proof.
  destruct pages as [|page pages]; [left; reflexivity|].
  right. rewrite pages_text_cons. eexists; reflexivity.
Qed.

Lemma occurrences_newline_cons p r :
  has_newline p = false -> p <> "" ->
  occurrences p (String "010" r) = occurrences p r.
Proof. intros Hp Hne. exact (occurrences_app_newline p "" r Hp Hne). Qed.

Lemma occurrences_before_pages p t n pages :
  has_newline p = false -> p <> "" ->
  occurrences p (t ++ pages_text n pages) =
    (occurrences p t + occurrences p (pages_text n pages))%nat.
Proof.
  intros Hp Hne. destruct (pages_text_head n pages) as [->|[r ->]].
  - rewrite str_app_nil_r. cbn [occurrences]. lia.
  - rewrite (occurrences_app_newline p t r Hp Hne).
    rewrite (occurrences_newline_cons p r Hp Hne). reflexivity.
Qed.

Lemma occurrences_pages_text k n pages :
  (forall t, In t pages -> occurrences (page_marker k) t = 0%nat) ->
  occurrences (page_marker k) (pages_text n pages) =
    if (n <? k)%nat && (k <=? n + length pages)%nat then 1%nat else 0%nat.
Proof.
  pose proof (page_marker_no_newline k) as Hnl.
  pose proof (page_marker_nonempty k) as Hne.
  revert n. induction pages as [|page pages IH]; intros n Hclean.
  - cbn [pages_text occurrences length].
    destruct (n <? k)%nat eqn:E1; [|reflexivity].
    destruct (k <=? n + 0)%nat eqn:E2; [|reflexivity].
    apply Nat.ltb_lt in E1. apply Nat.leb_le in E2. lia.
  - rewrite pages_text_cons.
    rewrite (occurrences_newline_cons _ _ Hnl Hne).
    rewrite (occurrences_app_newline _ _ _ Hnl Hne).
    rewrite (occurrences_before_pages _ _ _ _ Hnl Hne).
    rewrite (Hclean page (or_introl eq_refl)).
    rewrite (IH (S n) (fun t Ht => Hclean t (or_intror Ht))).
    rewrite occurrences_page_marker. cbn [occurrences length].
    destruct (Nat.eqb_spec k (S n)) as [->|Hk].
    + replace (S n <? S n)%nat with false by (symmetry; apply Nat.ltb_ge; lia).
      replace (n <? S n)%nat with true by (symmetry; apply Nat.ltb_lt; lia).
      replace (S n <=? n + S (length pages))%nat with true
        by (symmetry; apply Nat.leb_le; lia).
      reflexivity.
    + destruct (S n <? k)%nat eqn:E1.
      * apply Nat.ltb_lt in E1.
        replace (n <? k)%nat with true by (symmetry; apply Nat.ltb_lt; lia).
        replace (n + S (length pages))%nat with (S n + length pages)%nat by lia.
        cbn [andb]. lia.
      * apply Nat.ltb_ge in E1.
        replace (n <? k)%nat with false by (symmetry; apply Nat.ltb_ge; lia).
        reflexivity.
Qed.

Lemma pages_text_marker k n pages :
  (n < k <= n + length pages)%nat ->
  exists a c, pages_text n pages = a ++ page_marker k ++ c.
Proof.
  revert n. induction pages as [|page pages IH]; intros n Hk; cbn [length] in Hk; [lia|].
  rewrite pages_text_cons. destruct (Nat.eq_dec k (S n)) as [->|Hne].
  - exists (String "010" ""). eexists. reflexivity.
  - destruct (IH (S n) ltac:(lia)) as (a & c & ->).
    exists (String "010" (page_marker (S n) ++ String "010" (page ++ a))), c.
    rewrite !str_app_cons, !str_app_assoc, !str_app_cons, !str_app_assoc. reflexivity.
Qed.

Lemma pages_text_two_markers j k n pages :
  (n < j)%nat -> (j < k)%nat -> (k <= n + length pages)%nat ->
  exists a b c, pages_text n pages = a ++ page_marker j ++ b ++ page_marker k ++ c.
Proof.
  revert n. induction pages as [|page pages IH]; intros n Hj Hjk Hk;
    cbn [length] in Hk; [lia|].
  rewrite pages_text_cons. destruct (Nat.eq_dec j (S n)) as [->|Hne].
  - destruct (pages_text_marker k (S n) pages ltac:(lia)) as (a & c & ->).
    exists (String "010" ""), (String "010" (page ++ a)), c.
    rewrite !str_app_cons, !str_app_assoc. reflexivity.
  - destruct (IH (S n) ltac:(lia) Hjk ltac:(lia)) as (a & b & c & ->).
    exists (String "010" (page_marker (S n) ++ String "010" (page ++ a))), b, c.
    rewrite !str_app_cons, !str_app_assoc, !str_app_cons, !str_app_assoc. reflexivity.
Qed.

Lemma page_marker_not_blank k : whitespace_only (page_marker k) = false.
Proof.
  destruct (page_marker_first k) as [r ->].
  rewrite <- (str_app_nil_l (String "-" r)). apply whitespace_only_plain; reflexivity.
Qed.

Lemma rstrip_marker_app k c : exists c', rstrip (page_marker k ++ c) = page_marker k ++ c'.
Proof.
  destruct (page_marker_end k) as [q ->].
  destruct (rstrip_keeps q "-" c eq_refl eq_refl) as [c' H].
  exists c'. rewrite !str_app_assoc, !str_app_cons, !str_app_nil_l. exact H.
Qed.

Lemma strip_between_markers a j b k c :
  exists a' c', strip (a ++ page_marker j ++ b ++ page_marker k ++ c) =
                a' ++ page_marker j ++ b ++ page_marker k ++ c'.
Proof.
  unfold strip. destruct (page_marker_first j) as [r Hr].
  exists (lstrip a).
  assert (Hl : lstrip (a ++ page_marker j ++ b ++ page_marker k ++ c)
               = lstrip a ++ page_marker j ++ b ++ page_marker k ++ c).
  { rewrite Hr, str_app_cons. apply lstrip_app; reflexivity. }
  rewrite Hl. destruct (page_marker_end k) as [q Hq].
  destruct (rstrip_keeps (lstrip a ++ page_marker j ++ b ++ q) "-" c eq_refl eq_refl)
    as [c' H].
  exists c'. rewrite Hq at 1 2.
  rewrite !str_app_assoc, !str_app_cons, !str_app_nil_l in *. exact H.
Qed.

Lemma occurrences_strip k s :
  occurrences (page_marker k) (strip s) = occurrences (page_marker k) s.
Proof.
  unfold strip.
  rewrite (occurrences_rstrip _ _ (page_marker_nonempty k) (page_marker_ends_plain k)).
  apply occurrences_lstrip; [apply page_marker_begins_plain|apply page_marker_nonempty].
Qed.

(** C8 (as amended).  For every N-page document, the extracted text contains
    the marker of every page k from 1 to N, and for pages j < k a marker of
    page j stands before a marker of page k.  The marker of page k occurs
    exactly once provided no page's own text contains the marker of one of
    the pages 1 to N; text of a page that reads like a marker is counted as
    one. *)
Theorem page_markers_in_page_order (pages : list string) :
  (forall k, (1 <= k <= length pages)%nat ->
     (1 <= occurrences (page_marker k) (extract_text_from_pdf pages))%nat) /\
  (forall j k, (1 <= j)%nat -> (j < k)%nat -> (k <= length pages)%nat ->
     exists a b c,
       extract_text_from_pdf pages = a ++ page_marker j ++ b ++ page_marker k ++ c) /\
  ((forall t k, In t pages -> (1 <= k <= length pages)%nat ->
      occurrences (page_marker k) t = 0%nat) ->
   forall k, (1 <= k <= length pages)%nat ->
     occurrences (page_marker k) (extract_text_from_pdf pages) = 1%nat).
Proof.
  rewrite extract_text_from_pdf_eq. split; [|split].
  - intros k Hk. rewrite occurrences_strip.
    destruct (pages_text_marker k 0 pages ltac:(lia)) as (a & c & ->).
    apply occurrences_substring, page_marker_nonempty.
  - intros j k Hj Hjk Hk.
    destruct (pages_text_two_markers j k 0 pages ltac:(lia) Hjk ltac:(lia))
      as (a & b & c & ->).
    destruct (strip_between_markers a j b k c) as (a' & c' & ->).
    exists a', b, c'. reflexivity.
  - intros Hclean k Hk. rewrite occurrences_strip.
    rewrite (occurrences_pages_text k 0 pages (fun t Ht => Hclean t k Ht Hk)).
    replace (0 <? k)%nat with true by (symmetry; apply Nat.ltb_lt; lia).
    replace (k <=? 0 + length pages)%nat with true by (symmetry; apply Nat.leb_le; lia).
    reflexivity.
Qed.

Lemma page_markers_in_page_order_witness :
  occurrences (page_marker 2) (extract_text_from_pdf ["Hello"; "World"]) = 1%nat
  /\ exists a b c,
       extract_text_from_pdf ["Hello"; "World"] =
       a ++ page_marker 1 ++ b ++ page_marker 2 ++ c.
Proof.
  split.
  - apply (proj2 (proj2 (page_markers_in_page_order ["Hello"; "World"]))).
    + intros t k [<-|[<-|[]]] [H1 H2]; cbn [length] in H2;
        (assert (k = 1 \/ k = 2)%nat as [->| ->] by lia); vm_compute; reflexivity.
    + cbn [length]. lia.
  - apply (proj1 (proj2 (page_markers_in_page_order ["Hello"; "World"])));
      cbn [length]; lia.
Defined.

(** A one-page document whose page text reads [--- Page 1 ---]. *)
Lemma marker_text_on_a_page_is_counted :
  ~ exactly_one_marker_per_page ["--- Page 1 ---"].
Proof.
  intros H. specialize (H 1%nat ltac:(cbn; lia)). vm_compute in H. discriminate H.
Qed.

Lemma lstrip_marker_app k s : lstrip (page_marker k ++ s) = page_marker k ++ s.
Proof.
  destruct (page_marker_first k) as [r ->].
  rewrite str_app_cons. apply lstrip_plain; reflexivity.
Qed.

Lemma extract_nonempty page pages :
  exists r, extract_text_from_pdf (page :: pages) = page_marker 1 ++ r.
Proof.
  rewrite extract_text_from_pdf_eq, pages_text_cons. unfold strip.
  rewrite (lstrip_space "010") by reflexivity.
  rewrite lstrip_marker_app. apply rstrip_marker_app.
Qed.

Lemma rstrip_page_marker k : rstrip (page_marker k) = page_marker k.
Proof.
  destruct (page_marker_end k) as [q ->]. apply rstrip_plain_end; reflexivity.
Qed.

Lemma rstrip_app_marker a k c :
  rstrip (a ++ page_marker k ++ c) = a ++ rstrip (page_marker k ++ c).
Proof.
  destruct (page_marker_first k) as [r ->]. rewrite str_app_cons.
  apply rstrip_app; [reflexivity|].
  rewrite <- (str_app_nil_l (String "-" (r ++ c))). apply whitespace_only_plain; reflexivity.
Qed.

Lemma concat_cons2 sep (x y : string) (l : list string) :
  String.concat sep (x :: y :: l) = x ++ sep ++ String.concat sep (y :: l).
Proof. reflexivity. Qed.

Lemma rstrip_empty_pages m n :
  rstrip (page_marker (S m) ++ String "010" ("" ++ pages_text (S m) (repeat "" n)))
  = markers_only (S m) (S n).
Proof.
  revert m. induction n as [|n IH]; intros m.
  - cbn [repeat pages_text]. rewrite rstrip_app_blank by reflexivity.
    apply rstrip_page_marker.
  - cbn [repeat]. rewrite pages_text_cons, str_app_nil_l.
    change (page_marker (S m) ++
            String "010" (String "010" (page_marker (S (S m)) ++
              String "010" ("" ++ pages_text (S (S m)) (repeat "" n)))))
      with (page_marker (S m) ++ (newline ++ newline) ++
            (page_marker (S (S m)) ++
              String "010" ("" ++ pages_text (S (S m)) (repeat "" n)))).
    rewrite <- str_app_assoc, rstrip_app_marker.
    rewrite IH, str_app_assoc. unfold markers_only.
    cbn [seq map]. rewrite concat_cons2. reflexivity.
Qed.

(** C9 (as amended).  Text extraction is a total function of the page texts:
    it raises nothing of its own.  It returns the empty string exactly for a
    document without pages; for a document of n pages none of which has
    extractable text it returns the n page markers, joined by blank lines. *)
Theorem extraction_without_text_returns_markers :
  (forall pages, extract_text_from_pdf pages = "" <-> pages = []) /\
  (forall n, extract_text_from_pdf (repeat "" n) = markers_only 1 n).
Proof.
  split.
  - intros pages. split.
    + destruct pages as [|page pages]; [reflexivity|].
      destruct (extract_nonempty page pages) as [r ->].
      destruct (page_marker_first 1) as [r' ->]. discriminate.
    + intros ->. reflexivity.
  - intros [|n]; [reflexivity|].
    rewrite extract_text_from_pdf_eq. cbn [repeat]. rewrite pages_text_cons.
    unfold strip. rewrite (lstrip_space "010") by reflexivity.
    rewrite lstrip_marker_app. apply rstrip_empty_pages.
Qed.

Lemma extraction_without_text_returns_markers_witness :
  extract_text_from_pdf ["Hello"] <> "".
Proof.
  intros H.
  apply (proj1 (proj1 extraction_without_text_returns_markers ["Hello"])) in H.
  discriminate H.
Defined.

(** The claim C9 as it is worded, on a scanned one-page document: the page
    has no extractable text, the result is not the empty string. *)
Lemma scanned_page_yields_its_marker :
  extract_text_from_pdf [""] = "--- Page 1 ---"
  /\ extract_text_from_pdf [""] <> "".
Proof. split; [vm_compute; reflexivity|vm_compute; discriminate]. Qed.

(** ** The title trigger *)

Import Db.

Lemma LENGTH_le s : (LENGTH s <= String.length s)%nat.
Proof.
  induction s as [|c s IH]; [reflexivity|].
  cbn [LENGTH String.length]. destruct (continuation c); lia.
Qed.

Lemma LENGTH_app s t : LENGTH (s ++ t) = (LENGTH s + LENGTH t)%nat.
Proof.
  induction s as [|c s IH]; [reflexivity|].
  rewrite str_app_cons. cbn [LENGTH]. rewrite IH. destruct (continuation c); reflexivity.
Qed.

Lemma LENGTH_SUBSTRING s n : (LENGTH (SUBSTRING s n) <= n)%nat.
Proof.
  revert n. induction s as [|c s IH]; intros n; [cbn; lia|].
  cbn [SUBSTRING]. destruct (continuation c) eqn:Hc.
  - cbn [LENGTH]. rewrite Hc. apply IH.
  - destruct n as [|n]; [reflexivity|]. cbn [LENGTH]. rewrite Hc.
    specialize (IH n). lia.
Qed.

(** Counting first bytes is counting characters: the text cut into its
    characters, with the piece before the first character, if any, on its
    own. *)
Lemma characters_shape c r :
  exists x xs,
    characters (String c r) = x :: xs /\
    if continuation c
    then LENGTH (String c r) = length xs /\
         forall n, SUBSTRING (String c r) n = x ++ foldr String.append "" (take n xs)
    else LENGTH (String c r) = S (length xs) /\
         SUBSTRING (String c r) 0 = "" /\
         forall n, SUBSTRING (String c r) (S n) = x ++ foldr String.append "" (take n xs).
Proof.
  revert c. induction r as [|c' r IH]; intros c.
  - exists (String c ""), []. split; [reflexivity|].
    cbn [LENGTH SUBSTRING]. destruct (continuation c).
    + split; [reflexivity|]. intros n. rewrite take_nil. reflexivity.
    + split; [reflexivity|]. split; [reflexivity|]. intros n. rewrite take_nil. reflexivity.
  - destruct (IH c') as (x' & xs' & Hch & Hrest).
    change (characters (String c (String c' r)))
      with (match characters (String c' r) with
            | x :: xs =>
                if continues (String c' r) then String c x :: xs
                else String c "" :: x :: xs
            | [] => [String c ""]
            end).
    rewrite Hch. change (continues (String c' r)) with (continuation c').
    destruct (continuation c') eqn:Hc'.
    + destruct Hrest as [Hlen Hsub]. exists (String c x'), xs'. split; [reflexivity|].
      change (LENGTH (String c (String c' r)))
        with (if continuation c then LENGTH (String c' r) else S (LENGTH (String c' r))).
      destruct (continuation c) eqn:Hc.
      * split; [exact Hlen|]. intros n.
        change (SUBSTRING (String c (String c' r)) n)
          with (if continuation c then String c (SUBSTRING (String c' r) n)
                else match n with
                     | O => EmptyString
                     | S n' => String c (SUBSTRING (String c' r) n')
                     end).
        rewrite Hc, Hsub, str_app_cons. reflexivity.
      * split; [rewrite Hlen; reflexivity|].
        split; [cbn [SUBSTRING]; rewrite Hc; reflexivity|]. intros n.
        change (SUBSTRING (String c (String c' r)) (S n))
          with (if continuation c then String c (SUBSTRING (String c' r) (S n))
                else String c (SUBSTRING (String c' r) n)).
        rewrite Hc, Hsub, str_app_cons. reflexivity.
    + destruct Hrest as (Hlen & Hsub0 & Hsub).
      exists (String c ""), (x' :: xs'). split; [reflexivity|].
      assert (Hn : forall n, String c (SUBSTRING (String c' r) n)
                             = (String c "" ++ foldr String.append "" (take n (x' :: xs')))).
      { intros [|n].
        - rewrite Hsub0. reflexivity.
        - rewrite Hsub. cbn [take foldr]. rewrite str_app_cons, str_app_nil_l. reflexivity. }
      change (LENGTH (String c (String c' r)))
        with (if continuation c then LENGTH (String c' r) else S (LENGTH (String c' r))).
      destruct (continuation c) eqn:Hc.
      * split; [rewrite Hlen; reflexivity|]. intros n.
        change (SUBSTRING (String c (String c' r)) n)
          with (if continuation c then String c (SUBSTRING (String c' r) n)
                else match n with
                     | O => EmptyString
                     | S n' => String c (SUBSTRING (String c' r) n')
                     end).
        rewrite Hc. apply Hn.
      * split; [rewrite Hlen; reflexivity|].
        split; [cbn [SUBSTRING]; rewrite Hc; reflexivity|]. intros n.
        change (SUBSTRING (String c (String c' r)) (S n))
          with (if continuation c then String c (SUBSTRING (String c' r) (S n))
                else String c (SUBSTRING (String c' r) n)).
        rewrite Hc. apply Hn.
Qed.

Lemma LENGTH_characters s :
  begins_with_character s = true -> LENGTH s = length (characters s).
Proof.
  destruct s as [|c r]; [reflexivity|]. unfold begins_with_character. cbn [continues].
  intros Hc. destruct (characters_shape c r) as (x & xs & -> & H).
  destruct (continuation c); [discriminate|]. destruct H as [-> _]. reflexivity.
Qed.

Lemma SUBSTRING_first_chars s n :
  begins_with_character s = true -> SUBSTRING s n = first_chars n s.
Proof.
  destruct s as [|c r]; [intros _; destruct n; reflexivity|].
  unfold begins_with_character. cbn [continues]. intros Hc. unfold first_chars.
  destruct (characters_shape c r) as (x & xs & -> & H).
  destruct (continuation c); [discriminate|]. destruct H as (_ & H0 & Hn).
  destruct n as [|n]; [exact H0|]. rewrite Hn. reflexivity.
Qed.

Lemma other_message_exists_after_insert d NEW :
  existsb (fun m => (id m =? id NEW)%N) (messages d) = false ->
  other_message_exists
    {| conversations := conversations d; messages := messages d ++ [NEW] |} NEW
  = negb (is_first_message d NEW).
Proof.
  unfold other_message_exists, is_first_message. cbn [messages].
  induction (Db.messages d) as [|m ms IH]; intros Hpk.
  - cbn. rewrite N.eqb_refl, N.eqb_refl. reflexivity.
  - cbn [existsb] in Hpk. apply orb_false_elim in Hpk as [Hm Hms].
    cbn [app existsb forallb]. rewrite (IH Hms), Hm. cbn [negb].
    rewrite andb_true_r, negb_andb, negb_involutive. reflexivity.
Qed.

Lemma update_default_title_other c t convs c' :
  c' <> c -> update_default_title c t convs !! c' = convs !! c'.
Proof.
  intros Hne. unfold update_default_title.
  destruct (convs !! c) as [row|]; [|reflexivity].
  destruct (title row) as [old|]; [|reflexivity].
  destruct (String.eqb old default_title); [|reflexivity].
  apply lookup_insert_ne. congruence.
Qed.

Lemma update_default_title_hit c t convs row :
  convs !! c = Some row -> title row = Some default_title ->
  update_default_title c t convs !! c = Some {| user_id := user_id row; title := Some t |}.
Proof.
  intros Hrow Ht. unfold update_default_title. rewrite Hrow, Ht.
  rewrite String.eqb_refl. apply lookup_insert_eq.
Qed.

Lemma update_default_title_miss c t convs :
  title <$> convs !! c <> Some (Some default_title) ->
  update_default_title c t convs = convs.
Proof.
  intros Hne. unfold update_default_title.
  destruct (convs !! c) as [row|]; [|reflexivity].
  destruct (title row) as [old|] eqn:Ht; [|reflexivity].
  destruct (String.eqb_spec old default_title) as [->|]; [|reflexivity].
  exfalso. apply Hne. cbn. rewrite Ht. reflexivity.
Qed.

(** C10.  When a message is inserted, the stored messages grow by that
    message and titles of other conversations are never touched.  If it is
    the first message of its conversation and its role is user, then a
    conversation that still has the default title gets as title the first 50
    characters of the content, followed by three dots exactly when the
    content is longer than 50 characters, and a conversation with any other
    title keeps it.  Characters, not bytes, are counted; the content is text
    of the database, of which is used that it does not begin in the middle
    of a character.  A message of another role, and any message that is not
    the first of its conversation, changes no title. *)
Theorem title_from_first_user_message (d d' : db) (NEW : message) :
  insert_message d NEW = Some d' ->
  messages d' = (messages d ++ [NEW])%list /\
  (forall c, c <> conversation_id NEW -> conversations d' !! c = conversations d !! c) /\
  (is_first_message d NEW = true -> msg_role NEW = user ->
     (title_of d (conversation_id NEW) = Some (Some default_title) ->
        (begins_with_character (content NEW) = true ->
         title_of d' (conversation_id NEW) = Some (Some (derived_title (content NEW))))
        /\ user_id <$> conversations d' !! conversation_id NEW
           = user_id <$> conversations d !! conversation_id NEW)
     /\ (title_of d (conversation_id NEW) <> Some (Some default_title) ->
           conversations d' = conversations d)) /\
  (msg_role NEW <> user -> conversations d' = conversations d) /\
  (is_first_message d NEW = false -> conversations d' = conversations d).
Proof.
  unfold insert_message.
  destruct (existsb _ _) eqn:Hpk; [discriminate|].
  destruct (negb _); [discriminate|].
  destruct (match model NEW with Some _ => _ | None => _ end); [discriminate|].
  intros [= <-]. unfold auto_generate_conversation_title.
  rewrite (other_message_exists_after_insert d NEW Hpk), negb_involutive.
  destruct (is_first_message d NEW) eqn:Hfirst.
  - destruct (msg_role NEW) eqn:Hrole; cbn [messages conversations];
      (split; [reflexivity|]).
    + split; [intros c Hc; apply update_default_title_other; exact Hc|].
      split; [|split; [congruence|discriminate]].
      intros _ _. unfold title_of, derived_title. cbn [conversations]. split.
      * intros Ht. destruct (conversations d !! conversation_id NEW) as [row|] eqn:Hrow;
          [|discriminate].
        cbn in Ht. injection Ht as Ht.
        rewrite (update_default_title_hit _ _ _ row Hrow Ht).
        split; [|reflexivity]. intros Htext.
        rewrite (SUBSTRING_first_chars _ 50 Htext), (LENGTH_characters _ Htext).
        cbn [fmap option_fmap option_map title]. do 2 f_equal.
        destruct (50 <? length (characters (content NEW)))%nat; [reflexivity|].
        rewrite str_app_nil_r. reflexivity.
      * intros Ht. apply update_default_title_miss. exact Ht.
    + split; [intros c _; reflexivity|]. split; [discriminate|].
      split; [intros _; reflexivity|discriminate].
    + split; [intros c _; reflexivity|]. split; [discriminate|].
      split; [intros _; reflexivity|discriminate].
  - cbn [messages conversations]. split; [reflexivity|].
    split; [intros c _; reflexivity|]. split; [discriminate|].
    split; intros _; reflexivity.
Qed.

Lemma title_from_first_user_message_witness :
  (exists d',
     insert_message one_new_conversation first_question = Some d' /\
     title_of d' 7%N =
       Some (Some "Please summarise the attached quarterly report in ...")) /\
  (exists d',
     insert_message one_new_conversation MoreSamples.accented_question = Some d' /\
     title_of d' 7%N =
       Some (Some (MoreSamples.copies 50 MoreSamples.e_acute ++ "..."))).
Proof.
  split.
  - eexists. split; [reflexivity|].
    apply (proj1 (proj1 (proj1 (proj2 (proj2
             (title_from_first_user_message one_new_conversation _ first_question
                eq_refl))) eq_refl eq_refl) eq_refl)).
    reflexivity.
  - eexists. split; [reflexivity|].
    apply (proj1 (proj1 (proj1 (proj2 (proj2
             (title_from_first_user_message one_new_conversation _
                MoreSamples.accented_question eq_refl))) eq_refl eq_refl) eq_refl)).
    reflexivity.
Defined.

(** ** The chat turn *)

Import Chat.

Lemma insert_message_messages d NEW d' :
  insert_message d NEW = Some d' -> messages d' = (messages d ++ [NEW])%list.
Proof.
  unfold insert_message.
  destruct (existsb _ _); [discriminate|].
  destruct (negb _); [discriminate|].
  destruct (match model NEW with Some _ => _ | None => _ end); [discriminate|].
  intros [= <-]. unfold auto_generate_conversation_title.
  destruct (negb _); [|reflexivity]. destruct (msg_role NEW); reflexivity.
Qed.

Lemma forward_strings ys fragments :
  forward ys = (fragments, true) -> ys = map PStr fragments.
Proof.
  revert fragments. induction ys as [|y ys IH]; intros fragments.
  - intros [= <-]. reflexivity.
  - cbn [forward]. destruct y; try discriminate.
    destruct (forward ys) as [cs ok]. intros [= <- ->].
    cbn [map]. rewrite (IH cs eq_refl). reflexivity.
Qed.

Lemma events_of_emits (fragments : list string) (rest : list action) :
  omap (fun a => match a with Emit e => Some e | _ => None end)
       (map (fun c => Emit (EContent c)) fragments ++ rest)%list
  = (map EContent fragments ++
     omap (fun a => match a with Emit e => Some e | _ => None end) rest)%list.
Proof.
  induction fragments as [|c fragments IH]; [reflexivity|].
  cbn [map app omap list_omap]. cbn [omap] in IH. rewrite IH. reflexivity.
Qed.

Lemma contents_of_events (fragments : list string) (rest : list event) :
  omap (fun e => match e with EContent c => Some c | _ => None end)
       (map EContent fragments ++ rest)%list
  = (fragments ++
     omap (fun e => match e with EContent c => Some c | _ => None end) rest)%list.
Proof.
  induction fragments as [|c fragments IH]; [reflexivity|].
  cbn [map app omap list_omap]. cbn [omap] in IH. rewrite IH. reflexivity.
Qed.

Lemma last_error_not_done (l : list event) reason : last (l ++ [EError reason])%list <> Some EDone.
Proof. rewrite last_snoc. discriminate. Qed.

(** The shape of every turn: the rejected request, or the opened stream with
    its user message stored before anything else happens. *)
Lemma chat_stream_cases system_prompt d req server_lines :
  let o := chat_stream system_prompt d req server_lines in
  (save_message d (req_conversation req) user (req_message req) None = None /\
   o = {| store := d; stream_opened := false; trace := [SaveUserMessage false] |})
  \/
  (exists d1 rest,
     save_message d (req_conversation req) user (req_message req) None = Some d1 /\
     messages d1 = (messages d ++ [user_row d req])%list /\
     stream_opened o = true /\
     trace o = (SaveUserMessage true :: GetHistory :: rest) /\
     (store o = d1 \/
      exists a, messages (store o) = (messages d1 ++ [a])%list /\
                msg_role a = assistant)).
Proof.
  intros o. subst o. unfold chat_stream.
  destruct (save_message d _ user _ None) as [d1|] eqn:Hsave; [right|left; split; reflexivity].
  pose proof (insert_message_messages _ _ _ Hsave) as Hm1.
  exists d1.
  destruct (Context.prepare_context _ _) as [context|].
  2:{ eexists. repeat split; [exact Hm1|left; reflexivity]. }
  destruct (generate_response_stream server_lines) as [ys e].
  destruct (forward ys) as [fragments strings].
  destruct strings, e;
    try (eexists; repeat split; [exact Hm1|left; reflexivity]).
  - destruct (save_message d1 _ assistant _ _) as [d2|] eqn:Hsave2.
    + eexists. repeat split; [exact Hm1|]. right.
      eexists. split; [exact (insert_message_messages _ _ _ Hsave2)|reflexivity].
    + eexists. repeat split; [exact Hm1|left; reflexivity].
  - destruct (save_message d1 _ assistant _ _) as [d2|] eqn:Hsave2.
    + eexists. repeat split; [exact Hm1|]. right.
      eexists. split; [exact (insert_message_messages _ _ _ Hsave2)|reflexivity].
    + eexists. repeat split; [exact Hm1|left; reflexivity].
Qed.

(** C3.  In every turn the write of the user's message is the first thing the
    handler does: a call of the model server is preceded in the turn's
    trace by the successful write, and at that point the message is in the
    datastore.  If the write fails, the turn ends there: the datastore is
    unchanged, no stream is opened, the model server is not called and no
    event is emitted. *)
Theorem user_message_is_saved_before_dispatch
    (system_prompt : string) (d : db) (req : request) (server_lines : list string) :
  let o := chat_stream system_prompt d req server_lines in
  (exists ok rest, trace o = SaveUserMessage ok :: rest) /\
  (forall context model_name,
     In (CallModelServer context model_name) (trace o) ->
     (exists rest, trace o = SaveUserMessage true :: rest) /\
     In (user_row d req) (messages (store o))) /\
  (save_message d (req_conversation req) user (req_message req) None = None ->
     store o = d /\ stream_opened o = false /\ events o = [] /\
     forall context model_name, ~ In (CallModelServer context model_name) (trace o)).
Proof.
  intros o.
  destruct (chat_stream_cases system_prompt d req server_lines)
    as [[Hfail Ho]|(d1 & rest & Hsave & Hm1 & Hopen & Htrace & Hstore)];
    fold o in Ho || fold o in Hopen, Htrace, Hstore.
  - rewrite Ho. cbn [trace store stream_opened]. split; [eexists _, _; reflexivity|].
    split.
    + intros context model_name [Hin|[]]. discriminate Hin.
    + intros _. repeat split. intros context model_name [Hin|[]]. discriminate Hin.
  - split; [exists true; eexists; exact Htrace|]. split.
    + intros context model_name _. split; [eexists; exact Htrace|].
      destruct Hstore as [->|(a & -> & _)]; rewrite Hm1.
      * apply in_or_app. right. left. reflexivity.
      * apply in_or_app. left. apply in_or_app. right. left. reflexivity.
    + rewrite Hsave. discriminate.
Qed.

Lemma user_message_is_saved_before_dispatch_witness :
  stream_opened (chat_stream "You are an AI assistant" empty_store hello_request [done_line])
  = false
  /\ In (user_row one_new_conversation hello_request)
        (messages (store (chat_stream "You are an AI assistant" one_new_conversation
                            hello_request [the_line; done_line]))).
Proof.
  split.
  - apply (proj2 (proj2 (user_message_is_saved_before_dispatch
                           "You are an AI assistant" empty_store hello_request [done_line]))).
    vm_compute. reflexivity.
  - eapply (proj1 (proj2 (user_message_is_saved_before_dispatch
                           "You are an AI assistant" one_new_conversation
                           hello_request [the_line; done_line]))).
    vm_compute. right. right. left. reflexivity.
Defined.

(** C2.  For every turn that ends with the done event, the datastore has
    grown by exactly the user message followed by one assistant message; the
    assistant message belongs to the same conversation, its content is the
    concatenation, in forwarding order, of the fragments forwarded to the
    client, which are exactly the values the relay yielded, and its model is
    the selected model identifier. *)
Theorem stored_reply_is_concatenation_of_fragments
    (system_prompt : string) (d : db) (req : request) (server_lines : list string) :
  let o := chat_stream system_prompt d req server_lines in
  last (events o) = Some EDone ->
  exists a,
    messages (store o) = (messages d ++ [user_row d req; a])%list /\
    msg_role a = assistant /\
    conversation_id a = req_conversation req /\
    content a = String.concat "" (forwarded o) /\
    model a = Some (req_model req) /\
    map PStr (forwarded o) = fst (generate_response_stream server_lines) /\
    events o = (map EContent (forwarded o) ++ [EDone])%list.
Proof.
  intros o. subst o. unfold chat_stream.
  destruct (save_message d _ user _ None) as [d1|] eqn:Hsave; [|discriminate].
  pose proof (insert_message_messages _ _ _ Hsave) as Hm1.
  destruct (Context.prepare_context _ _) as [context|]; [|discriminate].
  destruct (generate_response_stream server_lines) as [ys e].
  destruct (forward ys) as [fragments strings] eqn:Hfw.
  assert (forall l : list action,
            events {| store := d1; stream_opened := true;
                      trace := ([SaveUserMessage true; GetHistory;
                                 CallModelServer context (req_model req)]
                                ++ map (fun c => Emit (EContent c)) fragments) ++ l |}
            = (map EContent fragments ++
               omap (fun a => match a with Emit e => Some e | _ => None end) l)%list)
    as Hev.
  { intros l. unfold events. cbn [trace]. rewrite <- app_assoc.
    cbn [app omap list_omap]. exact (events_of_emits fragments l). }
  destruct strings.
  2:{ intros H. exfalso. revert H. rewrite Hev. cbn [omap list_omap].
      destruct e; apply last_error_not_done. }
  destruct e.
  3:{ intros H. exfalso. revert H. rewrite Hev. cbn [omap list_omap].
      apply last_error_not_done. }
  all: destruct (save_message d1 _ assistant _ _) as [d2|] eqn:Hsave2;
    [|intros H; exfalso; revert H; rewrite Hev; cbn [omap list_omap];
      apply last_error_not_done].
  all: intros _; eexists; cbn [store];
    (split; [rewrite (insert_message_messages _ _ _ Hsave2), Hm1, <- app_assoc;
             reflexivity|]);
    cbn [msg_role conversation_id content model];
    unfold forwarded, events; cbn [trace]; rewrite <- app_assoc;
    cbn [app omap list_omap]; rewrite (events_of_emits fragments);
    cbn [omap list_omap]; rewrite (contents_of_events fragments);
    cbn [omap list_omap]; rewrite app_nil_r;
    repeat split; symmetry; exact (forward_strings _ _ Hfw).
Qed.

Lemma stored_reply_is_concatenation_of_fragments_witness :
  exists a,
    messages (store (chat_stream "You are an AI assistant" one_new_conversation
                       hello_request [the_line; end_line; done_line]))
    = [user_row one_new_conversation hello_request; a]
    /\ content a = "The end."
    /\ model a = Some "qwen3-vl:8b".
Proof.
  destruct (stored_reply_is_concatenation_of_fragments
              "You are an AI assistant" one_new_conversation hello_request
              [the_line; end_line; done_line]) as (a & Hm & _ & _ & Hc & Hmodel & _).
  - vm_compute. reflexivity.
  - exists a. split; [exact Hm|]. split; [exact Hc|exact Hmodel].
Defined.

(** *** The turn does complete *)

Lemma next_id_fresh d :
  existsb (fun m => (id m =? next_id d)%N) (messages d) = false.
Proof.
  unfold next_id.
  assert (forall l : list message, forall b : N,
            (foldr N.max 0%N (map id l) <= b)%N ->
            existsb (fun m => (id m =? N.succ b)%N) l = false) as H.
  { induction l as [|m l IH]; intros b Hb; [reflexivity|].
    cbn [map foldr] in Hb. cbn [existsb].
    rewrite (IH b ltac:(lia)), orb_false_r. apply N.eqb_neq. lia. }
  apply H. lia.
Qed.

Lemma update_default_title_keeps c t convs c' :
  is_Some (convs !! c') -> is_Some (update_default_title c t convs !! c').
Proof.
  intros Hc'. unfold update_default_title.
  destruct (convs !! c) as [row|] eqn:Hrow; [|exact Hc'].
  destruct (title row) as [old|]; [|exact Hc'].
  destruct (String.eqb old default_title); [|exact Hc'].
  destruct (decide (c = c')) as [->|Hne].
  - rewrite lookup_insert_eq. eexists; reflexivity.
  - rewrite lookup_insert_ne by exact Hne. exact Hc'.
Qed.

Lemma insert_message_keeps_conversation d NEW d' :
  insert_message d NEW = Some d' ->
  is_Some (conversations d' !! conversation_id NEW).
Proof.
  unfold insert_message.
  destruct (existsb _ _); [discriminate|].
  destruct (bool_decide (is_Some (conversations d !! conversation_id NEW))) eqn:Hfk;
    [|discriminate].
  apply bool_decide_eq_true in Hfk. cbn [negb].
  destruct (match model NEW with Some _ => _ | None => _ end); [discriminate|].
  intros [= <-]. unfold auto_generate_conversation_title.
  destruct (negb _); [|exact Hfk].
  destruct (msg_role NEW); try exact Hfk.
  cbn [conversations]. apply update_default_title_keeps. exact Hfk.
Qed.

Lemma save_message_succeeds d c r text m :
  is_Some (conversations d !! c) ->
  match m with Some x => (String.length x <= 100)%nat | None => True end ->
  is_Some (save_message d c r text m).
Proof.
  intros Hfk Hlen. unfold save_message, insert_message. cbn [id conversation_id model].
  rewrite next_id_fresh. rewrite bool_decide_eq_true_2 by exact Hfk. cbn [negb].
  destruct m as [x|].
  - replace (100 <? LENGTH x)%nat with false
      by (symmetry; apply Nat.ltb_ge; pose proof (LENGTH_le x); lia).
    eexists; reflexivity.
  - eexists; reflexivity.
Qed.

Lemma forward_map_PStr fragments : forward (map PStr fragments) = (fragments, true).
Proof.
  induction fragments as [|c fragments IH]; [reflexivity|].
  cbn [map forward]. rewrite IH. reflexivity.
Qed.

Lemma prepare_context_of_rows (rows : list message) system_prompt :
  is_Some (Context.prepare_context (map row_dict rows) system_prompt).
Proof.
  destruct (append_all_entries
              [PDict [("role", PStr "system"); ("content", PStr system_prompt)]]
              (map row_dict rows)) as (entries & Happ & _).
  - apply Forall_forall. intros m Hin. apply list_elem_of_In, in_map_iff in Hin as (row & <- & _).
    eexists; reflexivity.
  - unfold Context.prepare_context. rewrite Happ. eexists; reflexivity.
Qed.

(** A turn on an existing conversation whose stream ends at a completion line
    (or at the end of the response) after yielding strings, with a model
    identifier that fits its column, ends with the done event. *)
Lemma completed_stream_ends_with_done system_prompt d req server_lines fragments e :
  is_Some (conversations d !! req_conversation req) ->
  (String.length (req_model req) <= 100)%nat ->
  generate_response_stream server_lines = (map PStr fragments, e) ->
  (forall x, e <> Raised x) ->
  events (chat_stream system_prompt d req server_lines)
  = (map EContent fragments ++ [EDone])%list.
Proof.
  intros Hfk Hlen Hgen He. unfold chat_stream.
  destruct (save_message_succeeds d (req_conversation req) user (req_message req) None
              Hfk I) as [d1 Hsave].
  rewrite Hsave. unfold get_conversation_messages.
  destruct (prepare_context_of_rows
              (filter (fun m => conversation_id m = req_conversation req) (messages d1))
              system_prompt) as [context ->].
  rewrite Hgen, forward_map_PStr.
  destruct (save_message_succeeds d1 (req_conversation req) assistant
              (String.concat "" fragments) (Some (req_model req))
              (insert_message_keeps_conversation _ _ _ Hsave) Hlen) as [d2 Hsave2].
  destruct e as [| |x]; [| |destruct (He x eq_refl)];
    rewrite Hsave2; unfold events; cbn [trace]; rewrite <- app_assoc;
    cbn [app omap list_omap]; rewrite (events_of_emits fragments); reflexivity.
Qed.

(** The scenario of the specification: three server lines, the last one the
    completion line. *)
Example the_end_scenario :
  let o := chat_stream "You are an AI assistant" one_new_conversation hello_request
             [the_line; end_line; done_line] in
  events o = [EContent "The"; EContent " end."; EDone]
  /\ omap (fun m => match msg_role m with
                    | assistant => Some (content m, model m)
                    | _ => None
                    end) (messages (store o))
     = [("The end.", Some "qwen3-vl:8b")].
Proof. vm_compute. split; reflexivity. Qed.

(** * Further properties of the code *)

(** ** Retention and clean-up functions *)

Import Admin AdminSamples.

Section DeleteConversations.

Context (doomed : N -> conversation -> Prop) `{Hdec : !forall c row, Decision (doomed c row)}.

Lemma delete_conversations_lookup D c row :
  conversations (tables (delete_conversations doomed D)) !! c = Some row <->
  conversations (tables D) !! c = Some row /\ ~ doomed c row.
Proof.
  unfold delete_conversations. cbn [tables conversations].
  rewrite map_lookup_filter_Some. reflexivity.
Qed.

Lemma deleted_conversations_lookup D c row :
  deleted_conversations doomed D !! c = Some row <->
  conversations (tables D) !! c = Some row /\ doomed c row.
Proof. unfold deleted_conversations. rewrite map_lookup_filter_Some. reflexivity. Qed.

Lemma deleted_conversations_none D c :
  deleted_conversations doomed D !! c = None <->
  forall row, conversations (tables D) !! c = Some row -> ~ doomed c row.
Proof.
  unfold deleted_conversations. rewrite map_lookup_filter_None. split.
  - intros [Hn|Hall] row Hrow; [congruence|exact (Hall row Hrow)].
  - intros Hall. right. exact Hall.
Qed.

Lemma delete_conversations_size D :
  (size (deleted_conversations doomed D)
   + size (conversations (tables (delete_conversations doomed D)))
   = size (conversations (tables D)))%nat.
Proof.
  unfold delete_conversations, deleted_conversations. cbn [tables conversations].
  rewrite <- map_size_disj_union by apply map_disjoint_filter_complement.
  rewrite map_filter_union_complement. reflexivity.
Qed.

Lemma delete_conversations_messages D m :
  m ∈ messages (tables (delete_conversations doomed D)) <->
  m ∈ messages (tables D) /\
  forall row, conversations (tables D) !! conversation_id m = Some row ->
              ~ doomed (conversation_id m) row.
Proof.
  unfold delete_conversations. cbn [tables messages].
  rewrite list_elem_of_filter, deleted_conversations_none. tauto.
Qed.

Lemma delete_conversations_sublist D :
  messages (tables (delete_conversations doomed D)) `sublist_of` messages (tables D).
Proof. unfold delete_conversations. cbn [tables messages]. apply sublist_filter. Qed.

Lemma sublist_map_NoDup {A B} (f : A -> B) (l k : list A) :
  l `sublist_of` k -> NoDup (map f k) -> NoDup (map f l).
Proof.
  intros Hs Hk. eapply sublist_NoDup; [exact Hk|].
  clear Hk. induction Hs; cbn [map];
    [apply sublist_nil|apply sublist_skip|apply sublist_cons]; assumption.
Qed.

Lemma delete_conversations_consistent D :
  consistent (tables D) -> consistent (tables (delete_conversations doomed D)).
Proof.
  intros [Hfk Hpk]. split.
  - apply Forall_forall. intros m Hm.
    apply delete_conversations_messages in Hm as [Hm Hkeep].
    rewrite Forall_forall in Hfk. destruct (Hfk m Hm) as [row Hrow].
    exists row. apply delete_conversations_lookup. split; [exact Hrow|exact (Hkeep row Hrow)].
  - exact (sublist_map_NoDup id _ _ (delete_conversations_sublist D) Hpk).
Qed.

End DeleteConversations.

(** X1.  After the deletion of old conversations, the conversations left are
    exactly those that existed and are not older than the cutoff (a
    conversation with a null creation time is never deleted), each with its
    row and its creation time unchanged; the returned count is the number of
    conversations removed; accounts are untouched. *)
Theorem delete_old_conversations_removes_the_old (cutoff_date : Z) (D : database) :
  let D' := (delete_old_conversations cutoff_date D).1 in
  let n := (delete_old_conversations cutoff_date D).2 in
  (forall c row,
     conversations (tables D') !! c = Some row <->
     conversations (tables D) !! c = Some row /\
     (created_at D !! c = None \/ exists t, created_at D !! c = Some t /\ cutoff_date <= t)) /\
  (forall c, is_Some (conversations (tables D') !! c) ->
     created_at D' !! c = created_at D !! c) /\
  (n + size (conversations (tables D')) = size (conversations (tables D)))%nat /\
  users D' = users D.
Proof.
  cbn [delete_old_conversations fst snd]. split; [|split; [|split]].
  - intros c row. rewrite delete_conversations_lookup. unfold older_than.
    destruct (created_at D !! c) as [t|].
    + split; intros [Hrow H]; (split; [exact Hrow|]).
      * right. exists t. split; [reflexivity|lia].
      * destruct H as [H|(t' & [= <-] & Hle)]; [discriminate|lia].
    + split; intros [Hrow _]; (split; [exact Hrow|]); [left; reflexivity|tauto].
  - intros c [row Hrow]. apply delete_conversations_lookup in Hrow as [Hrow Hnot].
    unfold delete_conversations. cbn [created_at].
    destruct (created_at D !! c) as [t|] eqn:Ht.
    + apply map_lookup_filter_Some. split; [exact Ht|]. cbn [fst].
      apply deleted_conversations_none. intros row' Hrow'.
      rewrite Hrow in Hrow'. injection Hrow' as <-. exact Hnot.
    + apply map_lookup_filter_None. left. exact Ht.
  - apply delete_conversations_size.
  - reflexivity.
Qed.

Lemma delete_old_conversations_removes_the_old_witness :
  is_Some (conversations (tables (delete_old_conversations 10 sample_database).1) !! 7%N)
  /\ created_at (delete_old_conversations 10 sample_database).1 !! 7%N
     = created_at sample_database !! 7%N.
Proof.
  assert (Hrow : is_Some
            (conversations (tables (delete_old_conversations 10 sample_database).1) !! 7%N)).
  { apply (bool_decide_unpack _). vm_compute. exact I. }
  split; [exact Hrow|].
  exact (proj1 (proj2 (delete_old_conversations_removes_the_old 10 sample_database))
           7%N Hrow).
Defined.

(** X2.  The deletion of old conversations cascades to their messages and to
    nothing else: the messages left are, in their order, the messages that
    do not belong to a deleted conversation; and the deletion keeps the keys
    of [messages] intact: if every message referenced an existing
    conversation and identifiers were unique before, they are after. *)
Theorem delete_old_conversations_cascades (cutoff_date : Z) (D : database) :
  let D' := (delete_old_conversations cutoff_date D).1 in
  messages (tables D') `sublist_of` messages (tables D) /\
  (forall m, m ∈ messages (tables D') <->
     m ∈ messages (tables D) /\
     ~ (is_Some (conversations (tables D) !! conversation_id m) /\
        exists t, created_at D !! conversation_id m = Some t /\ t < cutoff_date)) /\
  (consistent (tables D) -> consistent (tables D')).
Proof.
  cbn [delete_old_conversations fst]. split; [|split].
  - apply delete_conversations_sublist.
  - intros m. rewrite delete_conversations_messages. unfold older_than.
    split; intros [Hm H]; (split; [exact Hm|]).
    + intros [[row Hrow] (t & Ht & Hlt)]. apply (H row Hrow). rewrite Ht. exact Hlt.
    + intros row Hrow Hold. apply H. split; [eexists; exact Hrow|].
      destruct (created_at D !! conversation_id m) as [t|]; [|destruct Hold].
      exists t. split; [reflexivity|exact Hold].
  - apply delete_conversations_consistent.
Qed.

Lemma database_eq (D1 D2 : database) :
  users D1 = users D2 ->
  conversations (tables D1) = conversations (tables D2) ->
  messages (tables D1) = messages (tables D2) ->
  created_at D1 = created_at D2 -> D1 = D2.
Proof.
  destruct D1 as [u1 [c1 m1] t1], D2 as [u2 [c2 m2] t2]. cbn.
  intros -> -> -> ->. reflexivity.
Qed.

Lemma delete_conversations_nothing (doomed : N -> conversation -> Prop)
    `{!forall c row, Decision (doomed c row)} D :
  (forall c row, conversations (tables D) !! c = Some row -> ~ doomed c row) ->
  delete_conversations doomed D = D /\ deleted_conversations doomed D = ∅.
Proof.
  intros Hnone.
  assert (deleted_conversations doomed D = ∅) as Hgone.
  { apply map_empty. intros c. apply deleted_conversations_none. exact (Hnone c). }
  split; [|exact Hgone].
  apply database_eq; unfold delete_conversations; cbn [users tables conversations messages created_at].
  - reflexivity.
  - apply map_filter_id. intros c row Hrow. exact (Hnone c row Hrow).
  - rewrite Hgone. induction (messages (tables D)) as [|m ms IH]; [reflexivity|].
    rewrite filter_cons, decide_True by apply lookup_empty. rewrite IH. reflexivity.
  - rewrite Hgone. apply map_filter_id. intros c t _. apply lookup_empty.
Qed.

Lemma delete_old_conversations_cascades_witness :
  consistent (tables (delete_orphaned_messages sample_database).1)
  /\ consistent
       (tables (delete_old_conversations 10 (delete_orphaned_messages sample_database).1).1).
Proof.
  assert (Hc : consistent (tables (delete_orphaned_messages sample_database).1)).
  { unfold consistent. apply (bool_decide_unpack _). vm_compute. exact I. }
  split; [exact Hc|].
  exact (proj2 (proj2 (delete_old_conversations_cascades 10
                         (delete_orphaned_messages sample_database).1)) Hc).
Defined.

(** X3.  Deleting old conversations a second time, with the same or an
    earlier cutoff, deletes nothing and returns zero. *)
Theorem delete_old_conversations_twice (cutoff_date cutoff_date' : Z) (D : database) :
  cutoff_date' <= cutoff_date ->
  let D' := (delete_old_conversations cutoff_date D).1 in
  delete_old_conversations cutoff_date' D' = (D', 0%nat).
Proof.
  intros Hle D'. unfold delete_old_conversations at 1.
  destruct (delete_conversations_nothing (older_than D' cutoff_date') D') as [-> ->].
  - intros c row Hrow. subst D'. cbn [delete_old_conversations fst] in *.
    pose proof Hrow as Hrow'. apply delete_conversations_lookup in Hrow' as [_ Hnot].
    intros Hold. unfold older_than at 1 in Hold.
    destruct (created_at (delete_conversations _ D) !! c) as [t|] eqn:Ht; [|exact Hold].
    unfold delete_conversations in Ht. cbn [created_at] in Ht.
    apply map_lookup_filter_Some in Ht as [Ht _].
    unfold older_than in Hnot. rewrite Ht in Hnot. lia.
  - rewrite map_size_empty. reflexivity.
Qed.

Lemma delete_old_conversations_twice_witness :
  delete_old_conversations 5 (delete_old_conversations 10 sample_database).1
  = ((delete_old_conversations 10 sample_database).1, 0%nat).
Proof. apply (delete_old_conversations_twice 10 5 sample_database). lia. Defined.

(** X4.  After the clean-up of orphaned messages every message references an
    existing conversation; the messages left are, in their order, the
    messages that did so before; the returned count is the number of
    messages removed; conversations are untouched.  On a database in which
    every message references an existing conversation, the clean-up changes
    nothing and returns zero. *)
Theorem delete_orphaned_messages_restores_references (D : database) :
  let D' := (delete_orphaned_messages D).1 in
  let n := (delete_orphaned_messages D).2 in
  Forall (fun m => is_Some (conversations (tables D') !! conversation_id m))
         (messages (tables D')) /\
  messages (tables D') `sublist_of` messages (tables D) /\
  (forall m, m ∈ messages (tables D') <->
     m ∈ messages (tables D) /\ is_Some (conversations (tables D) !! conversation_id m)) /\
  (n + length (messages (tables D')) = length (messages (tables D)))%nat /\
  conversations (tables D') = conversations (tables D) /\
  (Forall (fun m => is_Some (conversations (tables D) !! conversation_id m))
          (messages (tables D)) ->
   D' = D /\ n = 0%nat).
Proof.
  cbn [delete_orphaned_messages fst snd tables conversations messages].
  assert (forall m, ~ orphaned (tables D) m <->
                    is_Some (conversations (tables D) !! conversation_id m)) as Hor.
  { intros m. unfold orphaned. rewrite <- not_eq_None_Some. reflexivity. }
  split; [|split; [|split; [|split; [|split]]]].
  - apply Forall_forall. intros m Hm. apply list_elem_of_filter in Hm as [Hm _].
    apply Hor. exact Hm.
  - apply sublist_filter.
  - intros m. rewrite list_elem_of_filter, Hor. tauto.
  - induction (messages (tables D)) as [|m ms IH]; [reflexivity|].
    rewrite !filter_cons. destruct (decide (orphaned (tables D) m)) as [Ho|Ho].
    + rewrite decide_False by tauto. cbn [length]. lia.
    + rewrite decide_True by exact Ho. cbn [length]. lia.
  - reflexivity.
  - intros Hfk.
    assert (filter (fun m => ~ orphaned (tables D) m) (messages (tables D))
            = messages (tables D)
            /\ filter (orphaned (tables D)) (messages (tables D)) = []) as [-> ->].
    { induction Hfk as [|m ms Hm _ [IH1 IH2]]; [split; reflexivity|].
      rewrite !filter_cons. apply Hor in Hm.
      rewrite decide_True by exact Hm. rewrite decide_False by exact Hm.
      rewrite IH1, IH2. split; reflexivity. }
    split; [|reflexivity]. apply database_eq; reflexivity.
Qed.

Lemma delete_orphaned_messages_restores_references_witness :
  messages (tables (delete_orphaned_messages sample_database).1)
  = [msg 1 8 user "Hi"; msg 2 8 assistant "Hello"; msg 3 9 user "Hey"; msg 4 7 user "New"]
  /\ delete_orphaned_messages (delete_orphaned_messages sample_database).1
     = ((delete_orphaned_messages sample_database).1, 0%nat).
Proof.
  split; [vm_compute; reflexivity|].
  pose proof (delete_orphaned_messages_restores_references
                (delete_orphaned_messages sample_database).1) as (_ & _ & _ & _ & _ & H).
  destruct H as [H1 H2].
  - apply (proj1 (delete_orphaned_messages_restores_references sample_database)).
  - destruct (delete_orphaned_messages (delete_orphaned_messages sample_database).1)
      as [D2 n]. cbn [fst snd] in H1, H2. rewrite H1, H2. reflexivity.
Defined.

(** ** Inserts and the keys of [messages] *)

Lemma auto_generate_conversation_title_keeps d NEW c :
  is_Some (conversations d !! c) ->
  is_Some (conversations (auto_generate_conversation_title d NEW) !! c).
Proof.
  intros Hc. unfold auto_generate_conversation_title.
  destruct (negb _); [|exact Hc]. destruct (msg_role NEW); try exact Hc.
  cbn [conversations]. apply update_default_title_keeps. exact Hc.
Qed.

Lemma update_default_title_back c t convs c' :
  is_Some (update_default_title c t convs !! c') -> is_Some (convs !! c').
Proof.
  unfold update_default_title.
  destruct (convs !! c) as [row|] eqn:Hrow; [|intros Hs; exact Hs].
  destruct (title row) as [old|]; [|intros Hs; exact Hs].
  destruct (String.eqb old default_title); [|intros Hs; exact Hs].
  destruct (decide (c = c')) as [<-|Hne].
  - intros _. eexists; exact Hrow.
  - rewrite lookup_insert_ne by exact Hne. intros Hs; exact Hs.
Qed.

Lemma auto_generate_conversation_title_back d NEW c :
  is_Some (conversations (auto_generate_conversation_title d NEW) !! c) ->
  is_Some (conversations d !! c).
Proof.
  unfold auto_generate_conversation_title.
  destruct (negb _); [|intros Hs; exact Hs].
  destruct (msg_role NEW); [|intros Hs; exact Hs..].
  cbn [conversations]. apply update_default_title_back.
Qed.

Lemma insert_message_inv d NEW d' :
  insert_message d NEW = Some d' ->
  existsb (fun m => (id m =? id NEW)%N) (messages d) = false /\
  is_Some (conversations d !! conversation_id NEW) /\
  d' = auto_generate_conversation_title
         {| conversations := conversations d; messages := messages d ++ [NEW] |} NEW.
Proof.
  unfold insert_message.
  destruct (existsb _ _); [discriminate|].
  destruct (bool_decide (is_Some (conversations d !! conversation_id NEW))) eqn:Hfk;
    [|discriminate].
  apply bool_decide_eq_true in Hfk. cbn [negb].
  destruct (match model NEW with Some _ => _ | None => _ end); [discriminate|].
  intros [= <-]. repeat split. exact Hfk.
Qed.

Lemma insert_message_keeps_conversations d NEW d' c :
  insert_message d NEW = Some d' ->
  is_Some (conversations d !! c) -> is_Some (conversations d' !! c).
Proof.
  intros Hins Hc. apply insert_message_inv in Hins as (_ & _ & ->).
  apply auto_generate_conversation_title_keeps. exact Hc.
Qed.

Lemma insert_message_consistent d NEW d' :
  consistent d -> insert_message d NEW = Some d' -> consistent d'.
Proof.
  intros [Hfk Hpk] Hins.
  pose proof (insert_message_messages _ _ _ Hins) as Hm.
  pose proof (insert_message_inv _ _ _ Hins) as (Hfresh & Hconv & _).
  split; rewrite Hm.
  - apply Forall_app. split.
    + eapply Forall_impl; [exact Hfk|]. intros m. cbn beta.
      apply (insert_message_keeps_conversations _ _ _ _ Hins).
    + constructor; [|constructor].
      apply (insert_message_keeps_conversations _ _ _ _ Hins). exact Hconv.
  - rewrite map_app. cbn [map]. apply NoDup_app. split; [exact Hpk|].
    split; [|apply NoDup_singleton].
    intros i Hi Hin. apply list_elem_of_singleton in Hin as ->.
    apply list_elem_of_In, in_map_iff in Hi as (m & Hid & Hmin).
    assert (existsb (fun m => (id m =? id NEW)%N) (messages d) = true) as Hex.
    { apply existsb_exists. exists m. split; [exact Hmin|]. apply N.eqb_eq. exact Hid. }
    congruence.
Qed.

(** X5.  A sequence of inserts that all succeed appends exactly the inserted
    rows, in order, and keeps the keys of [messages] intact: identifiers stay
    unique and every message references an existing conversation.  No
    conversation is created or removed. *)
Theorem insert_messages_appends_and_keeps_keys (d d' : db) (rows : list message) :
  consistent d ->
  insert_messages d rows = Some d' ->
  messages d' = (messages d ++ rows)%list /\
  consistent d' /\
  (forall c, is_Some (conversations d !! c) <-> is_Some (conversations d' !! c)).
Proof.
  revert d. induction rows as [|NEW rows IH]; intros d Hc; cbn [insert_messages].
  - intros [= <-]. rewrite app_nil_r. split; [reflexivity|]. split; [exact Hc|].
    intros c. reflexivity.
  - destruct (insert_message d NEW) as [d1|] eqn:Hins; [|discriminate].
    intros Hrest.
    destruct (IH d1 (insert_message_consistent _ _ _ Hc Hins) Hrest) as (Hm & Hc' & Hdom).
    split; [|split; [exact Hc'|]].
    + rewrite Hm, (insert_message_messages _ _ _ Hins), <- app_assoc. reflexivity.
    + intros c. rewrite <- Hdom. split.
      * apply (insert_message_keeps_conversations _ _ _ _ Hins).
      * apply insert_message_inv in Hins as (_ & _ & ->).
        apply auto_generate_conversation_title_back.
Qed.

Lemma insert_messages_appends_and_keeps_keys_witness :
  match insert_messages one_new_conversation
          [msg 1 7 user "Hi"; msg 2 7 assistant "Hello"] with
  | Some d' => messages d' = [msg 1 7 user "Hi"; msg 2 7 assistant "Hello"] /\ consistent d'
  | None => False
  end.
Proof.
  destruct (insert_messages one_new_conversation
              [msg 1 7 user "Hi"; msg 2 7 assistant "Hello"]) as [d'|] eqn:E;
    [|vm_compute in E; discriminate E].
  destruct (insert_messages_appends_and_keeps_keys one_new_conversation d'
              [msg 1 7 user "Hi"; msg 2 7 assistant "Hello"]) as (Hm & Hc & _).
  - split; [constructor|constructor].
  - exact E.
  - split; [exact Hm|exact Hc].
Defined.

(** ** The title over a sequence of inserts *)

Lemma insert_message_fixes_row d NEW d' c :
  (exists m, m ∈ messages d /\ conversation_id m = c) ->
  insert_message d NEW = Some d' ->
  conversations d' !! c = conversations d !! c.
Proof.
  intros (m & Hm & Hc) Hins.
  apply insert_message_inv in Hins as (Hpk & _ & ->).
  unfold auto_generate_conversation_title.
  rewrite (other_message_exists_after_insert d NEW Hpk), negb_involutive.
  destruct (is_first_message d NEW) eqn:Hfirst; [|reflexivity].
  destruct (msg_role NEW); try reflexivity. cbn [conversations].
  apply update_default_title_other. intros ->.
  unfold is_first_message in Hfirst. rewrite forallb_forall in Hfirst.
  apply list_elem_of_In in Hm. specialize (Hfirst m Hm).
  rewrite Hc, N.eqb_refl in Hfirst. discriminate.
Qed.

Lemma insert_messages_fix_row d rows d' c :
  (exists m, m ∈ messages d /\ conversation_id m = c) ->
  insert_messages d rows = Some d' ->
  conversations d' !! c = conversations d !! c.
Proof.
  revert d. induction rows as [|NEW rows IH]; intros d Hhas; cbn [insert_messages].
  - intros [= <-]. reflexivity.
  - destruct (insert_message d NEW) as [d1|] eqn:Hins; [|discriminate].
    intros Hrest. rewrite (IH d1); [exact (insert_message_fixes_row _ _ _ _ Hhas Hins)|
                                    |exact Hrest].
    destruct Hhas as (m & Hm & Hc). exists m. split; [|exact Hc].
    rewrite (insert_message_messages _ _ _ Hins). apply elem_of_app. left. exact Hm.
Qed.

(** X6.  The title of a conversation is decided by the first message inserted
    into it: after that insert, no further insert, into this or any other
    conversation, changes the conversation's row.  In particular, when the
    first message is not a user message, the title is never derived, whatever
    is inserted later. *)
Theorem title_is_decided_by_first_insert (d d1 d2 : db) (NEW : message) (rows : list message) :
  insert_message d NEW = Some d1 ->
  insert_messages d1 rows = Some d2 ->
  conversations d2 !! conversation_id NEW = conversations d1 !! conversation_id NEW /\
  (msg_role NEW <> user ->
   conversations d2 !! conversation_id NEW = conversations d !! conversation_id NEW).
Proof.
  intros Hins Hrest.
  assert (conversations d2 !! conversation_id NEW = conversations d1 !! conversation_id NEW)
    as Hfix.
  { apply (insert_messages_fix_row d1 rows d2); [|exact Hrest].
    exists NEW. split; [|reflexivity].
    rewrite (insert_message_messages _ _ _ Hins). apply elem_of_app. right.
    apply list_elem_of_singleton. reflexivity. }
  split; [exact Hfix|]. intros Hrole. rewrite Hfix.
  apply insert_message_inv in Hins as (_ & _ & ->).
  unfold auto_generate_conversation_title.
  destruct (negb _); [|reflexivity]. destruct (msg_role NEW); [congruence|reflexivity..].
Qed.

Lemma title_is_decided_by_first_insert_witness :
  match insert_messages one_new_conversation
          [msg 1 7 assistant "Welcome"; msg 2 7 user "A question"] with
  | Some d2 => title_of d2 7%N = Some (Some default_title)
  | None => False
  end.
Proof.
  destruct (insert_message one_new_conversation (msg 1 7 assistant "Welcome"))
    as [d1|] eqn:E1; [|vm_compute in E1; discriminate E1].
  change (insert_messages one_new_conversation
            [msg 1 7 assistant "Welcome"; msg 2 7 user "A question"])
    with (match insert_message one_new_conversation (msg 1 7 assistant "Welcome") with
          | Some d' => insert_messages d' [msg 2 7 user "A question"]
          | None => None
          end).
  rewrite E1.
  destruct (insert_messages d1 [msg 2 7 user "A question"]) as [d2|] eqn:E2.
  - pose proof (proj2 (title_is_decided_by_first_insert one_new_conversation d1 d2
                         (msg 1 7 assistant "Welcome") [msg 2 7 user "A question"] E1 E2)
                  ltac:(discriminate)) as H.
    unfold title_of. cbn [conversation_id msg] in H. rewrite H. reflexivity.
  - injection E1 as <-. vm_compute in E2. discriminate E2.
Defined.

Lemma str_length_app (s t : string) :
  String.length (s ++ t) = (String.length s + String.length t)%nat.
Proof.
  induction s as [|c s IH]; [reflexivity|].
  rewrite str_app_cons. cbn [String.length]. rewrite IH. reflexivity.
Qed.

(** X7.  An insert changes no title except, possibly, that of the inserted
    message's conversation, and a title it sets has at most 53 characters,
    counted as the database counts them (a character beyond ASCII is one
    character of several bytes): the update of the trigger always fits the
    title column of 500 characters.  A null title is never replaced. *)
Theorem inserted_title_is_short (d d' : db) (NEW : message) (c : N) :
  insert_message d NEW = Some d' ->
  title_of d' c = title_of d c \/
  (c = conversation_id NEW /\
   title_of d c = Some (Some default_title) /\
   exists t, title_of d' c = Some (Some t) /\ (LENGTH t <= 53)%nat).
Proof.
  intros Hins. apply insert_message_inv in Hins as (_ & _ & ->).
  unfold auto_generate_conversation_title.
  destruct (negb _); [|left; reflexivity].
  destruct (msg_role NEW); [|left; reflexivity..].
  unfold title_of. cbn [conversations].
  destruct (decide (c = conversation_id NEW)) as [->|Hne].
  2:{ left. rewrite update_default_title_other by exact Hne. reflexivity. }
  destruct (conversations d !! conversation_id NEW) as [row|] eqn:Hrow.
  2:{ left. unfold update_default_title. rewrite Hrow. cbv iota. rewrite Hrow. reflexivity. }
  destruct (title row) as [old|] eqn:Ht.
  2:{ left. unfold update_default_title. rewrite Hrow, Ht. cbv iota. rewrite Hrow. reflexivity. }
  destruct (String.eqb_spec old default_title) as [->|Hold].
  2:{ left. rewrite update_default_title_miss; [rewrite Hrow; reflexivity|].
      rewrite Hrow. cbn. rewrite Ht. congruence. }
  right. split; [reflexivity|]. split; [cbn; rewrite Ht; reflexivity|].
  rewrite (update_default_title_hit _ _ _ row Hrow Ht). eexists. split; [reflexivity|].
  pose proof (LENGTH_SUBSTRING (content NEW) 50) as Hcut.
  destruct (50 <? LENGTH (content NEW))%nat; [|lia].
  rewrite LENGTH_app.
  change (LENGTH "...") with 3%nat. lia.
Qed.

Lemma inserted_title_is_short_witness :
  match insert_message one_new_conversation MoreSamples.accented_question with
  | Some d' =>
      exists t, title_of d' 7%N = Some (Some t) /\ (LENGTH t <= 53)%nat /\
                String.length t = 103%nat
  | None => False
  end.
Proof.
  destruct (insert_message one_new_conversation MoreSamples.accented_question) as [d'|] eqn:E;
    [|vm_compute in E; discriminate E].
  destruct (inserted_title_is_short one_new_conversation d' MoreSamples.accented_question 7%N E)
    as [Hsame|(_ & _ & t & Ht & Hlen)].
  - exfalso. injection E as <-. vm_compute in Hsame. discriminate Hsame.
  - exists t. split; [exact Ht|]. split; [exact Hlen|].
    injection E as <-. vm_compute in Ht. injection Ht as <-. reflexivity.
Defined.

(** ** Deleting an account *)

Lemma delete_conversations_again (doomed : N -> conversation -> Prop)
    `{Hdec : !forall c row, Decision (doomed c row)} D :
  delete_conversations doomed (delete_conversations doomed D)
  = delete_conversations doomed D.
Proof.
  apply delete_conversations_nothing. intros c row Hrow.
  apply delete_conversations_lookup in Hrow as [_ Hnot]. exact Hnot.
Qed.

(** X8.  Deleting a user's data removes the account, exactly the
    conversations the user owns and exactly the messages of those
    conversations; everything of other users stays, messages in their
    order; the keys of [messages] stay intact; the result is true.  The
    first statement of the function is already implied by the cascade of the
    second: deleting the account alone gives the same database. *)
Theorem delete_user_data_removes_only_the_user (user_uuid : N) (D : database) :
  let D' := (delete_user_data user_uuid D).1 in
  users D' = delete user_uuid (users D) /\
  (forall c row,
     conversations (tables D') !! c = Some row <->
     conversations (tables D) !! c = Some row /\ user_id row <> user_uuid) /\
  messages (tables D') `sublist_of` messages (tables D) /\
  (forall m, m ∈ messages (tables D') <->
     m ∈ messages (tables D) /\
     forall row, conversations (tables D) !! conversation_id m = Some row ->
                 user_id row <> user_uuid) /\
  (consistent (tables D) -> consistent (tables D')) /\
  D' = delete_user user_uuid D /\
  (delete_user_data user_uuid D).2 = true.
Proof.
  cbn [delete_user_data fst snd]. unfold delete_user.
  rewrite delete_conversations_again. cbn [users tables].
  split; [reflexivity|]. split; [apply delete_conversations_lookup|].
  split; [apply delete_conversations_sublist|].
  split; [apply delete_conversations_messages|].
  split; [apply delete_conversations_consistent|]. split; reflexivity.
Qed.

Lemma delete_user_data_removes_only_the_user_witness :
  consistent (tables (delete_user_data 1 (delete_orphaned_messages sample_database).1).1)
  /\ messages (tables (delete_user_data 1 sample_database).1)
     = [msg 3 9 user "Hey"; msg 5 6 user "Lost"].
Proof.
  split; [|vm_compute; reflexivity].
  apply (proj1 (proj2 (proj2 (proj2 (proj2
           (delete_user_data_removes_only_the_user 1
              (delete_orphaned_messages sample_database).1)))))).
  unfold consistent. apply (bool_decide_unpack _). vm_compute. exact I.
Defined.

(** ** Statistics of a user *)

Import AdminSpec.

Lemma agg_none f l : agg f l = None <-> forall t, Some t ∉ l.
Proof.
  induction l as [|[x|] l IH]; cbn [agg foldr].
  - split; [intros _ t Ht; inversion Ht|reflexivity].
  - fold (agg f l). split.
    + destruct (agg f l); discriminate.
    + intros H. exfalso. apply (H x). left.
  - fold (agg f l). rewrite IH. split; intros H t Ht.
    + apply elem_of_cons in Ht as [Ht|Ht]; [discriminate|exact (H t Ht)].
    + apply (H t). right. exact Ht.
Qed.

Lemma agg_attained f l a :
  (forall x y, f x y = x \/ f x y = y) -> agg f l = Some a -> Some a ∈ l.
Proof.
  intros Hf. revert a. induction l as [|[x|] l IH]; intros a; cbn [agg foldr].
  - discriminate.
  - fold (agg f l). destruct (agg f l) as [y|] eqn:E.
    + intros [= <-]. destruct (Hf x y) as [-> | ->]; [left|right; apply IH; reflexivity].
    + intros [= <-]. left.
  - fold (agg f l). intros H. right. apply IH. exact H.
Qed.

Lemma agg_min_le l t : Some t ∈ l -> exists a, agg Z.min l = Some a /\ a <= t.
Proof.
  induction l as [|[x|] l IH]; intros Ht; cbn [agg foldr].
  - inversion Ht.
  - fold (agg Z.min l). apply elem_of_cons in Ht as [[= <-]|Ht].
    + destruct (agg Z.min l) as [y|]; eexists; (split; [reflexivity|lia]).
    + destruct (IH Ht) as (a & -> & Ha). eexists; split; [reflexivity|lia].
  - fold (agg Z.min l). apply elem_of_cons in Ht as [Ht|Ht]; [discriminate|exact (IH Ht)].
Qed.

Lemma agg_max_ge l t : Some t ∈ l -> exists b, agg Z.max l = Some b /\ t <= b.
Proof.
  induction l as [|[x|] l IH]; intros Ht; cbn [agg foldr].
  - inversion Ht.
  - fold (agg Z.max l). apply elem_of_cons in Ht as [[= <-]|Ht].
    + destruct (agg Z.max l) as [y|]; eexists; (split; [reflexivity|lia]).
    + destruct (IH Ht) as (a & -> & Ha). eexists; split; [reflexivity|lia].
  - fold (agg Z.max l). apply elem_of_cons in Ht as [Ht|Ht]; [discriminate|exact (IH Ht)].
Qed.

Section UserStats.
Variables (D : database) (user_uuid : N).

Let join (kv : N * conversation) : list (N * option Z * option N) :=
  let '(c, row) := kv in
  if decide (user_id row = user_uuid) then
    match filter (fun m => conversation_id m = c) (messages (tables D)) with
    | [] => [(c, created_at D !! c, None)]
    | ms => map (fun m => (c, created_at D !! c, Some (id m))) ms
    end
  else [].

Lemma joined_rows_join :
  joined_rows D user_uuid = flat_map join (map_to_list (conversations (tables D))).
Proof. reflexivity. Qed.

Lemma join_elem c row r :
  r ∈ join (c, row) <->
  user_id row = user_uuid /\ r.1.1 = c /\ r.1.2 = created_at D !! c /\
  match r.2 with
  | None => Forall (fun m => conversation_id m <> c) (messages (tables D))
  | Some i => exists m, m ∈ messages (tables D) /\ conversation_id m = c /\ id m = i
  end.
Proof.
  unfold join. destruct (decide (user_id row = user_uuid)) as [Hu|Hu].
  2:{ split; [intros H; inversion H|intros [H _]; contradiction]. }
  destruct (filter (fun m => conversation_id m = c) (messages (tables D)))
    as [|m0 ms] eqn:E.
  - rewrite list_elem_of_singleton. split.
    + intros ->. cbn. repeat split; try assumption.
      apply Forall_forall. intros m Hm Hc.
      assert (Hin : m ∈ filter (fun m => conversation_id m = c) (messages (tables D)))
        by (apply list_elem_of_filter; split; assumption).
      rewrite E in Hin. inversion Hin.
    + destruct r as [[c' t'] [i|]]; cbn. 
      * intros (_ & _ & _ & m & Hm & Hc & _).
        assert (Hin : m ∈ filter (fun m => conversation_id m = c) (messages (tables D)))
          by (apply list_elem_of_filter; split; assumption).
        rewrite E in Hin. inversion Hin.
      * intros (_ & -> & -> & _). reflexivity.
  - rewrite <- E. rewrite list_elem_of_fmap. split.
    + intros (m & -> & Hm). apply list_elem_of_filter in Hm as [Hc Hm]. cbn.
      repeat split; try assumption. exists m. repeat split; assumption.
    + destruct r as [[c' t'] [i|]]; cbn.
      * intros (_ & -> & -> & m & Hm & Hc & <-). exists m.
        split; [reflexivity|]. apply list_elem_of_filter. split; assumption.
      * intros (_ & _ & _ & Hall). rewrite Forall_forall in Hall.
        assert (Hin : m0 ∈ filter (fun m => conversation_id m = c) (messages (tables D)))
          by (rewrite E; left).
        apply list_elem_of_filter in Hin as [Hc Hm]. destruct (Hall m0 Hm Hc).
Qed.

Lemma join_nonempty c row : user_id row = user_uuid -> join (c, row) <> [].
Proof.
  intros Hu. unfold join. rewrite decide_True by exact Hu.
  destruct (filter _ _); discriminate.
Qed.

Lemma joined_rows_elem r :
  r ∈ joined_rows D user_uuid <->
  exists row, conversations (tables D) !! r.1.1 = Some row /\ r ∈ join (r.1.1, row).
Proof.
  rewrite joined_rows_join, list_elem_of_In, in_flat_map. split.
  - intros ([c row] & Hkv & Hr). apply list_elem_of_In in Hkv, Hr.
    apply elem_of_map_to_list in Hkv.
    pose proof (proj1 (join_elem c row r) Hr) as (_ & -> & _).
    exists row. split; assumption.
  - intros (row & Hrow & Hr). exists (r.1.1, row).
    split; apply list_elem_of_In; [apply elem_of_map_to_list|]; assumption.
Qed.

Lemma joined_rows_of_conversation c row :
  conversations_of D user_uuid !! c = Some row ->
  exists i, (c, created_at D !! c, i) ∈ joined_rows D user_uuid.
Proof.
  intros H. apply map_lookup_filter_Some in H as [Hrow Hu]. cbn in Hu.
  destruct (join (c, row)) as [|r rs] eqn:E; [destruct (join_nonempty c row Hu E)|].
  assert (Hr : r ∈ join (c, row)) by (rewrite E; left).
  pose proof (proj1 (join_elem c row r) Hr) as (_ & Hc & Ht & _).
  exists r.2. apply joined_rows_elem. exists row. cbn. split; [exact Hrow|].
  destruct r as [[c' t'] i]. cbn in Hc, Ht. subst. exact Hr.
Qed.

Lemma joined_rows_conversation r :
  r ∈ joined_rows D user_uuid ->
  is_Some (conversations_of D user_uuid !! r.1.1) /\ r.1.2 = created_at D !! r.1.1.
Proof.
  intros Hr. apply joined_rows_elem in Hr as (row & Hrow & Hr).
  apply join_elem in Hr as (Hu & _ & Ht & _). split; [|exact Ht].
  exists row. apply map_lookup_filter_Some. split; assumption.
Qed.

Lemma joined_rows_empty :
  joined_rows D user_uuid = [] <-> conversations_of D user_uuid = ∅.
Proof.
  split.
  - intros E. apply map_empty. intros c.
    destruct (conversations_of D user_uuid !! c) as [row|] eqn:Hrow; [|reflexivity].
    destruct (joined_rows_of_conversation c row Hrow) as [i Hi].
    rewrite E in Hi. inversion Hi.
  - intros E. destruct (joined_rows D user_uuid) as [|r rs] eqn:Er; [reflexivity|].
    assert (Hr : r ∈ joined_rows D user_uuid) by (rewrite Er; left).
    apply joined_rows_conversation in Hr as [[row Hrow] _].
    rewrite E in Hrow. rewrite lookup_empty in Hrow. discriminate.
Qed.

Lemma joined_rows_distinct_conversations :
  length (remove_dups (map (fun r => r.1.1) (joined_rows D user_uuid)))
  = size (conversations_of D user_uuid).
Proof.
  rewrite <- length_map_to_list.
  rewrite <- (length_fmap fst (map_to_list (conversations_of D user_uuid))).
  apply Permutation_length. apply NoDup_Permutation.
  - apply NoDup_remove_dups.
  - apply NoDup_fst_map_to_list.
  - intros c. rewrite elem_of_remove_dups.
    change (map (fun r : N * option Z * option N => r.1.1)) with
      (fmap (M := list) (fun r : N * option Z * option N => r.1.1)).
    rewrite !list_elem_of_fmap. split.
    + intros (r & -> & Hr). apply joined_rows_conversation in Hr as [[row Hrow] _].
      exists (r.1.1, row). split; [reflexivity|]. apply elem_of_map_to_list. exact Hrow.
    + intros ([c' row] & -> & Hkv). apply elem_of_map_to_list in Hkv.
      destruct (joined_rows_of_conversation c' row Hkv) as [i Hi].
      eexists. split; [|exact Hi]. reflexivity.
Qed.

(** Counting the joined rows that carry a message. *)

Let per_conversation (ms : list message) (kv : N * conversation) : nat :=
  if decide (user_id kv.2 = user_uuid)
  then length (filter (fun m => conversation_id m = kv.1) ms) else 0%nat.

Let hit (m : message) (kv : N * conversation) : nat :=
  if decide (user_id kv.2 = user_uuid /\ conversation_id m = kv.1) then 1%nat else 0%nat.

Lemma join_count kv :
  length (omap (fun r : N * option Z * option N => r.2) (join kv))
  = per_conversation (messages (tables D)) kv.
Proof.
  destruct kv as [c row]. unfold join, per_conversation. cbn [fst snd].
  destruct (decide (user_id row = user_uuid)); [|reflexivity].
  destruct (filter (fun m => conversation_id m = c) (messages (tables D))) as [|m0 ms];
    [reflexivity|].
  generalize (m0 :: ms). intros l. induction l as [|m l IH]; [reflexivity|].
  cbn. f_equal. exact IH.
Qed.

Lemma flat_map_count (L : list (N * conversation)) :
  length (omap (fun r : N * option Z * option N => r.2) (flat_map join L))
  = sum_list (map (per_conversation (messages (tables D))) L).
Proof.
  induction L as [|kv L IH]; [reflexivity|].
  cbn [flat_map map sum_list]. rewrite omap_app, length_app, join_count, IH. reflexivity.
Qed.

Lemma sum_hits_absent m (L : list (N * conversation)) :
  conversation_id m ∉ L.*1 -> sum_list (map (hit m) L) = 0%nat.
Proof.
  induction L as [|kv L IH]; [reflexivity|]. intros Hn.
  cbn [map sum_list]. rewrite IH.
  - unfold hit. rewrite decide_False; [reflexivity|].
    intros [_ Hc]. apply Hn. rewrite Hc. left.
  - intros Hin. apply Hn. right. exact Hin.
Qed.

Lemma sum_hits_present m row (L : list (N * conversation)) :
  NoDup L.*1 -> (conversation_id m, row) ∈ L ->
  sum_list (map (hit m) L) = if decide (user_id row = user_uuid) then 1%nat else 0%nat.
Proof.
  induction L as [|kv L IH]; intros Hnd Hin; [inversion Hin|].
  cbn [fmap list_fmap] in Hnd. apply NoDup_cons in Hnd as [Hfresh Hnd].
  cbn [map sum_list]. apply elem_of_cons in Hin as [<-|Hin].
  - rewrite sum_hits_absent by exact Hfresh. unfold hit. cbn [fst snd].
    destruct (decide (user_id row = user_uuid)).
    + rewrite decide_True by (split; [assumption|reflexivity]). reflexivity.
    + rewrite decide_False by tauto. reflexivity.
  - rewrite (IH Hnd Hin). unfold hit. rewrite decide_False; [reflexivity|].
    intros [_ Hc]. apply Hfresh. rewrite <- Hc.
    apply list_elem_of_fmap. exists (conversation_id m, row). split; [reflexivity|exact Hin].
Qed.

Lemma sum_per_conversation (ms : list message) :
  sum_list (map (per_conversation ms) (map_to_list (conversations (tables D))))
  = length (filter (in_conversation_of D user_uuid) ms).
Proof.
  induction ms as [|m ms IH].
  - cbn [filter list_filter length].
    induction (map_to_list (conversations (tables D))) as [|kv L IHL]; [reflexivity|].
    cbn [map sum_list]. rewrite IHL. unfold per_conversation.
    destruct (decide _); reflexivity.
  - assert (Hsplit : forall L,
              sum_list (map (per_conversation (m :: ms)) L)
              = (sum_list (map (hit m) L) + sum_list (map (per_conversation ms) L))%nat).
    { induction L as [|kv L IHL]; [reflexivity|].
      cbn [map sum_list]. rewrite IHL.
      assert (per_conversation (m :: ms) kv = (hit m kv + per_conversation ms kv)%nat) as ->.
      { unfold per_conversation, hit. rewrite filter_cons.
        destruct (decide (user_id kv.2 = user_uuid)) as [Hu|Hu].
        - destruct (decide (conversation_id m = kv.1)) as [Hc|Hc].
          + rewrite decide_True by (split; assumption). reflexivity.
          + rewrite decide_False by tauto. reflexivity.
        - rewrite decide_False by tauto. reflexivity. }
      unfold Datatypes.id. lia. }
    rewrite Hsplit, IH, filter_cons. clear Hsplit IH.
    unfold in_conversation_of at 1.
    destruct (decide (in_conversation_of D user_uuid m)) as [Hin|Hin];
      unfold in_conversation_of in Hin;
      destruct (conversations (tables D) !! conversation_id m) as [row|] eqn:Hrow.
    + rewrite (sum_hits_present m row);
        [|apply NoDup_fst_map_to_list|apply elem_of_map_to_list; exact Hrow].
      rewrite decide_True by exact Hin. reflexivity.
    + destruct Hin.
    + rewrite (sum_hits_present m row);
        [|apply NoDup_fst_map_to_list|apply elem_of_map_to_list; exact Hrow].
      rewrite decide_False by exact Hin. reflexivity.
    + rewrite sum_hits_absent; [reflexivity|].
      intros Hk. apply list_elem_of_fmap in Hk as ([c row] & Hc & Hkv).
      apply elem_of_map_to_list in Hkv. cbn in Hc. subst c.
      rewrite Hrow in Hkv. discriminate.
Qed.

Lemma joined_rows_messages :
  length (omap (fun r : N * option Z * option N => r.2) (joined_rows D user_uuid))
  = length (messages_of D user_uuid).
Proof.
  rewrite joined_rows_join, flat_map_count. apply sum_per_conversation.
Qed.

End UserStats.

(** X9.  The statistics of a user have no row when the user owns no
    conversation, and otherwise exactly one: it counts the conversations the
    user owns and the messages in them (a conversation without messages
    counts as a conversation and adds no message); its oldest and newest
    dates are creation times of conversations the user owns and bound the
    creation time of every one of them; both are null together. *)
Theorem get_user_stats_counts (D : database) (user_uuid : N) :
  (get_user_stats D user_uuid = [] <-> conversations_of D user_uuid = ∅) /\
  (conversations_of D user_uuid <> ∅ ->
   exists s,
     get_user_stats D user_uuid = [s] /\
     total_conversations s = size (conversations_of D user_uuid) /\
     total_messages s = length (messages_of D user_uuid) /\
     (forall c t, is_Some (conversations_of D user_uuid !! c) ->
                  created_at D !! c = Some t ->
                  exists a b, oldest_conversation_date s = Some a /\
                              newest_conversation_date s = Some b /\ a <= t <= b) /\
     (forall a, oldest_conversation_date s = Some a ->
                exists c, is_Some (conversations_of D user_uuid !! c) /\
                          created_at D !! c = Some a) /\
     (forall b, newest_conversation_date s = Some b ->
                exists c, is_Some (conversations_of D user_uuid !! c) /\
                          created_at D !! c = Some b) /\
     (oldest_conversation_date s = None <-> newest_conversation_date s = None)).
Proof.
  pose proof (joined_rows_empty D user_uuid) as Hempty.
  pose proof (joined_rows_distinct_conversations D user_uuid) as Hconv.
  pose proof (joined_rows_messages D user_uuid) as Hmsg.
  pose proof (joined_rows_conversation D user_uuid) as Hfrom.
  pose proof (joined_rows_of_conversation D user_uuid) as Hto.
  unfold get_user_stats.
  destruct (joined_rows D user_uuid) as [|r rs] eqn:E.
  - split; [split; [intros _; apply Hempty; reflexivity|reflexivity]|].
    intros Hne. destruct Hne. apply Hempty. reflexivity.
  - split.
    { split; [discriminate|]. intros H. apply Hempty in H. discriminate. }
    intros _. eexists. split; [reflexivity|]. cbn [total_conversations total_messages
      oldest_conversation_date newest_conversation_date].
    split; [exact Hconv|]. split; [exact Hmsg|].
    set (col := map (fun r0 : N * option Z * option N => r0.1.2) (r :: rs)).
    assert (Hcol : forall v, v ∈ col <->
              exists r0, r0 ∈ r :: rs /\ v = r0.1.2).
    { intros v. unfold col.
      change (map (fun r0 : N * option Z * option N => r0.1.2)) with
        (fmap (M := list) (fun r0 : N * option Z * option N => r0.1.2)).
      rewrite list_elem_of_fmap. split; intros (r0 & H1 & H2); exists r0; tauto. }
    assert (Hback : forall f a, (forall x y, f x y = x \/ f x y = y) ->
              agg f col = Some a ->
              exists c, is_Some (conversations_of D user_uuid !! c) /\
                        created_at D !! c = Some a).
    { intros f a Hf Ha. apply agg_attained in Ha; [|exact Hf].
      apply Hcol in Ha as (r0 & Hr0 & Hv). destruct (Hfrom r0 Hr0) as [Hs Ht].
      exists r0.1.1. split; [exact Hs|]. rewrite <- Ht, Hv. reflexivity. }
    split; [|split; [|split]].
    + intros c t [row Hrow] Ht. destruct (Hto c row Hrow) as [i Hi].
      assert (Hin : Some t ∈ col).
      { apply Hcol. exists (c, created_at D !! c, i). split; [exact Hi|]. cbn. congruence. }
      destruct (agg_min_le col t Hin) as (a & Ha & Hle).
      destruct (agg_max_ge col t Hin) as (b & Hb & Hge).
      exists a, b. repeat split; assumption.
    + intros a. apply Hback. intros x y. lia.
    + intros b. apply Hback. intros x y. lia.
    + rewrite !agg_none. reflexivity.
Qed.

Lemma get_user_stats_counts_witness :
  conversations_of sample_database 1 <> ∅ /\
  exists s, get_user_stats sample_database 1 = [s] /\
            total_conversations s = 2%nat /\ total_messages s = 3%nat.
Proof.
  assert (Hne : conversations_of sample_database 1 <> ∅).
  { intros E. apply (f_equal (fun m => m !! 7%N)) in E. vm_compute in E. discriminate. }
  split; [exact Hne|].
  destruct (proj2 (get_user_stats_counts sample_database 1) Hne)
    as (s & Hs & Hc & Hm & _).
  exists s. split; [exact Hs|]. rewrite Hc, Hm. split; vm_compute; reflexivity.
Defined.

(** ** DOCX paragraphs *)

Import Docx.

Lemma strip_empty_iff s : strip s = "" <-> whitespace_only s = true.
Proof.
  unfold strip. split.
  - intros H. destruct (whitespace_only s) eqn:Hb; [reflexivity|].
    exfalso. apply (rstrip_nonblank (lstrip s)); [|exact H].
    rewrite whitespace_only_lstrip. exact Hb.
  - intros H. apply rstrip_blank. rewrite whitespace_only_lstrip. exact H.
Qed.

Lemma newline_cons s : newline ++ s = String "010" s.
Proof. unfold newline. rewrite str_app_cons, str_app_nil_l. reflexivity. Qed.

Lemma whitespace_only_newline s : whitespace_only (String "010" s) = whitespace_only s.
Proof. apply whitespace_only_1, space_width_space. reflexivity. Qed.

Lemma paragraphs_loop_text paragraphs text :
  paragraphs_loop paragraphs text = text ++ paragraphs_loop paragraphs "".
Proof.
  revert text. induction paragraphs as [|para paragraphs IH]; intros text.
  - cbn [paragraphs_loop]. rewrite str_app_nil_r. reflexivity.
  - cbn [paragraphs_loop]. destruct (strip para).
    + apply IH.
    + rewrite IH, (IH ("" ++ (para ++ newline))), str_app_nil_l, str_app_assoc.
      reflexivity.
Qed.

Lemma paragraphs_loop_cons para paragraphs :
  paragraphs_loop (para :: paragraphs) "" =
    if whitespace_only para then paragraphs_loop paragraphs ""
    else para ++ newline ++ paragraphs_loop paragraphs "".
Proof.
  cbn [paragraphs_loop]. destruct (whitespace_only para) eqn:Hb.
  - rewrite (proj2 (strip_empty_iff para) Hb). reflexivity.
  - destruct (strip para) eqn:E.
    + apply strip_empty_iff in E. congruence.
    + rewrite paragraphs_loop_text, str_app_nil_l, str_app_assoc. reflexivity.
Qed.

Lemma paragraphs_loop_filter paragraphs :
  paragraphs_loop paragraphs "" =
  paragraphs_loop (filter (fun p => whitespace_only p = false) paragraphs) "".
Proof.
  induction paragraphs as [|para paragraphs IH]; [reflexivity|].
  rewrite filter_cons, paragraphs_loop_cons. destruct (whitespace_only para) eqn:Hb.
  - rewrite decide_False by congruence. exact IH.
  - rewrite decide_True by reflexivity. rewrite paragraphs_loop_cons, Hb, IH. reflexivity.
Qed.

Lemma paragraphs_loop_blank paragraphs :
  whitespace_only (paragraphs_loop paragraphs "") = true <->
  Forall (fun p => whitespace_only p = true) paragraphs.
Proof.
  induction paragraphs as [|para paragraphs IH].
  - split; [constructor|reflexivity].
  - rewrite paragraphs_loop_cons, Forall_cons. destruct (whitespace_only para) eqn:Hb.
    + rewrite IH. tauto.
    + rewrite newline_cons, whitespace_only_app by reflexivity. rewrite Hb. cbn [andb].
      split; [discriminate|intros [H _]; discriminate].
Qed.

Lemma paragraphs_loop_concat paragraphs :
  Forall (fun p => whitespace_only p = false) paragraphs ->
  paragraphs <> [] ->
  paragraphs_loop paragraphs "" = String.concat newline paragraphs ++ newline.
Proof.
  induction 1 as [|para paragraphs Hb Hall IH]; [congruence|]. intros _.
  rewrite paragraphs_loop_cons, Hb. destruct paragraphs as [|q paragraphs].
  - cbn [paragraphs_loop String.concat]. rewrite str_app_nil_r. reflexivity.
  - rewrite IH by discriminate.
    change (String.concat newline (para :: q :: paragraphs))
      with (para ++ newline ++ String.concat newline (q :: paragraphs)).
    rewrite !str_app_assoc. reflexivity.
Qed.

Lemma strip_app_newline s : strip (s ++ newline) = strip s.
Proof.
  unfold strip, newline. destruct (whitespace_only s) eqn:Hb.
  - rewrite !rstrip_blank; [reflexivity| |].
    + rewrite whitespace_only_lstrip. exact Hb.
    + rewrite whitespace_only_lstrip, whitespace_only_app_blank by reflexivity. exact Hb.
  - rewrite lstrip_app_nonblank; [|reflexivity|apply lstrip_nonblank; exact Hb].
    apply rstrip_app_blank. reflexivity.
Qed.

Lemma rstrip_after_newline a last :
  whitespace_only last = false ->
  rstrip (a ++ newline ++ last) = a ++ newline ++ rstrip last.
Proof.
  intros Hb. rewrite !newline_cons.
  assert (Hn : whitespace_only (String "010" last) = false).
  { rewrite whitespace_only_newline. exact Hb. }
  rewrite (rstrip_app a "010" last eq_refl Hn), rstrip_cons, Hn. reflexivity.
Qed.

Lemma concat_lines_cons (x : string) (l : list string) :
  String.concat "" (map (fun p => p ++ newline) (x :: l))
  = x ++ newline ++ String.concat "" (map (fun p => p ++ newline) l).
Proof.
  cbn [map]. destruct (map (fun p => p ++ newline) l) as [|y m].
  - cbn [String.concat]. rewrite str_app_nil_r. reflexivity.
  - change (String.concat "" ((x ++ newline) :: y :: m))
      with ((x ++ newline) ++ "" ++ String.concat "" (y :: m)).
    rewrite str_app_nil_l, str_app_assoc. reflexivity.
Qed.

Lemma join_lines (l : list string) (last : string) :
  String.concat newline (l ++ [last])%list
  = String.concat "" (map (fun p => p ++ newline) l) ++ last.
Proof.
  induction l as [|x l IH]; [reflexivity|].
  rewrite concat_lines_cons, !str_app_assoc, <- IH.
  change ((x :: l) ++ [last])%list with (x :: (l ++ [last]))%list.
  destruct (l ++ [last])%list as [|y l'] eqn:El; [destruct l; discriminate|].
  reflexivity.
Qed.

Lemma rstrip_after_lines a middle last :
  whitespace_only last = false ->
  rstrip (a ++ newline ++ String.concat "" (map (fun p => p ++ newline) middle) ++ last)
  = a ++ newline ++ String.concat "" (map (fun p => p ++ newline) middle) ++ rstrip last.
Proof.
  intros Hb. revert a. induction middle as [|x middle IH]; intros a.
  - cbn [map String.concat]. rewrite !str_app_nil_l. apply rstrip_after_newline. exact Hb.
  - rewrite concat_lines_cons, !str_app_assoc.
    specialize (IH (a ++ newline ++ x)). rewrite !str_app_assoc in IH. exact IH.
Qed.

(** X11.  The text extracted from a DOCX document is the stripped join, by
    single newlines, of the paragraphs that are not blank: blank paragraphs
    leave no trace (no empty line), there is no newline after the last
    paragraph, and the result is empty exactly when every paragraph is
    blank.  The paragraphs themselves are not stripped: with two or more
    non-blank paragraphs, only the white space before the first and after the
    last is removed.  White space is what Python takes for it, the no-break
    space and the other white-space characters beyond ASCII included. *)
Theorem docx_text_joins_nonblank_paragraphs (paragraphs : list string) :
  extract_text_from_docx paragraphs
    = strip (String.concat newline
               (filter (fun p => whitespace_only p = false) paragraphs)) /\
  (extract_text_from_docx paragraphs = "" <->
     Forall (fun p => whitespace_only p = true) paragraphs) /\
  (forall first middle last,
     filter (fun p => whitespace_only p = false) paragraphs
       = (first :: middle ++ [last])%list ->
     extract_text_from_docx paragraphs
       = lstrip first ++ newline
         ++ String.concat "" (map (fun p => p ++ newline) middle) ++ rstrip last).
Proof.
  unfold extract_text_from_docx.
  assert (Hjoin : strip (paragraphs_loop paragraphs "")
                  = strip (String.concat newline
                             (filter (fun p => whitespace_only p = false) paragraphs))).
  { rewrite paragraphs_loop_filter.
    destruct (filter (fun p => whitespace_only p = false) paragraphs) as [|p l] eqn:E;
      [reflexivity|].
    rewrite paragraphs_loop_concat; [apply strip_app_newline| |discriminate].
    rewrite <- E. apply Forall_forall. intros x Hx.
    apply list_elem_of_filter in Hx as [Hx _]. exact Hx. }
  split; [exact Hjoin|]. split.
  - rewrite strip_empty_iff. apply paragraphs_loop_blank.
  - intros first middle last E. rewrite Hjoin, E.
    assert (Hall : Forall (fun p => whitespace_only p = false)
                     (first :: middle ++ [last])%list).
    { rewrite <- E. apply Forall_forall. intros x Hx.
      apply list_elem_of_filter in Hx as [Hx _]. exact Hx. }
    apply Forall_cons in Hall as [Hfirst Hrest].
    apply Forall_app in Hrest as [_ Hlast]. apply Forall_cons in Hlast as [Hlast _].
    clear E Hjoin.
    assert (Hcat : String.concat newline (first :: middle ++ [last])%list
                   = first ++ newline ++ String.concat newline (middle ++ [last])%list).
    { destruct (middle ++ [last])%list eqn:El; [destruct middle; discriminate|].
      reflexivity. }
    rewrite Hcat, join_lines. unfold strip.
    rewrite newline_cons.
    rewrite lstrip_app_nonblank; [|reflexivity|apply lstrip_nonblank; exact Hfirst].
    rewrite <- newline_cons. apply rstrip_after_lines. exact Hlast.
Qed.

Lemma docx_text_joins_nonblank_paragraphs_witness :
  extract_text_from_docx [MoreSamples.nbsp ++ " Title "; MoreSamples.nbsp; " Body " ++ MoreSamples.nbsp]
  = lstrip (MoreSamples.nbsp ++ " Title ") ++ newline
    ++ String.concat "" (map (fun p => p ++ newline) []) ++ rstrip (" Body " ++ MoreSamples.nbsp)
  /\ extract_text_from_docx [MoreSamples.nbsp ++ " Title "; MoreSamples.nbsp; " Body " ++ MoreSamples.nbsp]
     = "Title " ++ newline ++ " Body".
Proof.
  split; [|vm_compute; reflexivity].
  apply (proj2 (proj2 (docx_text_joins_nonblank_paragraphs
                         [MoreSamples.nbsp ++ " Title "; MoreSamples.nbsp; " Body " ++ MoreSamples.nbsp]))
           (MoreSamples.nbsp ++ " Title ") [] (" Body " ++ MoreSamples.nbsp)).
  vm_compute. reflexivity.
Defined.

(** ** The context assembler on arbitrary histories *)

Import Context.

Lemma append_all_inv messages : forall context out,
  append_all context messages = Some out ->
  exists entries,
    out = (context ++ entries)%list /\
    Forall2 (fun m e => entry_of m = Some e) messages entries.
Proof.
  induction messages as [|m messages IH]; intros context out; cbn [append_all].
  - intros [= <-]. exists []. rewrite app_nil_r. split; [reflexivity|constructor].
  - destruct (entry_of m) as [e|] eqn:He; [|discriminate]. intros H.
    destruct (IH _ _ H) as (entries & -> & Hall).
    exists (e :: entries). rewrite <- app_assoc. split; [reflexivity|].
    constructor; assumption.
Qed.

Lemma append_all_none messages : forall context,
  append_all context messages = None <-> Exists (fun m => entry_of m = None) messages.
Proof.
  induction messages as [|m messages IH]; intros context; cbn [append_all].
  - split; [discriminate|]. intros H. inversion H.
  - rewrite Exists_cons. destruct (entry_of m) as [e|] eqn:He.
    + rewrite IH. split; [tauto|]. intros [H|H]; [discriminate|exact H].
    + split; [left; reflexivity|reflexivity].
Qed.

Lemma append_all_app a b : forall context,
  append_all context (a ++ b)%list =
    match append_all context a with
    | Some context' => append_all context' b
    | None => None
    end.
Proof.
  induction a as [|m a IH]; intros context; cbn [app append_all]; [reflexivity|].
  destruct (entry_of m); [apply IH|reflexivity].
Qed.

Lemma entry_of_none m :
  entry_of m = None <-> getitem m "role" = None \/ getitem m "content" = None.
Proof.
  unfold entry_of. destruct (getitem m "role"), (getitem m "content");
    split; try discriminate; try tauto; intros [H|H]; discriminate.
Qed.

Lemma entry_of_entry m e : entry_of m = Some e -> entry_of e = Some e.
Proof.
  intros H. apply entry_of_fields in H as (_ & _ & r & c & ->). reflexivity.
Qed.

(** X12.  The assembler raises exactly when some message of the history
    lacks a role or a content (or is no dictionary at all); the position of
    that message and the system prompt do not matter, and nothing is
    returned for the messages before it. *)
Theorem prepare_context_raises_on_incomplete_message
    (messages : list pyval) (system_prompt : string) :
  prepare_context messages system_prompt = None <->
  Exists (fun m => getitem m "role" = None \/ getitem m "content" = None) messages.
Proof.
  unfold prepare_context. rewrite append_all_none.
  split; intros H; (eapply Exists_impl; [exact H|]); intros m Hm;
    apply entry_of_none; exact Hm.
Qed.

(** X13.  Assembling is incremental: the context of a history that continues
    another one begins with the context of that one and adds one entry per
    further message (or raises).  Its entries are in normal form: assembling
    the entries of a context again returns them unchanged, after the system
    entry of whatever system prompt is given. *)
Theorem prepare_context_is_incremental
    (messages more : list pyval) (system_prompt : string) (context : list pyval) :
  prepare_context messages system_prompt = Some context ->
  (prepare_context (messages ++ more)%list system_prompt = None \/
   exists entries,
     prepare_context (messages ++ more)%list system_prompt = Some (context ++ entries)%list
     /\ length entries = length more) /\
  (forall system_prompt',
     prepare_context (tail context) system_prompt' =
       Some (PDict [("role", PStr "system"); ("content", PStr system_prompt')]
             :: tail context)).
Proof.
  unfold prepare_context. intros H. split.
  - rewrite append_all_app, H.
    destruct (append_all context more) as [out|] eqn:E; [right|left; reflexivity].
    destruct (append_all_inv _ _ _ E) as (entries & -> & Hall).
    exists entries. split; [reflexivity|]. symmetry. exact (Forall2_length _ _ _ Hall).
  - intros system_prompt'.
    destruct (append_all_inv _ _ _ H) as (entries & -> & Hall).
    cbn [app tail].
    destruct (append_all_entries
                [PDict [("role", PStr "system"); ("content", PStr system_prompt')]]
                entries) as (entries' & -> & Hall').
    + clear H. induction Hall as [|m e ms es He _ IH]; constructor; [|exact IH].
      rewrite (entry_of_entry m e He). eexists; reflexivity.
    + f_equal. cbn [app]. f_equal. clear H.
      revert entries' Hall'. induction Hall as [|m e ms es He _ IH]; intros entries' Hall'.
      * inversion Hall'. reflexivity.
      * inversion Hall' as [|? e' ? es' He' Hes']; subst.
        rewrite (entry_of_entry m e He) in He'. injection He' as <-.
        f_equal. exact (IH es' Hes').
Qed.

Lemma prepare_context_is_incremental_witness :
  exists entries,
    prepare_context
      ([PDict [("role", PStr "user"); ("content", PStr "Hi"); ("id", PInt 1)]]
       ++ [PDict [("content", PStr "Hello"); ("role", PStr "assistant")]])%list "Be brief"
    = Some ([PDict [("role", PStr "system"); ("content", PStr "Be brief")];
             PDict [("role", PStr "user"); ("content", PStr "Hi")]] ++ entries)%list
    /\ length entries = 1%nat.
Proof.
  destruct (proj1 (prepare_context_is_incremental
                     [PDict [("role", PStr "user"); ("content", PStr "Hi"); ("id", PInt 1)]]
                     [PDict [("content", PStr "Hello"); ("role", PStr "assistant")]]
                     "Be brief"
                     [PDict [("role", PStr "system"); ("content", PStr "Be brief")];
                      PDict [("role", PStr "user"); ("content", PStr "Hi")]]
                     eq_refl)) as [H|H].
  - vm_compute in H. discriminate.
  - exact H.
Defined.

(** ** The relay as a stream *)

Import MoreSamples.

Lemma generate_response_stream_ended pre post :
  snd (generate_response_stream pre) <> Exhausted ->
  generate_response_stream (pre ++ post)%list = generate_response_stream pre.
Proof.
  induction pre as [|l pre IH]; cbn [app generate_response_stream].
  - intros H. destruct H. reflexivity.
  - destruct (loop_body l); try reflexivity.
    + destruct (generate_response_stream pre) as [ys e] eqn:E. cbn [snd] in *.
      intros H. rewrite (IH H). reflexivity.
    + exact IH.
Qed.

Lemma generate_response_stream_prefix pre post :
  fst (generate_response_stream pre) `prefix_of`
  fst (generate_response_stream (pre ++ post)%list).
Proof.
  destruct (generate_response_stream pre) as [ys e] eqn:E. destruct e.
  - rewrite (generate_response_stream_app_exhausted _ post _ E). cbn [fst].
    apply prefix_app_r. reflexivity.
  - rewrite generate_response_stream_ended by (rewrite E; discriminate).
    rewrite E. reflexivity.
  - rewrite generate_response_stream_ended by (rewrite E; discriminate).
    rewrite E. reflexivity.
Qed.

Lemma loop_body_yields_truthy line content :
  loop_body line = Yield content -> truthy content = true.
Proof.
  unfold loop_body. destruct (Json.loads line) as [chunk|]; [|discriminate].
  destruct (get chunk "done" PNone) as [done|]; [|discriminate].
  destruct (truthy done); [discriminate|].
  destruct (get chunk "message" (PDict [])) as [message|]; [|discriminate].
  destruct (get message "content" (PStr "")) as [c|]; [|discriminate].
  destruct (truthy c) eqn:Hc; [|discriminate]. intros [= <-]. exact Hc.
Qed.

(** X14.  The relay is a stream: what it has yielded after some lines stays a
    prefix of what it yields after more lines; once it has ended at a
    completion line or with an exception, further lines change nothing;
    every value it yields is non-empty (has truth value true), and it yields
    at most one value per line read. *)
Theorem relay_output_only_grows :
  (forall pre post,
     fst (generate_response_stream pre) `prefix_of`
     fst (generate_response_stream (pre ++ post)%list)) /\
  (forall pre post,
     snd (generate_response_stream pre) <> Exhausted ->
     generate_response_stream (pre ++ post)%list = generate_response_stream pre) /\
  (forall lines,
     Forall (fun y => truthy y = true) (fst (generate_response_stream lines)) /\
     (length (fst (generate_response_stream lines)) <= length lines)%nat).
Proof.
  split; [exact generate_response_stream_prefix|].
  split; [exact generate_response_stream_ended|].
  induction lines as [|l lines [IH1 IH2]]; cbn [generate_response_stream].
  - split; [constructor|reflexivity].
  - destruct (loop_body l) as [y| | |] eqn:El; cbn [fst length].
    + destruct (generate_response_stream lines) as [ys e]. cbn [fst length] in *.
      split; [|lia]. constructor; [|exact IH1].
      exact (loop_body_yields_truthy l y El).
    + split; [exact IH1|lia].
    + split; [constructor|lia].
    + split; [constructor|lia].
Qed.

Lemma relay_output_only_grows_witness :
  generate_response_stream ([the_line; done_line] ++ [end_line])%list
  = generate_response_stream [the_line; done_line].
Proof.
  apply (proj1 (proj2 relay_output_only_grows) [the_line; done_line] [end_line]).
  vm_compute. discriminate.
Defined.

(** X15.  An object of the server that has neither a completion flag nor a
    message, such as its error report, is read past in silence: the relay
    yields nothing for it, raises nothing, and goes on with the next line;
    a response that consists of such an object alone ends as an empty,
    regular stream. *)
Theorem relay_reads_past_objects_without_message (line : string) (d : list (string * pyval)) :
  Json.loads line = Some (PDict d) ->
  dict_lookup "done" d = None ->
  dict_lookup "message" d = None ->
  loop_body line = Continue /\
  (forall rest, generate_response_stream (line :: rest) = generate_response_stream rest) /\
  generate_response_stream [line] = ([], Exhausted).
Proof.
  intros Hl Hd Hm.
  assert (Hb : loop_body line = Continue).
  { unfold loop_body. rewrite Hl. cbn [get]. rewrite Hd, Hm. reflexivity. }
  split; [exact Hb|]. split.
  - intros rest. cbn [generate_response_stream]. rewrite Hb. reflexivity.
  - cbn [generate_response_stream]. rewrite Hb. reflexivity.
Qed.

Lemma relay_reads_past_objects_without_message_witness :
  generate_response_stream [error_line] = ([], Exhausted).
Proof.
  apply (proj2 (proj2 (relay_reads_past_objects_without_message error_line
                         [("error", PStr "model not found")]
                         ltac:(vm_compute; reflexivity) eq_refl eq_refl))).
Defined.

(** ** The request payload *)

Lemma dict_lookup_dict_set_ne k k' v d :
  k <> k' -> dict_lookup k (dict_set k' v d) = dict_lookup k d.
Proof.
  intros Hk. induction d as [|[k0 v0] d IH]; cbn [dict_set dict_lookup].
  - replace (String.eqb k k') with false; [reflexivity|].
    symmetry. apply String.eqb_neq. exact Hk.
  - destruct (String.eqb k' k0) eqn:E; cbn [dict_lookup].
    + apply String.eqb_eq in E. subst k0.
      replace (String.eqb k k') with false; [reflexivity|].
      symmetry. apply String.eqb_neq. exact Hk.
    + rewrite IH. reflexivity.
Qed.

Lemma dict_lookup_dict_set k v d : dict_lookup k (dict_set k v d) = Some v.
Proof.
  induction d as [|[k0 v0] d IH]; cbn [dict_set dict_lookup].
  - rewrite String.eqb_refl. reflexivity.
  - destruct (String.eqb k k0) eqn:E; cbn [dict_lookup].
    + rewrite String.eqb_refl. reflexivity.
    + rewrite E. exact IH.
Qed.

Lemma list_index_last (l : list pyval) :
  Request.list_index l (Z.of_nat (length l) - 1) =
    match l with [] => None | _ => Some (length l - 1)%nat end.
Proof.
  unfold Request.list_index. destruct l as [|x l].
  - reflexivity.
  - cbn [length]. replace (Z.of_nat (S (length l)) - 1 <? 0) with false
      by (symmetry; apply Z.ltb_ge; lia).
    replace (0 <=? Z.of_nat (S (length l)) - 1) with true
      by (symmetry; apply Z.leb_le; lia).
    replace (Z.of_nat (S (length l)) - 1 <? Z.of_nat (S (length l))) with true
      by (symmetry; apply Z.ltb_lt; lia).
    cbn [andb]. f_equal. lia.
Qed.

Lemma image_data_length images data :
  Request.image_data images = Some data ->
  Forall2 (fun img x => getitem img "data" = Some x) images data.
Proof.
  revert data. induction images as [|img images IH]; intros data; cbn [Request.image_data].
  - intros [= <-]. constructor.
  - destruct (getitem img "data") as [x|] eqn:Hx; [|discriminate].
    destruct (Request.image_data images) as [rest|]; [|discriminate].
    intros [= <-]. constructor; [exact Hx|apply IH; reflexivity].
Qed.

Lemma payload_eq (formatted_messages : list pyval) (images : gmap Z (list pyval))
    (model_name : string) :
  Request.payload formatted_messages images model_name =
  match images !! (Z.of_nat (length formatted_messages) - 1) with
  | None => Some (Request.payload_of model_name formatted_messages)
  | Some imgs =>
      match Request.image_data imgs with
      | None => None
      | Some data =>
          match Request.list_index formatted_messages
                  (Z.of_nat (length formatted_messages) - 1) with
          | None => None
          | Some i =>
              match formatted_messages !! i with
              | None => None
              | Some message =>
                  match Request.set_images message data with
                  | None => None
                  | Some message' =>
                      Some (Request.payload_of model_name
                              (<[i := message']> formatted_messages))
                  end
              end
          end
      end
  end.
Proof.
  unfold Request.payload.
  destruct (decide (images = ∅)) as [->|_]; [|reflexivity].
  rewrite lookup_empty. reflexivity.
Qed.

Lemma image_data_none images :
  Request.image_data images = None <-> Exists (fun img => getitem img "data" = None) images.
Proof.
  induction images as [|img images IH]; cbn [Request.image_data].
  - split; [discriminate|]. intros H. inversion H.
  - rewrite Exists_cons. destruct (getitem img "data") as [x|].
    + destruct (Request.image_data images) as [rest|].
      * split; [discriminate|]. intros [H|H]; [discriminate|].
        apply IH in H. discriminate.
      * split; [intros _; right; apply IH; reflexivity|reflexivity].
    + split; [left; reflexivity|reflexivity].
Qed.

(** X16.  Only the images of the last message are sent.  The payload depends
    on the images found only through those keyed by the index of the last
    message: images of earlier messages are dropped without notice.  When a
    payload is built it names the model, asks for a stream, and carries the
    formatted messages in their order, all but the last unchanged; the last
    differs at most in its [images], which then hold the data of its images
    in their order. *)
Theorem payload_carries_images_of_last_message_only
    (formatted_messages : list pyval) (images_by_message : gmap Z (list pyval))
    (model_name : string) :
  (forall images',
     images' !! (Z.of_nat (length formatted_messages) - 1)
       = images_by_message !! (Z.of_nat (length formatted_messages) - 1) ->
     Request.payload formatted_messages images' model_name
       = Request.payload formatted_messages images_by_message model_name) /\
  (images_by_message !! (Z.of_nat (length formatted_messages) - 1) = None ->
   Request.payload formatted_messages images_by_message model_name
     = Some (Request.payload_of model_name formatted_messages)) /\
  (forall p,
     Request.payload formatted_messages images_by_message model_name = Some p ->
     exists messages',
       p = PDict [("model", PStr model_name); ("messages", PList messages');
                  ("stream", PBool true)] /\
       length messages' = length formatted_messages /\
       (forall i, (i + 1 < length formatted_messages)%nat ->
                  messages' !! i = formatted_messages !! i) /\
       (forall last last',
          formatted_messages !! (length formatted_messages - 1)%nat = Some last ->
          messages' !! (length formatted_messages - 1)%nat = Some last' ->
          (forall k, k <> "images" -> getitem last' k = getitem last k) /\
          match images_by_message !! (Z.of_nat (length formatted_messages) - 1) with
          | None => last' = last
          | Some images =>
              exists data,
                getitem last' "images" = Some (PList data) /\
                Forall2 (fun img x => getitem img "data" = Some x) images data
          end)).
Proof.
  pose proof (fun images => payload_eq formatted_messages images model_name) as Hdep.
  split; [|split].
  - intros images' H. rewrite !Hdep, H. reflexivity.
  - intros H. rewrite Hdep, H. reflexivity.
  - intros p. rewrite Hdep.
    destruct (images_by_message !! (Z.of_nat (length formatted_messages) - 1))
      as [imgs|] eqn:Himgs.
    + destruct (Request.image_data imgs) as [data|] eqn:Hdata; [|discriminate].
      rewrite list_index_last.
      destruct formatted_messages as [|m0 ms] eqn:Hms; [discriminate|].
      rewrite <- Hms in *.
      destruct (formatted_messages !! (length formatted_messages - 1)%nat)
        as [message|] eqn:Hlast; [|discriminate].
      destruct message as [| | | | | | | |d]; try discriminate.
      cbn [Request.set_images]. intros [= <-].
      eexists. split; [reflexivity|].
      split; [apply length_insert|]. split.
      * intros i Hi. apply list_lookup_insert_ne. lia.
      * intros last last' [= <-] Hl'.
        rewrite list_lookup_insert_eq in Hl'
          by (apply lookup_lt_is_Some; eexists; exact Hlast).
        injection Hl' as <-. split.
        -- intros k Hk. cbn [getitem]. apply dict_lookup_dict_set_ne. exact Hk.
        -- exists data. split; [cbn [getitem]; apply dict_lookup_dict_set|].
           apply image_data_length. exact Hdata.
    + intros [= <-]. exists formatted_messages.
      split; [reflexivity|]. split; [reflexivity|]. split; [reflexivity|].
      intros last last' H1 H2. rewrite H1 in H2. injection H2 as <-.
      split; reflexivity.
Qed.

Lemma payload_carries_images_of_last_message_only_witness :
  Request.payload
    [PDict [("role", PStr "user"); ("content", PStr "What is this?")];
     PDict [("role", PStr "user"); ("content", PStr "And now?")]]
    {[ 0 := [PDict [("data", PStr "aGk=")]] ]} "qwen3-vl:8b"
  = Some (Request.payload_of "qwen3-vl:8b"
            [PDict [("role", PStr "user"); ("content", PStr "What is this?")];
             PDict [("role", PStr "user"); ("content", PStr "And now?")]]).
Proof.
  apply (proj1 (proj2 (payload_carries_images_of_last_message_only
           [PDict [("role", PStr "user"); ("content", PStr "What is this?")];
            PDict [("role", PStr "user"); ("content", PStr "And now?")]]
           {[ 0 := [PDict [("data", PStr "aGk=")]] ]} "qwen3-vl:8b"))).
  vm_compute. reflexivity.
Defined.

(** X17.  Building the payload raises in exactly three cases, all of them
    with images filed under the index of the last message: there is no
    message at all (the index is -1); one of those images has no data; the
    last message is no dictionary.  A request without images for the last
    message never raises. *)
Theorem payload_raises_exactly_when
    (formatted_messages : list pyval) (images_by_message : gmap Z (list pyval))
    (model_name : string) :
  Request.payload formatted_messages images_by_message model_name = None <->
  exists images,
    images_by_message !! (Z.of_nat (length formatted_messages) - 1) = Some images /\
    (Exists (fun img => getitem img "data" = None) images \/
     formatted_messages = [] \/
     exists m, last formatted_messages = Some m /\ forall d, m <> PDict d).
Proof.
  rewrite payload_eq.
  destruct (images_by_message !! (Z.of_nat (length formatted_messages) - 1))
    as [imgs|] eqn:Himgs.
  2:{ split; [discriminate|]. intros (images & H & _). discriminate. }
  destruct (Request.image_data imgs) as [data|] eqn:Hdata.
  2:{ split; [|reflexivity]. intros _. exists imgs. split; [reflexivity|].
      left. apply image_data_none. exact Hdata. }
  assert (Hok : ~ Exists (fun img => getitem img "data" = None) imgs).
  { intros H. apply image_data_none in H. congruence. }
  rewrite list_index_last.
  destruct formatted_messages as [|m0 ms] eqn:Hms.
  { split; [|reflexivity]. intros _. exists imgs. split; [reflexivity|]. right. left.
    reflexivity. }
  rewrite <- Hms. rewrite last_lookup.
  replace (length formatted_messages - 1)%nat with (pred (length formatted_messages)) by lia.
  destruct (formatted_messages !! pred (length formatted_messages)) as [m|] eqn:Hlast.
  2:{ exfalso. apply lookup_ge_None in Hlast. rewrite Hms in Hlast. cbn in Hlast. lia. }
  split.
  - intros H. exists imgs. split; [reflexivity|]. right. right.
    exists m. split; [reflexivity|]. intros d ->. discriminate.
  - intros (images & [= <-] & [H|[H|(m' & [= <-] & Hm)]]).
    + destruct (Hok H).
    + rewrite Hms in H. discriminate.
    + destruct m; try reflexivity. destruct (Hm d). reflexivity.
Qed.

Lemma payload_raises_exactly_when_witness :
  Request.payload [] {[ (-1) := [] ]} "qwen3-vl:8b" = None.
Proof.
  apply (proj2 (payload_raises_exactly_when [] {[ (-1) := [] ]} "qwen3-vl:8b")).
  exists []. split; [reflexivity|]. right. left. reflexivity.
Defined.

(** ** Outcomes of the image normaliser *)

Section NormaliserOutcomes.

Context `{HP : Pillow}.

(** X18.  The normaliser has three outcomes, decided by the size and the
    mode of the image alone.  It reports an image as too small exactly when
    a side is below 50 pixels, whatever the mode: the size is checked first.
    Its only other failure is the encoder's refusal of mode RGBA, for every
    RGBA image of sufficient size.  Every other image is encoded, and then
    always as an RGB image written as a JPEG of quality 95 and tagged as
    [image] of media type [image/jpeg]. *)
Theorem normaliser_outcomes (img : image) :
  match convert_image_to_base64 img with
  | inl ImageTooSmall => width img < 50 \/ height img < 50
  | inl (CannotWriteMode m) =>
      m = RGBA /\ img_mode img = RGBA /\ 50 <= width img /\ 50 <= height img
  | inr p =>
      50 <= width img /\ 50 <= height img /\ img_mode img <> RGBA /\
      type_ p = "image" /\ media_type p = "image/jpeg" /\
      exists out, data p = b64encode_jpeg out 95 /\ img_mode out = RGB
  end.
Proof.
  rewrite convert_image_to_base64_cases.
  destruct ((width img <? 50) || (height img <? 50)) eqn:Hsmall.
  - apply orb_true_iff in Hsmall as [H|H]; apply Z.ltb_lt in H; [left|right]; exact H.
  - apply orb_false_elim in Hsmall as [H1 H2].
    apply Z.ltb_ge in H1. apply Z.ltb_ge in H2.
    destruct (img_mode img) eqn:Hm;
      try (split; [exact H1|]; split; [exact H2|]; split; [discriminate|];
           split; [reflexivity|]; split; [reflexivity|];
           eexists; split; reflexivity).
    repeat split; assumption.
Qed.

End NormaliserOutcomes.

(** ** The browser client of the chat stream *)

Import Client ClientSpec.

Lemma split_from_no_newline piece s :
  has_newline s = false -> split_from piece s = [piece ++ s].
Proof.
  revert piece. induction s as [|c s IH]; intros piece; cbn [has_newline split_from].
  - rewrite str_app_nil_r. reflexivity.
  - destruct (c =? "010")%char; [discriminate|]. cbn [orb]. intros H.
    rewrite (IH _ H), str_app_assoc. reflexivity.
Qed.

Lemma split_from_app piece a b :
  split_from piece (a ++ newline ++ b) = (split_from piece a ++ split_newline b)%list.
Proof.
  revert piece. induction a as [|c a IH]; intros piece.
  - reflexivity.
  - rewrite str_app_cons. cbn [split_from].
    destruct (c =? "010")%char; rewrite IH; reflexivity.
Qed.

Lemma last_is_unique {A} (x : A) (pre' pre post : list A) :
  x ∉ pre' -> (pre' ++ [x] = pre ++ x :: post)%list -> pre = pre' /\ post = [].
Proof.
  revert pre. induction pre' as [|y pre' IH]; intros pre Hx E.
  - destruct pre as [|z pre]; cbn in E.
    + injection E as <-. split; reflexivity.
    + injection E as <- E. destruct pre; discriminate.
  - destruct pre as [|z pre]; cbn in E.
    + injection E as -> _. exfalso. apply Hx. left.
    + injection E as <- E.
      destruct (IH pre) as [-> ->]; [|exact E|split; reflexivity].
      intros H. apply Hx. right. exact H.
Qed.

Section ClientProperties.

Variable JSON_parse : string -> option pyval.

Lemma handle_line_shape line :
  exists (d : list call) (r : bool),
    handle_line JSON_parse line = ((d ++ (if r then [onComplete] else []))%list, r) /\
    (d = [] \/ (exists s, d = [onChunk s] /\ s <> "") \/
     (exists e, d = [onError e] /\ js_truthy (Some e) = true)) /\
    (startswith "data: " line = false -> d = [] /\ r = false).
Proof.
  unfold handle_line. destruct (startswith "data: " line) eqn:Hs.
  2:{ exists [], false. repeat split; left; reflexivity. }
  assert (Hnone : exists (d : list call) (r : bool),
            ([] : list call, false) = ((d ++ (if r then [onComplete] else []))%list, r) /\
            (d = [] \/ (exists s, d = [onChunk s] /\ s <> "") \/
             (exists e, d = [onError e] /\ js_truthy (Some e) = true)) /\
            (true = false -> d = [] /\ r = false)).
  { exists [], false. split; [reflexivity|]. split; [left; reflexivity|discriminate]. }
  destruct (JSON_parse (slice 6 line)) as [data|]; [|exact Hnone].
  assert (Hfinish : forall d,
            (d = [] \/ (exists s, d = [onChunk s] /\ s <> "") \/
             (exists e, d = [onError e] /\ js_truthy (Some e) = true)) ->
            exists (d' : list call) (r : bool),
              (if js_truthy (field data "done")
               then ((d ++ [onComplete])%list, true) else (d, false))
              = ((d' ++ (if r then [onComplete] else []))%list, r) /\
              (d' = [] \/ (exists s, d' = [onChunk s] /\ s <> "") \/
               (exists e, d' = [onError e] /\ js_truthy (Some e) = true)) /\
              (true = false -> d' = [] /\ r = false)).
  { intros d Hd. destruct (js_truthy (field data "done")).
    - exists d, true. split; [reflexivity|]. split; [exact Hd|discriminate].
    - exists d, false. rewrite app_nil_r. split; [reflexivity|].
      split; [exact Hd|discriminate]. }
  assert (Hcontent :
            exists (d : list call) (r : bool),
              match field data "content", js_truthy (field data "content") with
              | _, false =>
                  if js_truthy (field data "done")
                  then (([] ++ [onComplete])%list, true) else ([], false)
              | Some (PStr content), true =>
                  if js_truthy (field data "done")
                  then (([onChunk content] ++ [onComplete])%list, true)
                  else ([onChunk content], false)
              | _, true => ([], false)
              end = ((d ++ (if r then [onComplete] else []))%list, r) /\
              (d = [] \/ (exists s, d = [onChunk s] /\ s <> "") \/
               (exists e, d = [onError e] /\ js_truthy (Some e) = true)) /\
              (true = false -> d = [] /\ r = false)).
  { destruct (field data "content") as [c|].
    - destruct (js_truthy (Some c)) eqn:Hc.
      + destruct c; try exact Hnone.
        apply Hfinish. right. left. exists s. split; [reflexivity|].
        cbn in Hc. intros ->. discriminate.
      + destruct c; apply Hfinish; left; reflexivity.
    - cbn [js_truthy]. apply Hfinish. left. reflexivity. }
  destruct data; try exact Hnone; try exact Hcontent.
  destruct (field (PDict d) "error") as [e|]; [|exact Hcontent].
  destruct (js_truthy (Some e)) eqn:He; [|exact Hcontent].
  apply Hfinish. right. right. exists e. split; [reflexivity|exact He].
Qed.

Lemma handle_lines_app a b :
  handle_lines JSON_parse (a ++ b)%list =
    let '(ca, ra) := handle_lines JSON_parse a in
    if ra then (ca, true)
    else let '(cb, rb) := handle_lines JSON_parse b in ((ca ++ cb)%list, rb).
Proof.
  induction a as [|line a IH]; cbn [app handle_lines].
  - destruct (handle_lines JSON_parse b). reflexivity.
  - destruct (handle_line JSON_parse line) as [c r]. destruct r; [reflexivity|].
    rewrite IH. destruct (handle_lines JSON_parse a) as [ca ra].
    destruct ra; [reflexivity|].
    destruct (handle_lines JSON_parse b) as [cb rb]. rewrite app_assoc. reflexivity.
Qed.

Lemma handle_lines_returned lines :
  snd (handle_lines JSON_parse lines) = true <->
  Exists (fun line => snd (handle_line JSON_parse line) = true) lines.
Proof.
  induction lines as [|line lines IH]; cbn [handle_lines].
  - split; [discriminate|]. intros H. inversion H.
  - rewrite Exists_cons. destruct (handle_line JSON_parse line) as [c r]. cbn [snd].
    destruct r.
    + split; [left; reflexivity|reflexivity].
    + destruct (handle_lines JSON_parse lines) as [c' r']. cbn [snd] in *.
      rewrite IH. split; [tauto|]. intros [H|H]; [discriminate|exact H].
Qed.

Lemma handle_lines_complete lines :
  exists pre : list call,
    (onComplete ∉ pre) /\
    fst (handle_lines JSON_parse lines) =
      (pre ++ (if snd (handle_lines JSON_parse lines) then [onComplete] else []))%list.
Proof.
  induction lines as [|line lines (pre & Hpre & IH)]; cbn [handle_lines].
  - exists []. split; [|reflexivity]. intros H. inversion H.
  - destruct (handle_line_shape line) as (d & r & -> & Hd & _).
    assert (Hnd : onComplete ∉ d).
    { destruct Hd as [-> | [(s & -> & _) | (e & -> & _)]]; intros H;
        [inversion H|apply list_elem_of_singleton in H; discriminate..]. }
    destruct r.
    + exists d. split; [exact Hnd|reflexivity].
    + destruct (handle_lines JSON_parse lines) as [c' r']. cbn [fst snd] in *.
      exists (d ++ pre)%list. split.
      * intros H. apply elem_of_app in H as [H|H]; [exact (Hnd H)|exact (Hpre H)].
      * rewrite IH, app_nil_r, app_assoc. reflexivity.
Qed.

Lemma read_loop_lines chunks e :
  read_loop JSON_parse chunks e =
    let '(calls, returned) := handle_lines JSON_parse (lines_of chunks) in
    if returned then calls else (calls ++ at_end e)%list.
Proof.
  unfold lines_of. induction chunks as [|chunk chunks IH].
  - destruct e; reflexivity.
  - cbn [read_loop flat_map]. rewrite handle_lines_app.
    destruct (handle_lines JSON_parse (split_newline chunk)) as [c r].
    destruct r; [reflexivity|]. rewrite IH.
    destruct (handle_lines JSON_parse (flat_map split_newline chunks)) as [c' r'].
    destruct r'; [reflexivity|]. rewrite app_assoc. reflexivity.
Qed.

Lemma lines_of_app a b : lines_of (a ++ b)%list = (lines_of a ++ lines_of b)%list.
Proof. unfold lines_of. apply flat_map_app. Qed.

Lemma at_end_no_complete e : onComplete ∉ at_end e.
Proof.
  destruct e; cbn [at_end]; intros H;
    [inversion H|apply list_elem_of_singleton in H; discriminate].
Qed.

(** X20.  Completion is signalled at most once and then as the very last
    call.  It is signalled exactly when the response is accepted and the
    handling of one of the lines of its chunks reaches the completion flag
    and finds it true; a stream that ends without such a line, closed or
    failed, ends without [onComplete]. *)
Theorem completion_is_signalled_last_and_only_on_done (f : fetched) :
  (forall pre post,
     sendMessageStream JSON_parse f = (pre ++ onComplete :: post)%list ->
     post = [] /\ onComplete ∉ pre) /\
  (onComplete ∈ sendMessageStream JSON_parse f <->
   exists r, f = Resolved r /\ ok r = true /\
     Exists (fun line => snd (handle_line JSON_parse line) = true) (lines_of (chunks r))).
Proof.
  assert (Hsingle : forall (x : call) pre post,
            x <> onComplete -> [x] = (pre ++ onComplete :: post)%list -> False).
  { intros x pre post Hx E. destruct pre as [|y pre]; cbn in E.
    - injection E as -> _. apply Hx. reflexivity.
    - injection E as _ E. destruct pre; discriminate. }
  destruct f as [message|r]; cbn [sendMessageStream].
  - split.
    + intros pre post E. exfalso. eapply Hsingle; [|exact E]. discriminate.
    + split.
      * intros H. apply list_elem_of_singleton in H. discriminate.
      * intros (r & H & _). discriminate.
  - destruct (ok r) eqn:Hok.
    2:{ split.
        - intros pre post E. exfalso. eapply Hsingle; [|exact E]. discriminate.
        - split.
          + intros H. apply list_elem_of_singleton in H. discriminate.
          + intros (r' & [= <-] & H & _). congruence. }
    rewrite read_loop_lines.
    destruct (handle_lines_complete (lines_of (chunks r))) as (pre' & Hpre' & Hc).
    pose proof (handle_lines_returned (lines_of (chunks r))) as Hret.
    destruct (handle_lines JSON_parse (lines_of (chunks r))) as [calls returned].
    cbn [fst snd] in *. subst calls. destruct returned.
    + split.
      * intros pre post E. apply last_is_unique in E as [-> ->]; [|exact Hpre'].
        split; [reflexivity|exact Hpre'].
      * split.
        -- intros _. exists r. split; [reflexivity|]. split; [exact Hok|].
           apply Hret. reflexivity.
        -- intros _. apply elem_of_app. right. left.
    + rewrite app_nil_r.
      assert (Hno : onComplete ∉ (pre' ++ at_end (ending r))%list).
      { intros H. apply elem_of_app in H as [H|H]; [exact (Hpre' H)|].
        exact (at_end_no_complete _ H). }
      split.
      * intros pre post E. exfalso. apply Hno. rewrite E.
        apply elem_of_app. right. left.
      * split; [intros H; destruct (Hno H)|].
        intros (r' & [= <-] & _ & H). apply Hret in H. discriminate.
Qed.

(** X21.  Nothing is delivered after a completion event: the lines that
    follow it in the same chunk, the chunks that follow, and the way the
    body ends have no effect on the calls made. *)
Theorem nothing_is_delivered_after_done
    (pre post : list string) (chunk : string) (e e' : body_end) :
  snd (handle_lines JSON_parse (split_newline chunk)) = true ->
  read_loop JSON_parse (pre ++ chunk :: post)%list e
    = read_loop JSON_parse (pre ++ [chunk])%list e' /\
  (forall a line b,
     split_newline chunk = (a ++ line :: b)%list ->
     snd (handle_line JSON_parse line) = true ->
     handle_lines JSON_parse (split_newline chunk)
       = handle_lines JSON_parse (a ++ [line])%list).
Proof.
  intros Hret. split.
  - rewrite !read_loop_lines, !lines_of_app, !handle_lines_app.
    destruct (handle_lines JSON_parse (lines_of pre)) as [c r].
    destruct r; [reflexivity|].
    change (lines_of (chunk :: post)) with (split_newline chunk ++ lines_of post)%list.
    change (lines_of [chunk]) with (split_newline chunk ++ lines_of [])%list.
    rewrite !handle_lines_app.
    destruct (handle_lines JSON_parse (split_newline chunk)) as [c' r'].
    cbn [snd] in Hret. subst r'. reflexivity.
  - intros a line b -> Hline. rewrite !handle_lines_app.
    destruct (handle_lines JSON_parse a) as [c r]. destruct r; [reflexivity|].
    cbn [handle_lines]. destruct (handle_line JSON_parse line) as [c' r'].
    cbn [snd] in Hline. subst r'. reflexivity.
Qed.

Lemma handle_lines_ignored a line b :
  handle_line JSON_parse line = ([], false) ->
  handle_lines JSON_parse (a ++ line :: b)%list = handle_lines JSON_parse (a ++ b)%list.
Proof.
  intros H. rewrite !handle_lines_app. cbn [handle_lines]. rewrite H.
  destruct (handle_lines JSON_parse b). reflexivity.
Qed.

Lemma handle_line_not_data line :
  startswith "data: " line = false -> handle_line JSON_parse line = ([], false).
Proof. intros H. unfold handle_line. rewrite H. reflexivity. Qed.

(** X22.  Chunks are split into lines one by one and never joined.  Where a
    chunk is cut at a newline does not matter; but an event cut in two by
    the end of a chunk is lost in silence whenever its first part alone does
    not parse: the second part is no data line.  Lines that do not begin
    with the data prefix, and data lines that do not parse, are passed
    over. *)
Theorem chunks_are_not_joined (pre post : list string) (e : body_end) :
  (forall a b : string,
     read_loop JSON_parse (pre ++ (a ++ newline ++ b)%string :: post)%list e
       = read_loop JSON_parse (pre ++ a :: b :: post)%list e) /\
  (forall a b,
     has_newline a = false -> has_newline b = false ->
     handle_line JSON_parse a = ([], false) ->
     startswith "data: " b = false ->
     read_loop JSON_parse (pre ++ a :: b :: post)%list e
       = read_loop JSON_parse (pre ++ post)%list e) /\
  (forall a line b,
     startswith "data: " line = false \/ JSON_parse (slice 6 line) = None ->
     handle_lines JSON_parse (a ++ line :: b)%list = handle_lines JSON_parse (a ++ b)%list).
Proof.
  split; [|split].
  - intros a b. rewrite !read_loop_lines, !lines_of_app.
    change (lines_of ((a ++ newline ++ b)%string :: post))
      with (split_newline (a ++ newline ++ b) ++ lines_of post)%list.
    change (lines_of (a :: b :: post))
      with (split_newline a ++ split_newline b ++ lines_of post)%list.
    unfold split_newline at 1. rewrite split_from_app, <- app_assoc.
    reflexivity.
  - intros a b Ha Hb Hla Hlb. rewrite !read_loop_lines, !lines_of_app.
    change (lines_of (a :: b :: post))
      with (split_newline a ++ split_newline b ++ lines_of post)%list.
    unfold split_newline.
    rewrite (split_from_no_newline "" a Ha), (split_from_no_newline "" b Hb), !str_app_nil_l.
    cbn [app]. rewrite (handle_lines_ignored _ a _ Hla).
    rewrite (handle_lines_ignored _ b _ (handle_line_not_data b Hlb)). reflexivity.
  - intros a line b [H|H]; apply handle_lines_ignored.
    + apply handle_line_not_data. exact H.
    + unfold handle_line. rewrite H. destruct (startswith "data: " line); reflexivity.
Qed.

(** X23.  What the lines of a chunk deliver: never an empty chunk of text,
    never an error without truth value, and in all at most one chunk or
    error for each line that begins with the data prefix; other lines
    deliver nothing. *)
Theorem a_data_line_delivers_at_most_once (lines : list string) :
  Forall well_formed (fst (handle_lines JSON_parse lines)) /\
  (length (List.filter delivers (fst (handle_lines JSON_parse lines)))
   <= length (List.filter (startswith "data: ") lines))%nat.
Proof.
  induction lines as [|line lines [IH1 IH2]]; cbn [handle_lines].
  - split; [constructor|reflexivity].
  - destruct (handle_line_shape line) as (d & r & -> & Hd & Hs).
    assert (Hwf : Forall well_formed d).
    { destruct Hd as [-> | [(s & -> & H) | (x & -> & H)]]; repeat constructor; exact H. }
    assert (Hlen : (length (List.filter delivers d)
                    <= if startswith "data: " line then 1 else 0)%nat).
    { destruct (startswith "data: " line).
      - destruct Hd as [-> | [(s & -> & _) | (x & -> & _)]]; cbn; lia.
      - destruct (Hs eq_refl) as [-> _]. reflexivity. }
    cbn [List.filter].
    assert (Hstep : (length (if startswith "data: " line
                             then line :: List.filter (startswith "data: ") lines
                             else List.filter (startswith "data: ") lines)
                     = (if startswith "data: " line then 1 else 0)
                       + length (List.filter (startswith "data: ") lines))%nat).
    { destruct (startswith "data: " line); reflexivity. }
    rewrite Hstep. clear Hstep.
    destruct r.
    + cbn [fst]. split.
      * apply Forall_app. split; [exact Hwf|repeat constructor].
      * rewrite List.filter_app, length_app. cbn [List.filter delivers length]. lia.
    + destruct (handle_lines JSON_parse lines) as [c' r']. cbn [fst] in *.
      rewrite app_nil_r. split.
      * apply Forall_app. split; assumption.
      * rewrite List.filter_app, length_app. lia.
Qed.

End ClientProperties.

Lemma completion_is_signalled_last_and_only_on_done_witness :
  sendMessageStream Json.loads
    (Resolved {| ok := true; status := 200; text := "";
                 chunks := [hi_event ++ newline ++ done_event ++ newline; hi_event];
                 ending := Closed |})
  = [onChunk "Hi"; onComplete]
  /\ onComplete ∈ sendMessageStream Json.loads
       (Resolved {| ok := true; status := 200; text := "";
                    chunks := [hi_event ++ newline ++ done_event ++ newline; hi_event];
                    ending := Closed |}).
Proof.
  split; [vm_compute; reflexivity|].
  apply (proj2 (completion_is_signalled_last_and_only_on_done Json.loads _)).
  eexists. split; [reflexivity|]. split; [reflexivity|].
  apply Exists_exists. exists done_event. split; [|vm_compute; reflexivity].
  vm_compute. right. left.
Defined.

Lemma nothing_is_delivered_after_done_witness :
  read_loop Json.loads ([hi_event] ++ done_event :: [hi_event])%list (Failed "network error")
  = read_loop Json.loads ([hi_event] ++ [done_event])%list Closed.
Proof.
  apply (proj1 (nothing_is_delivered_after_done Json.loads
                  [hi_event] [hi_event] done_event (Failed "network error") Closed
                  ltac:(vm_compute; reflexivity))).
Defined.

Lemma chunks_are_not_joined_witness :
  read_loop Json.loads ([] ++ hi_event_head :: hi_event_tail :: [done_event])%list Closed
  = read_loop Json.loads ([] ++ [done_event])%list Closed
  /\ read_loop Json.loads [hi_event_head ++ hi_event_tail; done_event] Closed
     = [onChunk "Hi"; onComplete].
Proof.
  split; [|vm_compute; reflexivity].
  apply (proj1 (proj2 (chunks_are_not_joined Json.loads [] [done_event] Closed))
           hi_event_head hi_event_tail); vm_compute; reflexivity.
Defined.

(** ** Documents that grow *)

Lemma pages_text_app n pages more :
  pages_text n (pages ++ more)%list
  = pages_text n pages ++ pages_text (n + length pages) more.
Proof.
  revert n. induction pages as [|page pages IH]; intros n.
  - cbn [app pages_text length]. rewrite Nat.add_0_r, str_app_nil_l. reflexivity.
  - cbn [app pages_text length]. rewrite IH, !str_app_assoc.
    replace (S n + length pages)%nat with (n + S (length pages))%nat by lia.
    reflexivity.
Qed.

Lemma pages_text_not_blank n page pages :
  whitespace_only (pages_text n (page :: pages)) = false.
Proof.
  rewrite pages_text_cons, whitespace_only_newline.
  destruct (page_marker_first (S n)) as [r ->]. rewrite str_app_cons.
  rewrite <- (str_app_nil_l (String "-" _)). apply whitespace_only_plain; reflexivity.
Qed.

(** X24.  Adding pages to a document only appends to the extracted text: the
    text of a document is a prefix of the text of every document that
    continues it with further pages, and it is the same text exactly when no
    page is added. *)
Theorem pdf_text_only_grows (pages more : list string) :
  (exists r, extract_text_from_pdf (pages ++ more)%list = extract_text_from_pdf pages ++ r) /\
  (extract_text_from_pdf (pages ++ more)%list = extract_text_from_pdf pages <-> more = []).
Proof.
  assert (Hgrow : forall page pages' q qs,
            exists w, extract_text_from_pdf ((page :: pages') ++ q :: qs)%list
                      = extract_text_from_pdf (page :: pages')
                        ++ w ++ rstrip (pages_text (0 + length (page :: pages')) (q :: qs))).
  { intros page pages' q qs. rewrite !extract_text_from_pdf_eq, pages_text_app.
    unfold strip.
    assert (Hne : lstrip (pages_text 0 (page :: pages')) <> "").
    { apply lstrip_nonblank, pages_text_not_blank. }
    pose proof (pages_text_not_blank (0 + length (page :: pages')) q qs) as Hnb.
    rewrite (pages_text_cons _ q qs) in *.
    rewrite (lstrip_app_nonblank _ "010" _ eq_refl Hne).
    rewrite (rstrip_app _ "010" _ eq_refl Hnb).
    destruct (rstrip_prefix (lstrip (pages_text 0 (page :: pages')))) as [w Hw].
    exists w. rewrite <- str_app_assoc, <- Hw. reflexivity. }
  split.
  - destruct pages as [|page pages'].
    + exists (extract_text_from_pdf more). cbn [app].
      change (extract_text_from_pdf []) with "". rewrite str_app_nil_l. reflexivity.
    + destruct more as [|q qs].
      * exists "". rewrite app_nil_r, str_app_nil_r. reflexivity.
      * destruct (Hgrow page pages' q qs) as [w ->]. eexists. reflexivity.
  - split; [|intros ->; rewrite app_nil_r; reflexivity].
    destruct more as [|q qs]; [reflexivity|]. intros E. exfalso.
    destruct pages as [|page pages'].
    + cbn [app] in E. change (extract_text_from_pdf []) with "" in E.
      destruct (extract_nonempty q qs) as [r Hr]. rewrite Hr in E.
      destruct (page_marker_first 1) as [r' Hr']. rewrite Hr' in E. discriminate.
    + destruct (Hgrow page pages' q qs) as [w Hw]. rewrite Hw in E.
      apply (f_equal String.length) in E. rewrite !str_length_app in E.
      pose proof (rstrip_nonblank _ (pages_text_not_blank (0 + length (page :: pages')) q qs))
        as Hnb.
      destruct (rstrip (pages_text (0 + length (page :: pages')) (q :: qs)));
        [congruence|]. cbn [String.length] in E. lia.
Qed.

Lemma pdf_text_only_grows_witness :
  extract_text_from_pdf (["Hello "] ++ ["World"])%list <> extract_text_from_pdf ["Hello "].
Proof.
  intros E. apply (proj1 (proj2 (pdf_text_only_grows ["Hello "] ["World"]))) in E.
  discriminate.
Defined.
